(** * Patch synchronisation engine of the document editor

    A shallow embedding of the change application algorithm
    ([server/src/utils/applyChanges.ts]), the document service
    ([server/src/services/documentService.ts]), the client strategy selector
    ([client/src/lib/changeStrategy.ts]) and the client change buffer
    ([client/src/lib/changeBuffer.ts]), with the properties the
    specification states about them. *)

From Stdlib Require Import ZArith Ascii String List Lia Bool.
From stdpp Require Import base list strings gmap sorting.

Local Open Scope Z_scope.

(** ** JavaScript strings

    A JavaScript string is a finite sequence of code units, addressed by
    index. The algorithms below only copy code units and compare them for
    equality, so the code units are taken to be [ascii] characters; string
    literals are written [js "..."]. Indices and lengths are JavaScript
    numbers restricted to the integers, hence [Z]. *)

Module JsString.

Definition jsstring : Type := list ascii.

Definition js (s : string) : jsstring := list_ascii_of_string s.

(** [s.length] *)
Definition strlen (s : jsstring) : Z := Z.of_nat (length s).

(** The clamping every index argument of [substring] and [indexOf] goes
    through: [min(max(n, 0), s.length)]. *)
Definition clampIndex (s : jsstring) (n : Z) : Z :=
  Z.min (Z.max n 0) (strlen s).

(** [s.substring(a, b)]: both indices are clamped into [0, s.length] and
    swapped when the first exceeds the second. *)
Definition substring (s : jsstring) (a b : Z) : jsstring :=
  let finalStart := clampIndex s a in
  let finalEnd := clampIndex s b in
  let from := Z.min finalStart finalEnd in
  let to := Z.max finalStart finalEnd in
  take (Z.to_nat (to - from)) (drop (Z.to_nat from) s).

(** [s.substring(a)]: the end index defaults to [s.length]. *)
Definition substringFrom (s : jsstring) (a : Z) : jsstring :=
  substring s a (strlen s).

(** [s.startsWith(p)] *)
Definition startsWith (s p : jsstring) : bool :=
  if (length s <? length p)%nat then false
  else bool_decide (take (length p) s = p).

(** [s.endsWith(p)] *)
Definition endsWith (s p : jsstring) : bool :=
  if (length s <? length p)%nat then false
  else bool_decide (drop (length s - length p) s = p).

(** The scan of [indexOf]: [s] is the part of the string that starts at
    index [k]; the first index at which [pat] is a prefix is returned. *)
Fixpoint indexOfFrom (pat s : jsstring) (k : nat) : option nat :=
  if startsWith s pat then Some k
  else match s with
       | [] => None
       | _ :: s' => indexOfFrom pat s' (S k)
       end.

(** [s.indexOf(pat, pos)]: the search starts at [pos] clamped into
    [0, s.length]; [-1] when there is no match. *)
Definition indexOf (s pat : jsstring) (pos : Z) : Z :=
  let start := Z.to_nat (clampIndex s pos) in
  match indexOfFrom pat (drop start s) start with
  | Some k => Z.of_nat k
  | None => -1
  end.

(** [s.includes(pat)] *)
Definition includes (s pat : jsstring) : bool :=
  negb (indexOf s pat 0 =? -1).

End JsString.

Export JsString.

(** ** Results of code that may throw *)

Inductive result (E A : Type) : Type :=
| Ok (a : A)
| Throw (e : E).
Arguments Ok {E A} a.
Arguments Throw {E A} e.

Definition bind {E A B} (r : result E A) (k : A -> result E B) : result E B :=
  match r with
  | Ok a => k a
  | Throw e => Throw e
  end.

Notation "'let*' x ':=' r 'in' k" := (bind r (fun x => k))
  (at level 10, x pattern, r at level 100, k at level 200).

(** ** The change application algorithm (applyChanges.ts) *)

Module ApplyChanges.

(** The [occurrence] field of a change as [applyChanges] distinguishes it:
    absent, [null], or a number. *)
Inductive Occurrence : Type :=
| OccUndefined
| OccNull
| OccNumber (n : Z).

Record Range : Type := { start : Z; end_ : Z }.

Record Change : Type := {
  operation : jsstring;
  range : Range;
  text : jsstring;
  occurrence : Occurrence;
  contextBefore : option jsstring;
  contextAfter : option jsstring
}.

(** The three errors the module throws, named after their messages. *)
Inductive ApplyError : Type :=
| NoMatchingOccurrences
| InvalidOccurrence (occurrence : Z) (found : nat)
| UnknownOperation (operation : jsstring).

Definition applyOperation (content operation : jsstring) (start end_ : Z)
    (text : jsstring) : result ApplyError jsstring :=
  if bool_decide (operation = js "replace") then
    Ok (substring content 0 start ++ text ++ substringFrom content end_)
  else if bool_decide (operation = js "insert") then
    Ok (substring content 0 start ++ text ++ substringFrom content start)
  else if bool_decide (operation = js "delete") then
    Ok (substring content 0 start ++ substringFrom content end_)
  else Throw (UnknownOperation operation).

(** [contextBefore !== undefined && contextBefore !== ''] *)
Definition contextGiven (ctx : option jsstring) : option jsstring :=
  match ctx with
  | Some [] | None => None
  | Some c => Some c
  end.

(** The two context checks of one candidate [index]; [true] when the
    candidate is skipped. *)
Definition contextBeforeFails (content : jsstring) (index : Z)
    (contextBefore : option jsstring) : bool :=
  match contextGiven contextBefore with
  | Some cb =>
      let contextStart := Z.max 0 (index - strlen cb) in
      let actualContextBefore := substring content contextStart index in
      negb (endsWith actualContextBefore cb)
  | None => false
  end.

Definition contextAfterFails (content searchText : jsstring) (index : Z)
    (contextAfter : option jsstring) : bool :=
  match contextGiven contextAfter with
  | Some ca =>
      let contextEnd :=
        Z.min (strlen content) (index + strlen searchText + strlen ca) in
      let actualContextAfter :=
        substring content (index + strlen searchText) contextEnd in
      negb (startsWith actualContextAfter ca)
  | None => false
  end.

(** The qualifying positions as the specification describes them: the
    pattern starts at index [i] of the text, [contextBefore] ends the
    characters before [i] and [contextAfter] begins the characters after
    the match. An absent context counts as the empty string. *)
Definition qualifies (content searchText : jsstring)
    (contextBefore contextAfter : option jsstring) (i : Z) : Prop :=
  0 <= i < strlen content /\
  searchText `prefix_of` drop (Z.to_nat i) content /\
  default [] contextBefore `suffix_of` take (Z.to_nat i) content /\
  default [] contextAfter `prefix_of`
    drop (Z.to_nat i + length searchText) content.

#[global] Instance qualifies_dec content searchText contextBefore contextAfter i :
  Decision (qualifies content searchText contextBefore contextAfter i).
Proof. unfold qualifies. apply _. Defined.

(** The [while (position < content.length)] loop of [findOccurrences];
    [fuel] bounds the number of iterations. *)
Fixpoint findOccurrences_loop (fuel : nat) (content searchText : jsstring)
    (contextBefore contextAfter : option jsstring)
    (position : Z) (occurrences : list Z) : list Z :=
  match fuel with
  | O => occurrences
  | S fuel' =>
      if position <? strlen content then
        let index := indexOf content searchText position in
        if index =? -1 then occurrences
        else if contextBeforeFails content index contextBefore then
          findOccurrences_loop fuel' content searchText contextBefore
            contextAfter (index + 1) occurrences
        else if contextAfterFails content searchText index contextAfter then
          findOccurrences_loop fuel' content searchText contextBefore
            contextAfter (index + 1) occurrences
        else
          findOccurrences_loop fuel' content searchText contextBefore
            contextAfter (index + 1) (occurrences ++ [index])
      else occurrences
  end.

(** Every iteration moves [position] at least one index forward, so
    [content.length] iterations are enough (shown below). *)
Definition findOccurrences (content searchText : jsstring)
    (contextBefore contextAfter : option jsstring) : list Z :=
  findOccurrences_loop (length content) content searchText contextBefore
    contextAfter 0 [].

(** The loop [for (i = occurrences.length - 1; i >= 0; i--)], run over the
    occurrences from the last to the first. *)
Fixpoint applyAtEach (content operation : jsstring) (descending : list Z)
    (searchLength : Z) (text : jsstring) : result ApplyError jsstring :=
  match descending with
  | [] => Ok content
  | occStart :: rest =>
      let* updated := applyOperation content operation occStart
                   (occStart + searchLength) text in
      applyAtEach updated operation rest searchLength text
  end.

(** [occurrence !== undefined || contextBefore !== undefined ||
     contextAfter !== undefined] *)
Definition usesMatching (change : Change) : bool :=
  match occurrence change, contextBefore change, contextAfter change with
  | OccUndefined, None, None => false
  | _, _, _ => true
  end.

(** One iteration of the [for (const change of changes)] loop, on the
    state [(updatedContent, cumulativeOffset)]. The test
    [occurrence === undefined || occurrence === null || occurrence === -1]
    is the case analysis on [occurrence change]. *)
Definition applyChange (st : jsstring * Z) (change : Change)
    : result ApplyError (jsstring * Z) :=
  let '(updatedContent, cumulativeOffset) := st in
  if usesMatching change then
    let searchText :=
      substring updatedContent
        (start (range change) + cumulativeOffset)
        (end_ (range change) + cumulativeOffset) in
    let searchLength := strlen searchText in
    let occurrences :=
      findOccurrences updatedContent searchText
        (contextBefore change) (contextAfter change) in
    if (length occurrences =? 0)%nat then Throw NoMatchingOccurrences
    else
      let allOccurrences :=
        let* updated := applyAtEach updatedContent (operation change)
                          (rev occurrences) searchLength (text change) in
        Ok (updated, 0) in
      match occurrence change with
      | OccUndefined | OccNull => allOccurrences
      | OccNumber n =>
          if n =? -1 then allOccurrences
          else if (0 <? n) && (n <=? Z.of_nat (length occurrences)) then
            let targetIndex := n - 1 in
            let occStart := nth (Z.to_nat targetIndex) occurrences 0 in
            let occEnd := occStart + searchLength in
            let* updated := applyOperation updatedContent (operation change)
                              occStart occEnd (text change) in
            Ok (updated, 0)
          else Throw (InvalidOccurrence n (length occurrences))
      end
  else
    let adjustedStart := start (range change) + cumulativeOffset in
    let adjustedEnd := end_ (range change) + cumulativeOffset in
    let lengthBefore := strlen updatedContent in
    let* updated := applyOperation updatedContent (operation change)
                      adjustedStart adjustedEnd (text change) in
    let lengthAfter := strlen updated in
    Ok (updated, cumulativeOffset + (lengthAfter - lengthBefore)).

Fixpoint applyChanges_loop (st : jsstring * Z) (changes : list Change)
    : result ApplyError (jsstring * Z) :=
  match changes with
  | [] => Ok st
  | change :: rest =>
      let* st1 := applyChange st change in
      applyChanges_loop st1 rest
  end.

Definition applyChanges (content : jsstring) (changes : list Change)
    : result ApplyError jsstring :=
  let* st := applyChanges_loop (content, 0) changes in
  Ok (fst st).

(** A change addressed by position only, as the client builds it. *)
Definition positional (operation : jsstring) (start end_ : Z)
    (text : jsstring) : Change :=
  {| operation := operation; range := {| start := start; end_ := end_ |};
     text := text; occurrence := OccUndefined;
     contextBefore := None; contextAfter := None |}.

(** No occurrence and no context field. *)
Definition positionalChange (change : Change) : Prop :=
  occurrence change = OccUndefined /\ contextBefore change = None /\
  contextAfter change = None.

(** One of the three operation tags of the [Change] type. *)
Definition validOperation (operation : jsstring) : Prop :=
  operation = js "replace" \/ operation = js "insert" \/
  operation = js "delete".

(** The number of qualifying positions the matching mode finds for a
    change, in the state the loop has reached. *)
Definition qualifyingCount (st : jsstring * Z) (change : Change) : nat :=
  let '(updatedContent, cumulativeOffset) := st in
  length
    (findOccurrences updatedContent
       (substring updatedContent
          (start (range change) + cumulativeOffset)
          (end_ (range change) + cumulativeOffset))
       (contextBefore change) (contextAfter change)).

(** A number other than -1 was supplied as occurrence and it does not lie
    between 1 and [count]. *)
Definition occurrenceOutOfRange (change : Change) (count : nat) : Prop :=
  exists n, occurrence change = OccNumber n /\ n <> -1 /\
            ~ (1 <= n <= Z.of_nat count).

Definition failsInvalidOccurrence {A} (r : result ApplyError A) : Prop :=
  exists n found, r = Throw (InvalidOccurrence n found).

(** Replace every "foo" (the sample at [0, 3)) by "qux". *)
Definition replaceAll : Change :=
  {| operation := js "replace"; range := {| start := 0; end_ := 3 |};
     text := js "qux"; occurrence := OccNumber (-1);
     contextBefore := None; contextAfter := None |}.

(** Replace the fourth "foo". *)
Definition replaceFourth : Change :=
  {| operation := js "replace"; range := {| start := 0; end_ := 3 |};
     text := js "qux"; occurrence := OccNumber 4;
     contextBefore := None; contextAfter := None |}.

End ApplyChanges.

(** ** Validation of incoming changes (isValidChange) *)

Module Validation.
Import ApplyChanges.

(** The argument of [isValidChange] has type [any]: a JSON value as the
    request body carries it. Numbers are restricted to the integers. An
    object is the list of its properties; a property read takes the first
    binding of the key and gives [undefined] when there is none. *)
#[warnings="-register-all"] Inductive value : Type :=
| VUndefined
| VNull
| VBool (b : bool)
| VNumber (n : Z)
| VString (s : jsstring)
| VObject (properties : list (jsstring * value)).

Inductive jstype : Type :=
| TUndefined | TObject | TBoolean | TNumber | TString.

#[global] Instance jstype_eq_dec : EqDecision jstype.
Proof. solve_decision. Defined.

(** [typeof v] *)
Definition typeof (v : value) : jstype :=
  match v with
  | VUndefined => TUndefined
  | VNull => TObject
  | VBool _ => TBoolean
  | VNumber _ => TNumber
  | VString _ => TString
  | VObject _ => TObject
  end.

(** The truthiness the [&&] chain tests. *)
Definition truthy (v : value) : bool :=
  match v with
  | VUndefined | VNull => false
  | VBool b => b
  | VNumber n => negb (n =? 0)
  | VString s => negb (bool_decide (s = []))
  | VObject _ => true
  end.

Fixpoint lookupProperty (properties : list (jsstring * value))
    (key : jsstring) : value :=
  match properties with
  | [] => VUndefined
  | (k, v) :: rest =>
      if bool_decide (k = key) then v else lookupProperty rest key
  end.

(** [v.key]; reading a property of a number, string or boolean gives
    [undefined] for the keys used here. *)
Definition get (v : value) (key : string) : value :=
  match v with
  | VObject properties => lookupProperty properties (js key)
  | _ => VUndefined
  end.

(** [v !== undefined] *)
Definition defined (v : value) : bool :=
  match v with
  | VUndefined => false
  | _ => true
  end.

(** [['replace', 'insert', 'delete'].includes(v)] *)
Definition isOperationTag (v : value) : bool :=
  match v with
  | VString s =>
      bool_decide (s = js "replace") || bool_decide (s = js "insert")
      || bool_decide (s = js "delete")
  | _ => false
  end.

Definition isValidChange (change : value) : bool :=
  let isBasicValid :=
    truthy change &&
    bool_decide (typeof change = TObject) &&
    isOperationTag (get change "operation") &&
    truthy (get change "range") &&
    bool_decide (typeof (get (get change "range") "start") = TNumber) &&
    bool_decide (typeof (get (get change "range") "end") = TNumber) &&
    bool_decide (typeof (get change "text") = TString) in
  if negb isBasicValid then false
  else if defined (get change "occurrence") &&
          (negb (bool_decide (typeof (get change "occurrence") = TNumber)) ||
           match get change "occurrence" with
           | VNumber n => negb (n =? -1) && (n <? 1)
           | _ => false
           end)
  then false
  else if defined (get change "contextBefore") &&
          negb (bool_decide (typeof (get change "contextBefore") = TString))
  then false
  else if defined (get change "contextAfter") &&
          negb (bool_decide (typeof (get change "contextAfter") = TString))
  then false
  else true.

(** The value a [Change] is on the wire: optional fields that are absent
    are left out of the object. *)
Definition optionalProperty (key : string) (v : option value)
    : list (jsstring * value) :=
  match v with
  | Some v => [(js key, v)]
  | None => []
  end.

Definition toValue (change : Change) : value :=
  VObject
    ([(js "operation", VString (operation change));
      (js "range",
       VObject [(js "start", VNumber (start (range change)));
                (js "end", VNumber (end_ (range change)))]);
      (js "text", VString (text change))]
     ++ optionalProperty "occurrence"
          match occurrence change with
          | OccUndefined => None
          | OccNull => Some VNull
          | OccNumber n => Some (VNumber n)
          end
     ++ optionalProperty "contextBefore" (VString <$> contextBefore change)
     ++ optionalProperty "contextAfter" (VString <$> contextAfter change)).

(** The occurrence values validation lets through. *)
Definition occurrenceAccepted (o : Occurrence) : Prop :=
  match o with
  | OccUndefined => True
  | OccNull => False
  | OccNumber n => n = -1 \/ 1 <= n
  end.

End Validation.

(** ** The document service (documentService.ts) *)

Module DocumentService.
Import ApplyChanges Validation.

(** The columns of the three tables the service reads and writes.
    [createdAt] and [updatedAt] are maintained by the database and read by
    none of the functions modelled here. *)
Record Document : Type := {
  id : jsstring;
  content : jsstring;
  version : Z;
  etag : jsstring
}.

Record DocumentVersion : Type := {
  snapshotDocumentId : jsstring;
  snapshotVersion : Z;
  snapshotContent : jsstring
}.

Record ChangeRow : Type := {
  rowDocumentId : jsstring;
  rowText : jsstring;
  rowOperation : jsstring;
  rowRangeStart : Z;
  rowRangeEnd : Z;
  rowOccurrence : Occurrence;
  rowContextBefore : option jsstring;
  rowContextAfter : option jsstring
}.

Record Store : Type := {
  documents : gmap jsstring Document;
  versions : list DocumentVersion;
  changes : list ChangeRow
}.

(** [AppError(statusCode, message)]; the messages are kept symbolic. *)
Inductive Message : Type :=
| InvalidChangeFormat
| DocumentNotFound
| VersionConflict (expected current : Z)
| ETagMismatch
| Failed (what : string).

Record AppError : Type := { statusCode : Z; message : Message }.

(** What a service body can throw: an [AppError], an error of
    [applyChanges], or a database error with its code. *)
Inductive Thrown : Type :=
| ThrownApp (e : AppError)
| ThrownApply (e : ApplyError)
| ThrownDatabase (code : string).

(** Service code runs against the store and may throw. *)
Definition M (A : Type) : Type := Store -> Store * result Thrown A.

Definition ret {A} (a : A) : M A := fun st => (st, Ok a).

Definition throw {A} (e : Thrown) : M A := fun st => (st, Throw e).

Definition mbind {A B} (m : M A) (k : A -> M B) : M B :=
  fun st =>
    match m st with
    | (st1, Ok a) => k a st1
    | (st1, Throw e) => (st1, Throw e)
    end.

Notation "'let!' x ':=' m 'in' k" := (mbind m (fun x => k))
  (at level 10, x pattern, m at level 100, k at level 200).

(** [prisma.document.findUnique({ where: { id } })] *)
Definition findUnique (id : jsstring) : M (option Document) :=
  fun st => (st, Ok (documents st !! id)).

(** The [data] of an update: the columns to overwrite. *)
Record DocumentData : Type := {
  dataContent : option jsstring;
  dataVersion : option Z;
  dataETag : option jsstring
}.

Definition overwrite (data : DocumentData) (d : Document) : Document :=
  {| id := id d;
     content := default (content d) (dataContent data);
     version := default (version d) (dataVersion data);
     etag := default (etag d) (dataETag data) |}.

(** [tx.document.update({ where: { id }, data })]; error P2025 when there
    is no such record. *)
Definition update (id : jsstring) (data : DocumentData) : M Document :=
  fun st =>
    match documents st !! id with
    | Some d =>
        ({| documents := <[id := overwrite data d]> (documents st);
            versions := versions st; changes := changes st |},
         Ok (overwrite data d))
    | None => (st, Throw (ThrownDatabase "P2025"))
    end.

(** [tx.documentVersion.create({ data })]: the pair (documentId, version)
    is a unique key of the table (the key [documentId_version] the lookups
    use); error P2002 when it is taken. *)
Definition createVersion (snapshot : DocumentVersion) : M unit :=
  fun st =>
    if bool_decide
         (Exists (fun v => snapshotDocumentId v = snapshotDocumentId snapshot /\
                           snapshotVersion v = snapshotVersion snapshot)
                 (versions st))
    then (st, Throw (ThrownDatabase "P2002"))
    else ({| documents := documents st;
             versions := versions st ++ [snapshot];
             changes := changes st |}, Ok tt).

(** [tx.change.create({ data })] *)
Definition createChange (row : ChangeRow) : M unit :=
  fun st =>
    ({| documents := documents st; versions := versions st;
        changes := changes st ++ [row] |}, Ok tt).

(** [prisma.$transaction]: all of the writes or none. *)
Definition transaction {A} (m : M A) : M A :=
  fun st =>
    match m st with
    | (st1, Ok a) => (st1, Ok a)
    | (_, Throw e) => (st, Throw e)
    end.

(** [withErrorHandling(fn, errorMessage)] *)
Definition withErrorHandling {A} (m : M A) (errorMessage : string) : M A :=
  fun st =>
    match m st with
    | (st1, Ok a) => (st1, Ok a)
    | (st1, Throw (ThrownApp e)) => (st1, Throw (ThrownApp e))
    | (st1, Throw (ThrownDatabase code)) =>
        if bool_decide (code = "P2025"%string)
        then (st1, Throw (ThrownApp {| statusCode := 404;
                                       message := DocumentNotFound |}))
        else (st1, Throw (ThrownApp {| statusCode := 500;
                                       message := Failed errorMessage |}))
    | (st1, Throw (ThrownApply _)) =>
        (st1, Throw (ThrownApp {| statusCode := 500;
                                  message := Failed errorMessage |}))
    end.

Definition appError {A} (statusCode : Z) (message : Message) : M A :=
  throw (ThrownApp {| statusCode := statusCode; message := message |}).

(** [for (const change of changes) if (!isValidChange(change)) throw ...] *)
Fixpoint validateAll (changes : list Change) : M unit :=
  match changes with
  | [] => ret tt
  | change :: rest =>
      if negb (isValidChange (toValue change))
      then appError 400 InvalidChangeFormat
      else validateAll rest
  end.

(** The row [tx.change.create] is given for a change. *)
Definition changeRow (id : jsstring) (change : Change) : ChangeRow :=
  {| rowDocumentId := id;
     rowText := text change;
     rowOperation := operation change;
     rowRangeStart := start (range change);
     rowRangeEnd := end_ (range change);
     rowOccurrence := occurrence change;
     rowContextBefore := contextBefore change;
     rowContextAfter := contextAfter change |}.

(** [Promise.all(changes.map(change => tx.change.create(...)))] *)
Fixpoint storeChanges (id : jsstring) (changes : list Change) : M unit :=
  match changes with
  | [] => ret tt
  | change :: rest =>
      let! _ := createChange (changeRow id change) in
      storeChanges id rest
  end.

Section Service.

(** The digest of [utils/etag.ts] (a truncated SHA-256 of content, version
    and timestamp) and the clock are taken as given. *)
Variable generateETag : jsstring -> Z -> Z -> jsstring.

(** The two precondition checks shared by update and patch. *)
Definition checkVersion (expectedVersion : option Z) (document : Document)
    : M unit :=
  match expectedVersion with
  | Some expected =>
      if negb (version document =? expected)
      then appError 409 (VersionConflict expected (version document))
      else ret tt
  | None => ret tt
  end.

Definition checkETag (expectedETag : option jsstring) (document : Document)
    : M unit :=
  match expectedETag with
  | Some expected =>
      if negb (bool_decide (etag document = expected))
      then appError 409 ETagMismatch
      else ret tt
  | None => ret tt
  end.

(** [updateDocument(id, data, expectedVersion, expectedETag)], with
    [dataContent] the optional [content] of the DTO and [now] the clock. *)
Definition updateDocument (id : jsstring) (dataContent : option jsstring)
    (expectedVersion : option Z) (expectedETag : option jsstring) (now : Z)
    : M Document :=
  withErrorHandling
    (let! currentDoc := findUnique id in
     match currentDoc with
     | None => appError 404 DocumentNotFound
     | Some currentDoc =>
         let! _ := checkVersion expectedVersion currentDoc in
         let! _ := checkETag expectedETag currentDoc in
         let newContent := default (content currentDoc) dataContent in
         let newETag := generateETag newContent (version currentDoc) now in
         update id {| dataContent := dataContent; dataVersion := None;
                      dataETag := Some newETag |}
     end)
    "Failed to update document".

(** [applyChangesToDocument(id, changes, expectedVersion, expectedETag)] *)
Definition applyChangesToDocument (id : jsstring) (changes : list Change)
    (expectedVersion : option Z) (expectedETag : option jsstring) (now : Z)
    : M Document :=
  withErrorHandling
    (let! _ := validateAll changes in
     let! document := findUnique id in
     match document with
     | None => appError 404 DocumentNotFound
     | Some document =>
         let! _ := checkVersion expectedVersion document in
         let! _ := checkETag expectedETag document in
         match applyChanges (content document) changes with
         | Throw e => throw (ThrownApply e)
         | Ok updatedContent =>
             let newETag :=
               generateETag updatedContent (version document) now in
             transaction
               (let! _ := storeChanges id changes in
                update id {| dataContent := Some updatedContent;
                             dataVersion := None;
                             dataETag := Some newETag |})
         end
     end)
    "Failed to apply changes to document".

(** [publishDocument(id)] *)
Definition publishDocument (id : jsstring) (now : Z) : M Document :=
  withErrorHandling
    (let! document := findUnique id in
     match document with
     | None => appError 404 DocumentNotFound
     | Some document =>
         let publishedVersion := version document in
         let nextWorkingVersion := version document + 1 in
         let newETag :=
           generateETag (content document) nextWorkingVersion now in
         transaction
           (let! _ := createVersion
              {| snapshotDocumentId := id;
                 snapshotVersion := publishedVersion;
                 snapshotContent := content document |} in
            update id {| dataContent := None;
                         dataVersion := Some nextWorkingVersion;
                         dataETag := Some newETag |})
     end)
    "Failed to publish document".

End Service.

(** The record an update leaves in place of [d]. *)
Definition updated (d : Document) (newContent : jsstring) (newVersion : Z)
    (newETag : jsstring) : Document :=
  {| id := id d; content := newContent; version := newVersion;
     etag := newETag |}.

(** The store after document [id] was replaced by [d], [rows] were added
    to the change table and [snapshots] to the version table. *)
Definition written (st : Store) (id : jsstring) (d : Document)
    (rows : list ChangeRow) (snapshots : list DocumentVersion) : Store :=
  {| documents := <[id := d]> (documents st);
     versions := versions st ++ snapshots;
     changes := changes st ++ rows |}.

Definition conflict (message : Message) : Thrown :=
  ThrownApp {| statusCode := 409; message := message |}.

(** [expectedVersion] is supplied and differs from the document's. *)
Definition versionDiffers (expectedVersion : option Z) (d : Document) : Prop :=
  exists v, expectedVersion = Some v /\ v <> version d.

(** [expectedETag] is supplied and differs from the document's. *)
Definition etagDiffers (expectedETag : option jsstring) (d : Document) : Prop :=
  exists e, expectedETag = Some e /\ e <> etag d.

Definition failed (what : string) : Thrown :=
  ThrownApp {| statusCode := 500; message := Failed what |}.

#[global] Instance versionDiffers_dec ev d : Decision (versionDiffers ev d).
Proof.
  destruct ev as [v|]; [|right; intros (? & ? & ?); discriminate].
  destruct (decide (v = version d)) as [->|Hne].
  - right. intros (? & [= <-] & ?). done.
  - left. by exists v.
Defined.

#[global] Instance etagDiffers_dec ee d : Decision (etagDiffers ee d).
Proof.
  destruct ee as [e|]; [|right; intros (? & ? & ?); discriminate].
  destruct (decide (e = etag d)) as [->|Hne].
  - right. intros (? & [= <-] & ?). done.
  - left. by exists e.
Defined.

(** Every snapshot of a document carries a version below the document's
    working version. *)
Definition snapshotsBelow (st : Store) : Prop :=
  forall v d,
    v ∈ versions st ->
    documents st !! snapshotDocumentId v = Some d ->
    snapshotVersion v < version d.

(** No snapshot of document [id] at version [n] is stored yet. *)
Definition unpublished (st : Store) (id : jsstring) (n : Z) : Prop :=
  Forall (fun v => ~ (snapshotDocumentId v = id /\ snapshotVersion v = n))
    (versions st).

(** A stand-in for the digest in closed examples. *)
Definition exampleETag (content : jsstring) (version now : Z) : jsstring :=
  content ++ js ":" ++ repeat "v"%char (Z.to_nat version)
  ++ js ":" ++ repeat "t"%char (Z.to_nat now).

Definition exampleDocument : Document :=
  {| id := js "doc1"; content := js "Hello world"; version := 1;
     etag := js "abc123" |}.

Definition exampleStore : Store :=
  {| documents := {[ js "doc1" := exampleDocument ]};
     versions := [ {| snapshotDocumentId := js "doc1"; snapshotVersion := 0;
                      snapshotContent := js "Hello" |} ];
     changes := [] |}.

End DocumentService.

(** ** The change strategy selector (changeStrategy.ts) *)

Module ChangeStrategy.
Import ApplyChanges.

(** The optional fields are [None] when absent. *)
Record ChangeContext : Type := {
  documentContent : jsstring;
  selection : Range;
  isCollaborative : option bool;
  hasRecentRemoteChanges : option bool;
  queueLength : option Z;
  timeSinceLastSync : option Z
}.

Inductive Strategy : Type :=
| RangeBased
| ContentBased.

Module STRATEGY_CONFIG.
Definition DUPLICATE_THRESHOLD : Z := 1.
Definition QUEUE_LENGTH_THRESHOLD : Z := 3.
Definition STALE_POSITION_THRESHOLD_MS : Z := 2000.
Definition CONTEXT_LENGTH : Z := 15.
Definition CONTEXT_TRIM_LENGTH : Z := 10.
End STRATEGY_CONFIG.

(** Truthiness of an optional boolean and of an optional number. *)
Definition truthyFlag (b : option bool) : bool := default false b.

Definition truthyNumber (n : option Z) : bool :=
  match n with
  | Some n => negb (n =? 0)
  | None => false
  end.

(** [n && n >= threshold] *)
Definition atLeast (n : option Z) (threshold : Z) : bool :=
  truthyNumber n && (threshold <=? default 0 n).

(** The loop of [countOccurrences]; [fuel] bounds the iterations. *)
Fixpoint countOccurrences_loop (fuel : nat) (content pattern : jsstring)
    (position count : Z) : Z :=
  match fuel with
  | O => count
  | S fuel' =>
      if position <? strlen content then
        let index := indexOf content pattern position in
        if index =? -1 then count
        else countOccurrences_loop fuel' content pattern (index + 1)
               (count + 1)
      else count
  end.

Definition countOccurrences (content pattern : jsstring) : Z :=
  if strlen pattern =? 0 then 0
  else countOccurrences_loop (length content) content pattern 0 0.

Definition selectedText (context : ChangeContext) : jsstring :=
  substring (documentContent context)
    (start (selection context)) (end_ (selection context)).

Definition determineChangeStrategy (context : ChangeContext) : Strategy :=
  let selectedText := selectedText context in
  if strlen selectedText =? 0 then RangeBased
  else if truthyFlag (hasRecentRemoteChanges context) then ContentBased
  else if atLeast (queueLength context) STRATEGY_CONFIG.QUEUE_LENGTH_THRESHOLD
  then ContentBased
  else if atLeast (timeSinceLastSync context)
            STRATEGY_CONFIG.STALE_POSITION_THRESHOLD_MS
  then ContentBased
  else
    let occurrenceCount :=
      countOccurrences (documentContent context) selectedText in
    if STRATEGY_CONFIG.DUPLICATE_THRESHOLD <? occurrenceCount then ContentBased
    else if truthyFlag (isCollaborative context) then ContentBased
    else RangeBased.

(** [n >= threshold] for a number that may be absent. *)
Definition geq (n : option Z) (threshold : Z) : bool :=
  match n with
  | Some n => threshold <=? n
  | None => false
  end.

(** The decision order as the specification lists it: an ordered list of
    rules, each a condition on the context with the strategy it selects;
    the first rule whose condition holds decides, and [RangeBased] is the
    default. *)
Definition specRules : list ((ChangeContext -> bool) * Strategy) :=
  [ (fun c => bool_decide (selectedText c = []), RangeBased);
    (fun c => bool_decide (hasRecentRemoteChanges c = Some true), ContentBased);
    (fun c => geq (queueLength c) 3, ContentBased);
    (fun c => geq (timeSinceLastSync c) 2000, ContentBased);
    (fun c => 1 <? countOccurrences (documentContent c) (selectedText c),
     ContentBased);
    (fun c => bool_decide (isCollaborative c = Some true), ContentBased) ].

Fixpoint firstMatch (rules : list ((ChangeContext -> bool) * Strategy))
    (otherwise : Strategy) (context : ChangeContext) : Strategy :=
  match rules with
  | [] => otherwise
  | (condition, strategy) :: rest =>
      if condition context then strategy
      else firstMatch rest otherwise context
  end.

Definition specSelect (context : ChangeContext) : Strategy :=
  firstMatch specRules RangeBased context.

(** The word "Hello" is selected just after a remote change arrived. *)
Definition remoteEdit : ChangeContext :=
  {| documentContent := js "Hello world";
     selection := {| start := 0; end_ := 5 |};
     isCollaborative := None; hasRecentRemoteChanges := Some true;
     queueLength := Some 0; timeSinceLastSync := Some 10 |}.

End ChangeStrategy.

(** ** The client change buffer (changeBuffer.ts) *)

Module ChangeBuffer.
Import ApplyChanges.

Module BATCH_CONFIG.
Definition maxWaitMs : Z := 2000.
Definition idleWaitMs : Z := 500.
Definition maxBatchSize : Z := 100.
End BATCH_CONFIG.

(** The fields of a [ChangeBuffer] instance. A timer handle is the
    identifier [setTimeout] returned, [None] for [null]. *)
Record Buffer : Type := {
  idleTimeoutId : option nat;
  maxWaitTimeoutId : option nat;
  documentId : jsstring;
  lastSyncTime : Z;
  hasRecentRemoteChanges : bool;
  currentETag : option jsstring;
  isFlushInProgress : bool;
  currentEditorContent : jsstring;
  lastSavedContent : jsstring;
  hasUnflushedChanges : bool
}.

(** One call of [saveDocumentChanges(documentId, changes, etag)]. *)
Record Request : Type := {
  requestDocumentId : jsstring;
  requestChanges : list Change;
  requestETag : option jsstring
}.

(** The calls the buffer makes to the callbacks it was given. *)
Inductive Callback : Type :=
| OnFlush (success : bool) (savedContent : option jsstring)
| OnConflict.

(** The buffer together with the runtime around it: the timers that are
    set and have neither fired nor been cleared (identifier and delay), the
    next timer identifier, the number of [saveDocumentChanges] calls whose
    promise is still pending, the requests sent so far and the callbacks
    made so far. *)
Record World : Type := {
  buffer : Buffer;
  timers : list (nat * Z);
  nextTimerId : nat;
  inFlight : nat;
  dispatched : list Request;
  callbacks : list Callback
}.

(** Assignments [this.field = v], one setter per field that is assigned. *)
Definition set_idleTimeoutId (v : option nat) (b : Buffer) : Buffer :=
  {| idleTimeoutId := v; maxWaitTimeoutId := maxWaitTimeoutId b;
     documentId := documentId b; lastSyncTime := lastSyncTime b;
     hasRecentRemoteChanges := hasRecentRemoteChanges b;
     currentETag := currentETag b; isFlushInProgress := isFlushInProgress b;
     currentEditorContent := currentEditorContent b;
     lastSavedContent := lastSavedContent b;
     hasUnflushedChanges := hasUnflushedChanges b |}.

Definition set_maxWaitTimeoutId (v : option nat) (b : Buffer) : Buffer :=
  {| idleTimeoutId := idleTimeoutId b; maxWaitTimeoutId := v;
     documentId := documentId b; lastSyncTime := lastSyncTime b;
     hasRecentRemoteChanges := hasRecentRemoteChanges b;
     currentETag := currentETag b; isFlushInProgress := isFlushInProgress b;
     currentEditorContent := currentEditorContent b;
     lastSavedContent := lastSavedContent b;
     hasUnflushedChanges := hasUnflushedChanges b |}.

Definition set_lastSyncTime (v : Z) (b : Buffer) : Buffer :=
  {| idleTimeoutId := idleTimeoutId b;
     maxWaitTimeoutId := maxWaitTimeoutId b; documentId := documentId b;
     lastSyncTime := v; hasRecentRemoteChanges := hasRecentRemoteChanges b;
     currentETag := currentETag b; isFlushInProgress := isFlushInProgress b;
     currentEditorContent := currentEditorContent b;
     lastSavedContent := lastSavedContent b;
     hasUnflushedChanges := hasUnflushedChanges b |}.

Definition set_hasRecentRemoteChanges (v : bool) (b : Buffer) : Buffer :=
  {| idleTimeoutId := idleTimeoutId b;
     maxWaitTimeoutId := maxWaitTimeoutId b; documentId := documentId b;
     lastSyncTime := lastSyncTime b; hasRecentRemoteChanges := v;
     currentETag := currentETag b; isFlushInProgress := isFlushInProgress b;
     currentEditorContent := currentEditorContent b;
     lastSavedContent := lastSavedContent b;
     hasUnflushedChanges := hasUnflushedChanges b |}.

Definition set_currentETag (v : option jsstring) (b : Buffer) : Buffer :=
  {| idleTimeoutId := idleTimeoutId b;
     maxWaitTimeoutId := maxWaitTimeoutId b; documentId := documentId b;
     lastSyncTime := lastSyncTime b;
     hasRecentRemoteChanges := hasRecentRemoteChanges b; currentETag := v;
     isFlushInProgress := isFlushInProgress b;
     currentEditorContent := currentEditorContent b;
     lastSavedContent := lastSavedContent b;
     hasUnflushedChanges := hasUnflushedChanges b |}.

Definition set_isFlushInProgress (v : bool) (b : Buffer) : Buffer :=
  {| idleTimeoutId := idleTimeoutId b;
     maxWaitTimeoutId := maxWaitTimeoutId b; documentId := documentId b;
     lastSyncTime := lastSyncTime b;
     hasRecentRemoteChanges := hasRecentRemoteChanges b;
     currentETag := currentETag b; isFlushInProgress := v;
     currentEditorContent := currentEditorContent b;
     lastSavedContent := lastSavedContent b;
     hasUnflushedChanges := hasUnflushedChanges b |}.

Definition set_currentEditorContent (v : jsstring) (b : Buffer) : Buffer :=
  {| idleTimeoutId := idleTimeoutId b;
     maxWaitTimeoutId := maxWaitTimeoutId b; documentId := documentId b;
     lastSyncTime := lastSyncTime b;
     hasRecentRemoteChanges := hasRecentRemoteChanges b;
     currentETag := currentETag b; isFlushInProgress := isFlushInProgress b;
     currentEditorContent := v; lastSavedContent := lastSavedContent b;
     hasUnflushedChanges := hasUnflushedChanges b |}.

Definition set_lastSavedContent (v : jsstring) (b : Buffer) : Buffer :=
  {| idleTimeoutId := idleTimeoutId b;
     maxWaitTimeoutId := maxWaitTimeoutId b; documentId := documentId b;
     lastSyncTime := lastSyncTime b;
     hasRecentRemoteChanges := hasRecentRemoteChanges b;
     currentETag := currentETag b; isFlushInProgress := isFlushInProgress b;
     currentEditorContent := currentEditorContent b; lastSavedContent := v;
     hasUnflushedChanges := hasUnflushedChanges b |}.

Definition set_hasUnflushedChanges (v : bool) (b : Buffer) : Buffer :=
  {| idleTimeoutId := idleTimeoutId b;
     maxWaitTimeoutId := maxWaitTimeoutId b; documentId := documentId b;
     lastSyncTime := lastSyncTime b;
     hasRecentRemoteChanges := hasRecentRemoteChanges b;
     currentETag := currentETag b; isFlushInProgress := isFlushInProgress b;
     currentEditorContent := currentEditorContent b;
     lastSavedContent := lastSavedContent b; hasUnflushedChanges := v |}.

(** The runtime with the buffer's fields assigned by [f]. *)
Definition assign (f : Buffer -> Buffer) (w : World) : World :=
  {| buffer := f (buffer w); timers := timers w;
     nextTimerId := nextTimerId w; inFlight := inFlight w;
     dispatched := dispatched w; callbacks := callbacks w |}.

(** [setTimeout(() => this.flush(), delay)] *)
Definition setTimeout (delay : Z) (w : World) : nat * World :=
  (nextTimerId w,
   {| buffer := buffer w;
      timers := timers w ++ [(nextTimerId w, delay)];
      nextTimerId := S (nextTimerId w);
      inFlight := inFlight w; dispatched := dispatched w;
      callbacks := callbacks w |}).

(** [clearTimeout(id)] *)
Definition clearTimeout (id : nat) (w : World) : World :=
  {| buffer := buffer w;
     timers := filter (fun t => fst t <> id) (timers w);
     nextTimerId := nextTimerId w;
     inFlight := inFlight w; dispatched := dispatched w;
     callbacks := callbacks w |}.

(** [if (handle) clearTimeout(handle)] *)
Definition clearIfSet (handle : option nat) (w : World) : World :=
  match handle with
  | Some id => clearTimeout id w
  | None => w
  end.

(** A call of one of the callbacks the buffer was given. *)
Definition call (c : Callback) (w : World) : World :=
  {| buffer := buffer w; timers := timers w; nextTimerId := nextTimerId w;
     inFlight := inFlight w; dispatched := dispatched w;
     callbacks := callbacks w ++ [c] |}.

(** [saveDocumentChanges(...)] is called: the request leaves and its
    promise is pending. *)
Definition send (r : Request) (w : World) : World :=
  {| buffer := buffer w; timers := timers w; nextTimerId := nextTimerId w;
     inFlight := S (inFlight w); dispatched := dispatched w ++ [r];
     callbacks := callbacks w |}.

(** A pending promise settles. *)
Definition settle (w : World) : World :=
  {| buffer := buffer w; timers := timers w; nextTimerId := nextTimerId w;
     inFlight := pred (inFlight w); dispatched := dispatched w;
     callbacks := callbacks w |}.

(** [new ChangeBuffer(documentId, onFlush, onConflict)] at time [now], in a
    fresh runtime. *)
Definition create (documentId : jsstring) (now : Z) : World :=
  {| buffer :=
       {| idleTimeoutId := None; maxWaitTimeoutId := None;
          documentId := documentId; lastSyncTime := now;
          hasRecentRemoteChanges := false; currentETag := None;
          isFlushInProgress := false; currentEditorContent := [];
          lastSavedContent := []; hasUnflushedChanges := false |};
     timers := []; nextTimerId := 1; inFlight := 0; dispatched := [];
     callbacks := [] |}.

Definition initializeContent (content : jsstring) (w : World) : World :=
  let w := assign (set_lastSavedContent content) w in
  assign (set_currentEditorContent content) w.

Definition setLastSavedContent (content : jsstring) (w : World) : World :=
  assign (set_lastSavedContent content) w.

Definition setETag (etag : jsstring) (w : World) : World :=
  assign (set_currentETag (Some etag)) w.

(** [addChange(_change, currentContent)] *)
Definition addChange (currentContent : jsstring) (w : World) : World :=
  let w := assign (set_currentEditorContent currentContent) w in
  let w := assign (set_hasUnflushedChanges true) w in
  if isFlushInProgress (buffer w) then w
  else
    let w := clearIfSet (idleTimeoutId (buffer w)) w in
    let w :=
      match maxWaitTimeoutId (buffer w) with
      | None =>
          let '(id, w) := setTimeout BATCH_CONFIG.maxWaitMs w in
          assign (set_maxWaitTimeoutId (Some id)) w
      | Some _ => w
      end in
    let '(id, w) := setTimeout BATCH_CONFIG.idleWaitMs w in
    assign (set_idleTimeoutId (Some id)) w.

(** [this.currentETag || undefined] *)
Definition etagOrUndefined (etag : option jsstring) : option jsstring :=
  match etag with
  | Some [] | None => None
  | Some e => Some e
  end.

(** The single change a flush builds. *)
Definition coalescedChange (b : Buffer) : Change :=
  {| operation := js "replace";
     range := {| start := 0; end_ := strlen (lastSavedContent b) |};
     text := currentEditorContent b;
     occurrence := OccUndefined; contextBefore := None;
     contextAfter := None |}.

(** The call [saveDocumentChanges(this.documentId, [change],
    this.currentETag || undefined)]. *)
Definition coalescedRequest (b : Buffer) : Request :=
  {| requestDocumentId := documentId b;
     requestChanges := [coalescedChange b];
     requestETag := etagOrUndefined (currentETag b) |}.

(** [flush()] up to its [await]: the timers are cleared and, when there
    are unflushed changes, the request is sent. *)
Definition flush (w : World) : World :=
  let w := clearIfSet (idleTimeoutId (buffer w)) w in
  let w := assign (set_idleTimeoutId None) w in
  let w := clearIfSet (maxWaitTimeoutId (buffer w)) w in
  let w := assign (set_maxWaitTimeoutId None) w in
  if negb (hasUnflushedChanges (buffer w)) then w
  else
    let request := coalescedRequest (buffer w) in
    let w := assign (set_isFlushInProgress true) w in
    let w := assign (set_hasUnflushedChanges false) w in
    send request w.

(** The rest of [flush()] when the promise resolves with a document whose
    etag and content are [etag] and [content], at time [now]. *)
Definition flushResolved (etag content : jsstring) (now : Z) (w : World)
    : World :=
  let w := settle w in
  let w := assign (set_currentETag (Some etag)) w in
  let w := assign (set_lastSavedContent content) w in
  let w := assign (set_lastSyncTime now) w in
  let w := assign (set_hasRecentRemoteChanges false) w in
  let w := call (OnFlush true (Some content)) w in
  let w :=
    if negb (bool_decide (currentEditorContent (buffer w) = content)) then
      let w := assign (set_hasUnflushedChanges true) w in
      let '(id, w) := setTimeout 100 w in
      assign (set_idleTimeoutId (Some id)) w
    else w in
  assign (set_isFlushInProgress false) w.

(** The rest of [flush()] when the promise rejects with an error whose
    message is [message]. *)
Definition flushRejected (message : jsstring) (w : World) : World :=
  let w := settle w in
  let w :=
    if includes message (js "409") then
      let w := call OnConflict w in
      call (OnFlush false None) w
    else
      let w := assign (set_hasUnflushedChanges true) w in
      call (OnFlush false None) w in
  assign (set_isFlushInProgress false) w.

(** [forceFlush()] *)
Definition forceFlush (w : World) : World := flush w.

(** [destroy()] *)
Definition destroy (w : World) : World :=
  let w := clearIfSet (idleTimeoutId (buffer w)) w in
  clearIfSet (maxWaitTimeoutId (buffer w)) w.

(** What can happen to a buffer: the calls of its owner, a timer firing,
    and a pending request settling. *)
Inductive Event : Type :=
| AddChange (currentContent : jsstring)
| Flush
| ForceFlush
| TimerFires (id : nat)
| Resolved (etag content : jsstring) (now : Z)
| Rejected (message : jsstring).

(** A timer fires only while it is set; it then runs [flush()]. A request
    settles only while one is pending. *)
Definition step (w : World) (e : Event) : World :=
  match e with
  | AddChange currentContent => addChange currentContent w
  | Flush => flush w
  | ForceFlush => forceFlush w
  | TimerFires id =>
      if bool_decide (id ∈ (fst <$> timers w))
      then flush (clearTimeout id w)
      else w
  | Resolved etag content now =>
      if (inFlight w =? 0)%nat then w else flushResolved etag content now w
  | Rejected message =>
      if (inFlight w =? 0)%nat then w else flushRejected message w
  end.

Definition run (w : World) (events : list Event) : World :=
  foldl step w events.

(** The events that do not come from an explicit call of [flush()] or
    [forceFlush()]. *)
Definition timerDriven (e : Event) : Prop :=
  match e with
  | Flush | ForceFlush => False
  | _ => True
  end.

(** At most one request is pending, the in-progress flag says whether one
    is, every timer that is set is held in one of the two handles while no
    request is pending, and no timer is set while one is. *)
Definition serialized (w : World) : Prop :=
  (inFlight w = 0%nat /\ isFlushInProgress (buffer w) = false /\
   forall id, id ∈ (fst <$> timers w) ->
              idleTimeoutId (buffer w) = Some id \/
              maxWaitTimeoutId (buffer w) = Some id)
  \/
  (inFlight w = 1%nat /\ isFlushInProgress (buffer w) = true /\
   timers w = []).

(** A document "Hello" with etag "abc123" has just been opened. *)
Definition openDocument : World :=
  setETag (js "abc123") (initializeContent (js "Hello") (create (js "doc1") 0)).

(** The user types, the idle timer (identifier 2) fires and the save is
    sent; the user types again while it is pending and then leaves the
    page, which calls [forceFlush()]. *)
Definition leaveWhileSaving : list Event :=
  [AddChange (js "Hello w"); TimerFires 2;
   AddChange (js "Hello world"); ForceFlush].

End ChangeBuffer.



(** ** Batches of positional changes, read against the original text *)

Module Batch.
Import ApplyChanges.

(** What a positional change asks for: the slice [from, to) it takes out
    and the text it puts there. An insert takes nothing out and a delete
    puts nothing in. *)
Definition editOf (change : Change) : Z * Z * jsstring :=
  if bool_decide (operation change = js "insert") then
    (start (range change), start (range change), text change)
  else if bool_decide (operation change = js "delete") then
    (start (range change), end_ (range change), [])
  else
    (start (range change), end_ (range change), text change).

(** The edits lie inside the text, one after the other, from index [from]
    on: each starts where the one before ended or later. *)
Fixpoint ordered (from len : Z) (edits : list Change) : Prop :=
  match edits with
  | [] => from <= len
  | change :: rest =>
      let '(s, e, _) := editOf change in
      from <= s /\ s <= e /\ ordered e len rest
  end.

(** All the edits made at once on the original text, read from index
    [from]: the text between the edits is kept, each slice is replaced. *)
Fixpoint simultaneous (original : jsstring) (from : Z) (edits : list Change)
    : jsstring :=
  match edits with
  | [] => drop (Z.to_nat from) original
  | change :: rest =>
      let '(s, e, t) := editOf change in
      take (Z.to_nat (s - from)) (drop (Z.to_nat from) original) ++ t ++
      simultaneous original e rest
  end.


End Batch.


(** ** Building changes on the client (changeStrategy.ts, continued) *)

Module SmartChange.
Import ApplyChanges ChangeStrategy.

(** [s.slice(a, b)]: a negative index counts from the end of the string;
    the result is empty when the start is not before the end. *)
Definition sliceIndex (s : jsstring) (n : Z) : Z :=
  if n <? 0 then Z.max (strlen s + n) 0 else Z.min n (strlen s).

Definition slice (s : jsstring) (a b : Z) : jsstring :=
  let from := sliceIndex s a in
  let to := sliceIndex s b in
  take (Z.to_nat (Z.max (to - from) 0)) (drop (Z.to_nat from) s).

(** [s.slice(a)]: the end defaults to [s.length]. *)
Definition sliceFrom (s : jsstring) (a : Z) : jsstring :=
  slice s a (strlen s).

Definition extractContextBefore (content : jsstring) (position : Z)
    : jsstring :=
  let start := Z.max 0 (position - STRATEGY_CONFIG.CONTEXT_LENGTH) in
  let extracted := substring content start position in
  sliceFrom extracted (- STRATEGY_CONFIG.CONTEXT_TRIM_LENGTH).

Definition extractContextAfter (content : jsstring) (position : Z)
    : jsstring :=
  let end_ := Z.min (strlen content)
                (position + STRATEGY_CONFIG.CONTEXT_LENGTH) in
  let extracted := substring content position end_ in
  slice extracted 0 STRATEGY_CONFIG.CONTEXT_TRIM_LENGTH.

(** The loop of [findOccurrenceNumber]: [None] when [fuel] iterations were
    not enough for it to return. *)
Fixpoint findOccurrenceNumber_loop (fuel : nat) (content searchText : jsstring)
    (selectionStart position occurrenceNum : Z) : option Z :=
  match fuel with
  | O => None
  | S fuel' =>
      if position <=? selectionStart then
        let index := indexOf content searchText position in
        if index =? -1 then Some 1
        else
          let occurrenceNum := occurrenceNum + 1 in
          if index =? selectionStart then Some occurrenceNum
          else findOccurrenceNumber_loop fuel' content searchText
                 selectionStart (index + 1) occurrenceNum
      else Some 1
  end.

(** [findOccurrenceNumber(content, selection)], given [fuel] iterations. *)
Definition findOccurrenceNumber (fuel : nat) (content : jsstring)
    (selection : Range) : option Z :=
  let searchText := substring content (start selection) (end_ selection) in
  findOccurrenceNumber_loop fuel content searchText (start selection) 0 0.

(** [s || undefined] *)
Definition orUndefined (s : jsstring) : option jsstring :=
  match s with
  | [] => None
  | _ => Some s
  end.

(** [createSmartChange(operation, context, newText)]; [None] when the
    occurrence search did not return within [fuel] iterations. *)
Definition createSmartChange (fuel : nat) (operation : jsstring)
    (context : ChangeContext) (newText : jsstring) : option Change :=
  match determineChangeStrategy context with
  | ContentBased =>
      match findOccurrenceNumber fuel (documentContent context)
              (selection context) with
      | Some occurrenceNumber =>
          let contextBefore :=
            extractContextBefore (documentContent context)
              (start (selection context)) in
          let contextAfter :=
            extractContextAfter (documentContent context)
              (end_ (selection context)) in
          Some {| operation := operation;
                  range := selection context;
                  text := newText;
                  occurrence := OccNumber occurrenceNumber;
                  contextBefore := orUndefined contextBefore;
                  contextAfter := orUndefined contextAfter |}
      | None => None
      end
  | RangeBased =>
      Some {| operation := operation;
              range := selection context;
              text := newText;
              occurrence := OccUndefined;
              contextBefore := None;
              contextAfter := None |}
  end.

(** The [mode] argument of [createFindReplaceChange]. *)
Inductive Mode : Type :=
| First
| All
| Nth (n : Z).

(** The error [createFindReplaceChange] throws, with the text it names. *)
Inductive FindError : Type :=
| TextNotFound (searchText : jsstring).

Definition createFindReplaceChange (documentContent searchText
    replaceText : jsstring) (mode : Mode) : result FindError Change :=
  let firstIndex := indexOf documentContent searchText 0 in
  if firstIndex =? -1 then Throw (TextNotFound searchText)
  else
    let occurrence :=
      match mode with
      | All => -1
      | First => 1
      | Nth n => n
      end in
    Ok {| operation := js "replace";
          range := {| start := firstIndex;
                      end_ := firstIndex + strlen searchText |};
          text := replaceText;
          occurrence := OccNumber occurrence;
          contextBefore := None;
          contextAfter := None |}.

(** What [explainStrategy] returns, with the numbers it puts in the text. *)
Inductive Explanation : Type :=
| RemoteChangesDetected
| ChangesQueued (queueLength : Z)
| SecondsSinceLastSync (seconds : Z)
| TextAppears (times : Z)
| CollaborativeMode
| DirectPositionEdit.

(** [Math.round(n / 1000)] for an integer [n]. *)
Definition roundThousandth (n : Z) : Z := (n + 500) / 1000.

Definition explainStrategy (context : ChangeContext) : Explanation :=
  let strategy := determineChangeStrategy context in
  let selectedText := selectedText context in
  match strategy with
  | ContentBased =>
      if truthyFlag (hasRecentRemoteChanges context) then RemoteChangesDetected
      else if atLeast (queueLength context)
                STRATEGY_CONFIG.QUEUE_LENGTH_THRESHOLD
      then ChangesQueued (default 0 (queueLength context))
      else if atLeast (timeSinceLastSync context)
                STRATEGY_CONFIG.STALE_POSITION_THRESHOLD_MS
      then SecondsSinceLastSync
             (roundThousandth (default 0 (timeSinceLastSync context)))
      else
        let occurrenceCount :=
          countOccurrences (documentContent context) selectedText in
        if 1 <? occurrenceCount then TextAppears occurrenceCount
        else if truthyFlag (isCollaborative context) then CollaborativeMode
        else DirectPositionEdit
  | RangeBased => DirectPositionEdit
  end.

(** In "ab cb ab" the second "ab" is selected; the document is edited
    collaboratively. *)
Definition secondOccurrence : ChangeContext :=
  {| documentContent := js "ab cb ab";
     selection := {| start := 6; end_ := 8 |};
     isCollaborative := Some true; hasRecentRemoteChanges := None;
     queueLength := None; timeSinceLastSync := None |}.

End SmartChange.

(** ** The document service as a sequence of calls *)

Module ServiceCalls.
Import ApplyChanges Validation DocumentService.

(** [prisma.documentVersion.findUnique({ where: { documentId_version:
    { documentId, version } } })]: the row with that key. *)
Definition findUniqueVersion (id : jsstring) (version : Z) (st : Store)
    : option DocumentVersion :=
  head (filter (fun v => snapshotDocumentId v = id /\
                         snapshotVersion v = version) (versions st)).

(** The error of the lookup: an [AppError] with status 404 and the
    message 'Document version not found'. *)
Inductive QueryMessage : Type :=
| DocumentVersionNotFound.

Record QueryError : Type := { queryStatus : Z; queryMessage : QueryMessage }.

(** [getDocumentVersion(id, version)]. It reads only, and the error its
    body throws is an [AppError], which [withErrorHandling] passes on. *)
Definition getDocumentVersion (id : jsstring) (version : Z) (st : Store)
    : result QueryError DocumentVersion :=
  match findUniqueVersion id version st with
  | None => Throw {| queryStatus := 404;
                     queryMessage := DocumentVersionNotFound |}
  | Some documentVersion => Ok documentVersion
  end.

(** A call of one of the three service functions that write, with its
    arguments and the time at which it runs. *)
Inductive Call : Type :=
| Patch (id : jsstring) (changes : list Change) (expectedVersion : option Z)
    (expectedETag : option jsstring) (now : Z)
| Put (id : jsstring) (dataContent : option jsstring)
    (expectedVersion : option Z) (expectedETag : option jsstring) (now : Z)
| Publish (id : jsstring) (now : Z).

Definition target (call : Call) : jsstring :=
  match call with
  | Patch id _ _ _ _ | Put id _ _ _ _ | Publish id _ => id
  end.

Definition publishes (call : Call) : bool :=
  match call with
  | Publish _ _ => true
  | _ => false
  end.

Section Calls.

Variable generateETag : jsstring -> Z -> Z -> jsstring.

Definition serve (call : Call) : M Document :=
  match call with
  | Patch id changes expectedVersion expectedETag now =>
      applyChangesToDocument generateETag id changes expectedVersion
        expectedETag now
  | Put id dataContent expectedVersion expectedETag now =>
      updateDocument generateETag id dataContent expectedVersion
        expectedETag now
  | Publish id now => publishDocument generateETag id now
  end.

(** The store after the calls were served one after the other, whatever
    each of them returned. *)
Definition serveAll (calls : list Call) (st : Store) : Store :=
  foldl (fun st call => fst (serve call st)) st calls.

End Calls.

Definition notFound : Thrown :=
  ThrownApp {| statusCode := 404; message := DocumentNotFound |}.

(** What a call can do to the store and what it can throw. *)
Inductive outcome (call : Call) (st : Store)
    : Store * result Thrown Document -> Prop :=
| Refused code message :
    code = 400 \/ code = 404 \/ code = 409 \/ code = 500 ->
    outcome call st
      (st, Throw (ThrownApp {| statusCode := code; message := message |}))
| Served doc d rows snapshots :
    documents st !! target call = Some doc ->
    id d = id doc ->
    (publishes call = false /\ snapshots = [] /\ version d = version doc \/
     exists now,
       call = Publish (target call) now /\
       unpublished st (target call) (version doc) /\
       snapshots = [{| snapshotDocumentId := target call;
                       snapshotVersion := version doc;
                       snapshotContent := content doc |}] /\
       version d = version doc + 1 /\ content d = content doc) ->
    outcome call st (written st (target call) d rows snapshots, Ok d).

(** In every document record the [id] column is the key it is stored
    under. *)
Definition keyed (st : Store) : Prop :=
  forall id d, documents st !! id = Some d -> DocumentService.id d = id.

End ServiceCalls.

(** ** From the buffer to the service and back (api/documents.ts,
       documentController.ts, errorHandler.ts) *)

From Stdlib Require Import DecimalString.

Module Api.
Import ApplyChanges Validation DocumentService ChangeBuffer.

(** An integer inside a template literal. *)
Definition decimal (n : Z) : jsstring :=
  js (NilZero.string_of_int (Z.to_int n)).

(** The message each [AppError] of the document service is created
    with. *)
Definition render (message : Message) : jsstring :=
  match message with
  | InvalidChangeFormat => js "Invalid change format"
  | DocumentNotFound => js "Document not found"
  | VersionConflict expected current =>
      js "Version conflict: expected " ++ decimal expected ++
      js ", current is " ++ decimal current
  | ETagMismatch =>
      js "ETag mismatch: the document has been modified by another request"
  | Failed what => js what
  end.

(** What the server answers: the document, or the object the error
    handler sends. *)
Record ErrorData : Type := { error : jsstring; code : Z }.

Inductive Json : Type :=
| DocumentJson (document : Document)
| ErrorJson (errorData : ErrorData).

Record Response : Type := {
  status : Z;
  statusText : jsstring;
  json : Json
}.

(** [response.ok] *)
Definition ok (response : Response) : bool :=
  (200 <=? status response) && (status response <=? 299).

(** The PATCH request as the controller reads it: [req.params.id], the
    three fields of [req.body] and the If-Match header. The [changes] of
    the body are an array. *)
Record PatchRequest : Type := {
  paramsId : jsstring;
  bodyChanges : list Change;
  bodyExpectedVersion : option Z;
  bodyExpectedETag : option jsstring;
  ifMatch : option jsstring
}.

(** [a || b] on strings that may be undefined *)
Definition orElse (a b : option jsstring) : option jsstring :=
  match a with
  | Some [] | None => b
  | Some _ => a
  end.

Section Server.

(** The digest, whether the server runs in production, the message of an
    error that is not an [AppError], and the reason phrase that goes with
    a status code are taken as given. *)
Variable generateETag : jsstring -> Z -> Z -> jsstring.
Variable production : bool.
Variable messageOf : Thrown -> jsstring.
Variable reason : Z -> jsstring.

(** [errorHandler(err, req, res, next)]: the status and the body sent. *)
Definition errorHandler (err : Thrown) : Response :=
  match err with
  | ThrownApp e =>
      {| status := statusCode e; statusText := reason (statusCode e);
         json := ErrorJson {| error := render (message e);
                              code := statusCode e |} |}
  | _ =>
      let message :=
        if production then js "Internal server error" else messageOf err in
      {| status := 500; statusText := reason 500;
         json := ErrorJson {| error := message; code := 500 |} |}
  end.

(** [documentController.applyChanges] under [asyncHandler], with the
    error handler behind it: the store after the request and the
    response. *)
Definition applyChangesRoute (req : PatchRequest) (now : Z) (st : Store)
    : Store * Response :=
  let etag := orElse (bodyExpectedETag req) (ifMatch req) in
  match applyChangesToDocument generateETag (paramsId req) (bodyChanges req)
          (bodyExpectedVersion req) etag now st with
  | (st', Ok document) =>
      (st', {| status := 200; statusText := reason 200;
               json := DocumentJson document |})
  | (st', Throw err) => (st', errorHandler err)
  end.

(** [handleApiError(response, ...)]: the message of the [Error] it
    throws. The body of a response of this server parses as JSON. *)
Definition handleApiError (response : Response) : jsstring :=
  let errorMessage :=
    js "HTTP " ++ decimal (status response) ++ js " " ++
    statusText response in
  match json response with
  | ErrorJson errorData =>
      match error errorData with
      | [] => errorMessage
      | _ => error errorData
      end
  | DocumentJson _ => errorMessage
  end.

(** [saveDocumentChanges(documentId, changes, etag)] up to its [fetch]:
    the request that leaves. *)
Definition saveDocumentChanges (request : Request) : PatchRequest :=
  {| paramsId := requestDocumentId request;
     bodyChanges := requestChanges request;
     bodyExpectedVersion := None;
     bodyExpectedETag := None;
     ifMatch := etagOrUndefined (requestETag request) |}.

(** The rest of [saveDocumentChanges]: how its promise settles for a
    response, as the event the buffer sees at time [now]. A response that
    is [ok] is read as the document; [None] when it does not carry one,
    which this server never sends. *)
Definition settles (response : Response) (now : Z) : option Event :=
  if ok response then
    match json response with
    | DocumentJson document =>
        Some (Resolved (etag document) (content document) now)
    | ErrorJson _ => None
    end
  else Some (Rejected (handleApiError response)).

(** One round trip: the server answers the request of the buffer at time
    [served], and the buffer sees the answer at time [now]. *)
Definition roundTrip (request : Request) (served now : Z)
    (st : Store) (w : World) : option (Store * World) :=
  let '(st', response) :=
    applyChangesRoute (saveDocumentChanges request) served st in
  match settles response now with
  | Some event => Some (st', step w event)
  | None => None
  end.

End Server.

(** The buffer is idle and holds what the server holds: same content, and
    the etag of the document or none to send. *)
Definition synced (st : Store) (w : World) : Prop :=
  exists doc,
    documents st !! documentId (buffer w) = Some doc /\
    lastSavedContent (buffer w) = content doc /\
    currentEditorContent (buffer w) = content doc /\
    (currentETag (buffer w) = Some (etag doc) \/
     etagOrUndefined (currentETag (buffer w)) = None) /\
    hasUnflushedChanges (buffer w) = false /\
    isFlushInProgress (buffer w) = false /\
    idleTimeoutId (buffer w) = None /\
    maxWaitTimeoutId (buffer w) = None /\
    timers w = [] /\
    inFlight w = 0%nat.

(** Stand-ins for closed examples: the reason phrases, and the message of
    errors that are not [AppError]s. *)
Definition exampleReason (status : Z) : jsstring :=
  if status =? 200 then js "OK"
  else if status =? 409 then js "Conflict"
  else js "Error".

Definition exampleMessageOf (err : Thrown) : jsstring := js "unexpected".

(** The document "Hello" of [openDocument] as the server holds it. *)
Definition openedDocument : Document :=
  {| id := js "doc1"; content := js "Hello"; version := 1;
     etag := js "abc123" |}.

Definition openedStore : Store :=
  {| documents := {[ js "doc1" := openedDocument ]};
     versions := []; changes := [] |}.

(** A save of "Hello w" that carries an etag the document no longer
    has. *)
Definition staleRequest : Request :=
  {| requestDocumentId := js "doc1";
     requestChanges := [positional (js "replace") 0 5 (js "Hello w")];
     requestETag := Some (js "stale") |}.

End Api.

(** ** Detecting the edit between two texts (diffDetection.ts) *)

Module DiffDetection.
Import ApplyChanges.

(** The three operations of a fast-diff script: [fastDiff.DELETE],
    [fastDiff.EQUAL] and [fastDiff.INSERT]. *)
Inductive DiffOp : Type :=
| DELETE
| EQUAL
| INSERT.

Definition Diff : Type := DiffOp * jsstring.


Section Diff.

(** The fast-diff library is taken as given. *)
Variable fastDiff : jsstring -> jsstring -> list Diff.


End Diff.


Fixpoint target (diffs : list Diff) : jsstring :=
  match diffs with
  | [] => []
  | (DELETE, _) :: rest => target rest
  | (_, text) :: rest => text ++ target rest
  end.



End DiffDetection.

(** ** The two timers of the buffer *)

Module BufferTimers.
Import ChangeBuffer.

(** The state of the buffer while the user is typing and nothing is being
    saved: the max-wait timer [maxWait] and one idle timer are set, and
    no other timer. *)
Definition typing (maxWait : nat) (w : World) : Prop :=
  isFlushInProgress (buffer w) = false /\
  hasUnflushedChanges (buffer w) = true /\
  maxWaitTimeoutId (buffer w) = Some maxWait /\
  exists idle,
    idleTimeoutId (buffer w) = Some idle /\
    timers w = [(maxWait, BATCH_CONFIG.maxWaitMs);
                (idle, BATCH_CONFIG.idleWaitMs)] /\
    (maxWait < idle)%nat /\ (idle < nextTimerId w)%nat.

(** No save is pending and no timer is set or held. *)
Definition idle (w : World) : Prop :=
  isFlushInProgress (buffer w) = false /\
  idleTimeoutId (buffer w) = None /\
  maxWaitTimeoutId (buffer w) = None /\
  timers w = [].

End BufferTimers.

(** * Properties *)

(** ** Facts about the string primitives *)

Module JsStringFacts.

Lemma strlen_nonneg s : 0 <= strlen s.
Proof. unfold strlen. lia. Qed.

Lemma strlen_app s t : strlen (s ++ t) = strlen s + strlen t.
Proof. unfold strlen. rewrite length_app. lia. Qed.

Lemma clampIndex_range s n : 0 <= clampIndex s n <= strlen s.
Proof. unfold clampIndex. pose proof (strlen_nonneg s). lia. Qed.

Lemma clampIndex_id s n : 0 <= n <= strlen s -> clampIndex s n = n.
Proof. unfold clampIndex. lia. Qed.

Lemma clampIndex_neg s n : n <= 0 -> clampIndex s n = 0.
Proof. unfold clampIndex. pose proof (strlen_nonneg s). lia. Qed.

Lemma clampIndex_beyond s n : strlen s <= n -> clampIndex s n = strlen s.
Proof. unfold clampIndex. pose proof (strlen_nonneg s). lia. Qed.

(** Within bounds and in order, [substring] is the half-open slice. *)
Lemma substring_slice s a b :
  0 <= a <= b -> b <= strlen s ->
  substring s a b = take (Z.to_nat (b - a)) (drop (Z.to_nat a) s).
Proof.
  intros Ha Hb. unfold substring.
  rewrite !clampIndex_id by lia.
  rewrite Z.min_l, Z.max_r by lia. reflexivity.
Qed.

Lemma substring_0 s n :
  substring s 0 n = take (Z.to_nat (clampIndex s n)) s.
Proof.
  unfold substring. pose proof (clampIndex_range s n).
  rewrite (clampIndex_id s 0) by (pose proof (strlen_nonneg s); lia).
  rewrite Z.min_l, Z.max_r by lia.
  rewrite Z.sub_0_r. reflexivity.
Qed.

Lemma substringFrom_drop s a :
  substringFrom s a = drop (Z.to_nat (clampIndex s a)) s.
Proof.
  unfold substringFrom, substring. pose proof (clampIndex_range s a).
  rewrite (clampIndex_beyond s (strlen s)) by lia.
  rewrite Z.min_l, Z.max_r by lia.
  apply take_ge. rewrite length_drop. unfold strlen in *. lia.
Qed.

Lemma substring_length s a b :
  0 <= a <= b -> b <= strlen s -> strlen (substring s a b) = b - a.
Proof.
  intros Ha Hb. rewrite substring_slice by lia.
  unfold strlen in *. rewrite length_take, length_drop. lia.
Qed.

Lemma startsWith_prefix s p : startsWith s p = true <-> p `prefix_of` s.
Proof.
  unfold startsWith. destruct (Nat.ltb_spec (length s) (length p)) as [Hlt|Hle].
  - split; [discriminate|]. intros H%prefix_length. lia.
  - rewrite bool_decide_eq_true. split.
    + intros <-. apply prefix_take.
    + intros [k ->]. by rewrite take_app_length.
Qed.

Lemma endsWith_suffix s p : endsWith s p = true <-> p `suffix_of` s.
Proof.
  unfold endsWith. destruct (Nat.ltb_spec (length s) (length p)) as [Hlt|Hle].
  - split; [discriminate|]. intros H%suffix_length. lia.
  - rewrite bool_decide_eq_true. split.
    + intros <-. apply suffix_drop.
    + intros [k ->]. rewrite length_app.
      replace (length k + length p - length p)%nat with (length k) by lia.
      by rewrite drop_app_length.
Qed.

(** [indexOfFrom] returns the least offset at which the pattern is a
    prefix of the remaining text. *)
Lemma indexOfFrom_Some pat s k j :
  indexOfFrom pat s k = Some j ->
  (k <= j <= k + length s)%nat /\
  pat `prefix_of` drop (j - k) s /\
  forall i, (k <= i < j)%nat -> ~ pat `prefix_of` drop (i - k) s.
Proof.
  revert k. induction s as [|c s IH]; intros k; simpl.
  - destruct (startsWith [] pat) eqn:E; [|discriminate].
    intros [= <-]. apply startsWith_prefix in E.
    rewrite Nat.sub_diag. simpl. repeat split; try lia; auto.
  - destruct (startsWith (c :: s) pat) eqn:E.
    + intros [= <-]. apply startsWith_prefix in E.
      rewrite Nat.sub_diag. simpl. repeat split; try lia; auto.
    + intros H. apply IH in H as (Hr & Hp & Hmin).
      replace (j - k)%nat with (S (j - S k)) by lia. simpl.
      repeat split; try lia; auto.
      intros i Hi. destruct (decide (i = k)) as [->|Hne].
      * rewrite Nat.sub_diag. simpl. rewrite <- startsWith_prefix.
        by rewrite E.
      * replace (i - k)%nat with (S (i - S k)) by lia. simpl.
        apply Hmin. lia.
Qed.

Lemma indexOfFrom_None pat s k :
  indexOfFrom pat s k = None ->
  forall i, (i <= length s)%nat -> ~ pat `prefix_of` drop i s.
Proof.
  revert k. induction s as [|c s IH]; intros k; simpl.
  - destruct (startsWith [] pat) eqn:E; [discriminate|].
    intros _ i Hi. replace i with 0%nat by lia. simpl.
    rewrite <- startsWith_prefix. by rewrite E.
  - destruct (startsWith (c :: s) pat) eqn:E; [discriminate|].
    intros H i Hi. destruct i as [|i]; simpl.
    + rewrite <- startsWith_prefix. by rewrite E.
    + eapply IH; eauto. lia.
Qed.

End JsStringFacts.

Module ApplyChangesFacts.
Import ApplyChanges JsStringFacts.

Lemma indexOf_spec content pat pos :
  0 <= pos <= strlen content ->
  (indexOf content pat pos = -1 /\
   forall i, pos <= i <= strlen content ->
             ~ pat `prefix_of` drop (Z.to_nat i) content) \/
  (pos <= indexOf content pat pos <= strlen content /\
   pat `prefix_of` drop (Z.to_nat (indexOf content pat pos)) content /\
   forall i, pos <= i < indexOf content pat pos ->
             ~ pat `prefix_of` drop (Z.to_nat i) content).
Proof.
  intros Hpos. unfold indexOf. rewrite clampIndex_id by lia.
  destruct (indexOfFrom pat (drop (Z.to_nat pos) content) (Z.to_nat pos))
    as [j|] eqn:E.
  - right. apply indexOfFrom_Some in E as (Hr & Hp & Hmin).
    rewrite length_drop in Hr. unfold strlen in *.
    rewrite drop_drop in Hp.
    replace (Z.to_nat pos + (j - Z.to_nat pos))%nat with j in Hp by lia.
    rewrite Nat2Z.id. repeat split; try lia; auto.
    intros i Hi Hpre. apply (Hmin (Z.to_nat i)); [lia|].
    rewrite drop_drop.
    by replace (Z.to_nat pos + (Z.to_nat i - Z.to_nat pos))%nat
      with (Z.to_nat i) by lia.
  - left. split; [reflexivity|]. intros i Hi Hpre.
    apply (indexOfFrom_None _ _ _ E (Z.to_nat i - Z.to_nat pos)%nat).
    + rewrite length_drop. unfold strlen in *. lia.
    + rewrite drop_drop.
      by replace (Z.to_nat pos + (Z.to_nat i - Z.to_nat pos))%nat
        with (Z.to_nat i) by (unfold strlen in *; lia).
Qed.

(** A match found by a scan that started inside the text starts inside
    the text. *)
Lemma indexOf_inside content pat pos :
  0 <= pos < strlen content ->
  indexOf content pat pos <> -1 ->
  indexOf content pat pos < strlen content.
Proof.
  intros Hpos Hne.
  destruct (indexOf_spec content pat pos) as [[H _]|(Hr & Hp & Hmin)];
    [lia|congruence|].
  destruct pat as [|c pat].
  - destruct (decide (indexOf content [] pos = pos)) as [->|Hd]; [lia|].
    exfalso. apply (Hmin pos); [lia|]. apply prefix_nil.
  - destruct (decide (indexOf content (c :: pat) pos = strlen content))
      as [Heq|]; [|lia].
    exfalso. rewrite Heq in Hp. unfold strlen in Hp.
    rewrite Nat2Z.id, drop_all in Hp. by apply prefix_nil_not in Hp.
Qed.

Lemma contextBeforeFails_spec content i cb :
  0 <= i <= strlen content ->
  contextBeforeFails content i cb = false <->
  default [] cb `suffix_of` take (Z.to_nat i) content.
Proof.
  intros Hi. unfold contextBeforeFails.
  destruct cb as [[|c cb]|]; simpl;
    try (split; [intros _; apply suffix_nil|done]).
  rewrite negb_false_iff, endsWith_suffix.
  set (p := c :: cb). set (a := Z.max 0 (i - strlen p)).
  assert (Ha : 0 <= a <= i) by (unfold a, strlen; lia).
  rewrite substring_slice by lia.
  rewrite take_drop_commute.
  replace (Z.to_nat a + Z.to_nat (i - a))%nat with (Z.to_nat i) by lia.
  split.
  - intros H. etrans; [exact H|]. apply suffix_drop.
  - intros [k Hk].
    assert (Hlen : length (take (Z.to_nat i) content) = Z.to_nat i)
      by (rewrite length_take; unfold strlen in *; lia).
    rewrite Hk in *. rewrite length_app in Hlen.
    assert (Z.to_nat a = length k) as -> by (unfold a, strlen; lia).
    by rewrite drop_app_length.
Qed.

Lemma contextAfterFails_spec content pat i ca :
  0 <= i <= strlen content ->
  pat `prefix_of` drop (Z.to_nat i) content ->
  contextAfterFails content pat i ca = false <->
  default [] ca `prefix_of` drop (Z.to_nat i + length pat) content.
Proof.
  intros Hi Hpat. unfold contextAfterFails.
  destruct ca as [[|c ca]|]; simpl;
    try (split; [intros _; apply prefix_nil|done]).
  rewrite negb_false_iff, startsWith_prefix.
  set (p := c :: ca).
  assert (Hin : i + strlen pat <= strlen content).
  { apply prefix_length in Hpat. rewrite length_drop in Hpat.
    unfold strlen in *. lia. }
  set (lo := i + strlen pat).
  set (hi := Z.min (strlen content) (lo + strlen p)).
  assert (Hlo : 0 <= lo <= hi) by (unfold hi, lo, strlen in *; lia).
  rewrite substring_slice by (unfold hi; lia).
  replace (Z.to_nat i + length pat)%nat with (Z.to_nat lo)
    by (unfold lo, strlen; lia).
  split.
  - intros H. etrans; [exact H|]. apply prefix_take.
  - intros [k Hk]. rewrite Hk.
    assert (Hlen : length (drop (Z.to_nat lo) content)
                   = (length content - Z.to_nat lo)%nat)
      by apply length_drop.
    rewrite Hk, length_app in Hlen.
    assert (Z.to_nat (hi - lo) = length p) as ->
      by (unfold hi, strlen in *; lia).
    by rewrite take_app_length.
Qed.

Lemma filter_none {A} (P : A -> Prop) `{!forall x, Decision (P x)} (l : list A) :
  Forall (fun x => ~ P x) l -> filter P l = [].
Proof.
  induction 1 as [|x l Hx _ IH]; [done|].
  by rewrite filter_cons_False.
Qed.

(** The loop collects, after what it already holds, the qualifying
    positions from [position] on, provided the fuel covers the rest of the
    text. *)
Lemma findOccurrences_loop_spec fuel content pat cb ca position acc :
  0 <= position ->
  (Z.to_nat (strlen content - position) <= fuel)%nat ->
  findOccurrences_loop fuel content pat cb ca position acc =
  acc ++ filter (qualifies content pat cb ca)
           (seqZ position (strlen content - position)).
Proof.
  revert position acc. induction fuel as [|fuel IH]; intros position acc Hp Hf.
  - simpl. rewrite seqZ_nil by lia. by rewrite app_nil_r.
  - simpl. destruct (Z.ltb_spec position (strlen content)) as [Hlt|Hge];
      [|rewrite seqZ_nil by lia; by rewrite app_nil_r].
    destruct (Z.eqb_spec (indexOf content pat position) (-1)) as [Hm|Hm].
    + (* no further match *)
      destruct (indexOf_spec content pat position) as [[_ Hno]|[Hr _]];
        [lia| |lia].
      rewrite filter_none; [by rewrite app_nil_r|].
      apply Forall_forall. intros i Hi%elem_of_seqZ (_ & Hpre & _).
      apply (Hno i); [lia|done].
    + pose proof (indexOf_inside content pat position ltac:(lia) Hm) as Hin.
      destruct (indexOf_spec content pat position)
        as [[He _]|(Hr & Hpre & Hmin)]; [lia|congruence|].
      set (j := indexOf content pat position) in *.
      assert (Hsplit : seqZ position (strlen content - position) =
                seqZ position (j - position) ++ j ::
                seqZ (j + 1) (strlen content - (j + 1))).
      { replace (strlen content - position)
          with ((j - position) + (strlen content - j)) by lia.
        rewrite seqZ_app by lia.
        replace (position + (j - position)) with j by lia.
        rewrite (seqZ_cons j) by lia.
        do 3 f_equal; lia. }
      rewrite Hsplit, filter_app, filter_cons.
      rewrite (filter_none _ (seqZ position (j - position))).
      2:{ apply Forall_forall. intros i Hi%elem_of_seqZ (_ & Hq & _).
          apply (Hmin i); [lia|done]. }
      simpl.
      pose proof (contextBeforeFails_spec content j cb ltac:(lia)) as Hb.
      pose proof (contextAfterFails_spec content pat j ca ltac:(lia) Hpre)
        as Ha.
      destruct (contextBeforeFails content j cb) eqn:Eb.
      { rewrite decide_False.
        - apply IH; lia.
        - intros (_ & _ & Hq & _). apply Hb in Hq. discriminate. }
      destruct (contextAfterFails content pat j ca) eqn:Ea.
      { rewrite decide_False.
        - apply IH; lia.
        - intros (_ & _ & _ & Hq). apply Ha in Hq. discriminate. }
      rewrite decide_True.
      * rewrite IH by lia. by rewrite <- app_assoc.
      * repeat split; try lia; auto; [by apply Hb|by apply Ha].
Qed.

Lemma findOccurrences_spec content pat cb ca :
  findOccurrences content pat cb ca =
  filter (qualifies content pat cb ca) (seqZ 0 (strlen content)).
Proof.
  unfold findOccurrences.
  rewrite findOccurrences_loop_spec by (unfold strlen; lia).
  by rewrite Z.sub_0_r.
Qed.

(** More fuel than the length of the text changes nothing: the loop has
    stopped by itself. *)
Lemma findOccurrences_fuel fuel content pat cb ca :
  (length content <= fuel)%nat ->
  findOccurrences_loop fuel content pat cb ca 0 [] =
  findOccurrences content pat cb ca.
Proof.
  intros Hf. rewrite findOccurrences_spec.
  rewrite findOccurrences_loop_spec by (unfold strlen; lia).
  by rewrite Z.sub_0_r.
Qed.

Lemma StronglySorted_filter_lt (P : Z -> Prop) `{!forall i, Decision (P i)} l :
  StronglySorted Z.lt l -> StronglySorted Z.lt (filter P l).
Proof.
  induction 1 as [|x l Hl IH Hx]; [constructor|].
  rewrite filter_cons. destruct (decide (P x)); [|done].
  constructor; [done|]. apply Forall_forall.
  intros y [_ Hy]%list_elem_of_filter. revert y Hy. by apply Forall_forall.
Qed.

Lemma StronglySorted_seqZ m n : StronglySorted Z.lt (seqZ m n).
Proof.
  destruct (Z.le_gt_cases n 0) as [Hn|Hn]; [rewrite seqZ_nil by lia; constructor|].
  rewrite <- (Z2Nat.id n) by lia. generalize (Z.to_nat n) as k.
  intros k. revert m. induction k as [|k IH]; intros m; [constructor|].
  rewrite seqZ_cons by lia. constructor.
  - replace (Z.pred (Z.of_nat (S k))) with (Z.of_nat k) by lia. apply IH.
  - apply Forall_forall. intros i Hi%elem_of_seqZ. lia.
Qed.

Lemma findOccurrences_sorted content pat cb ca :
  StronglySorted Z.lt (findOccurrences content pat cb ca).
Proof.
  rewrite findOccurrences_spec.
  apply StronglySorted_filter_lt, StronglySorted_seqZ.
Qed.

End ApplyChangesFacts.

Module ApplyChangesSpec.
Import ApplyChanges JsStringFacts ApplyChangesFacts.

Lemma length_zero_nil {A} (l : list A) : (length l =? 0)%nat = true <-> l = [].
Proof. destruct l; simpl; split; congruence. Qed.

Lemma StronglySorted_rev_gt l :
  StronglySorted Z.lt l -> StronglySorted Z.gt (rev l).
Proof.
  induction 1 as [|x l Hl IH Hx]; simpl; [constructor|].
  apply StronglySorted_app_2; [|done|repeat constructor].
  intros y z Hy Hz%list_elem_of_singleton. subst z.
  apply list_elem_of_In, in_rev, list_elem_of_In in Hy.
  rewrite Forall_forall in Hx. specialize (Hx _ Hy). lia.
Qed.

(** C1. In matching mode the pattern is the substring of the current text
    at the offset-adjusted range, the occurrences found are exactly the
    qualifying positions in ascending order, and, when occurrence is
    absent, null or -1, the operation is applied at each of them from the
    last to the first and the cumulative offset becomes 0. *)
Theorem matching_mode_all_occurrences content offset change :
  (occurrence change <> OccUndefined \/ contextBefore change <> None \/
   contextAfter change <> None) ->
  (occurrence change = OccUndefined \/ occurrence change = OccNull \/
   occurrence change = OccNumber (-1)) ->
  let searchText :=
    substring content (start (range change) + offset)
      (end_ (range change) + offset) in
  let occurrences :=
    findOccurrences content searchText
      (contextBefore change) (contextAfter change) in
  (0 <= start (range change) + offset <= end_ (range change) + offset ->
   end_ (range change) + offset <= strlen content ->
   searchText =
     take (Z.to_nat (end_ (range change) - start (range change)))
       (drop (Z.to_nat (start (range change) + offset)) content)) /\
  occurrences =
    filter (qualifies content searchText (contextBefore change)
              (contextAfter change))
      (seqZ 0 (strlen content)) /\
  StronglySorted Z.lt occurrences /\
  StronglySorted Z.gt (rev occurrences) /\
  applyChange (content, offset) change =
    match occurrences with
    | [] => Throw NoMatchingOccurrences
    | _ :: _ =>
        let* updated := applyAtEach content (operation change)
                          (rev occurrences) (strlen searchText)
                          (text change) in
        Ok (updated, 0)
    end.
Proof.
  intros Hmode Hall searchText occurrences.
  split; [|split; [|split; [|split]]].
  - intros H1 H2. unfold searchText. rewrite substring_slice by lia.
    do 2 f_equal. lia.
  - apply findOccurrences_spec.
  - apply findOccurrences_sorted.
  - apply StronglySorted_rev_gt, findOccurrences_sorted.
  - unfold applyChange.
    assert (usesMatching change = true) as ->.
    { unfold usesMatching.
      destruct (occurrence change), (contextBefore change),
        (contextAfter change); try reflexivity.
      destruct Hmode as [H | [H | H]]; congruence. }
    fold searchText. fold occurrences.
    destruct occurrences as [|o os] eqn:E; [reflexivity|].
    change (length (o :: os) =? 0)%nat with false. cbv iota.
    destruct Hall as [-> | [-> | ->]]; reflexivity.
Qed.


Lemma applyOperation_throws content op s e t err :
  applyOperation content op s e t = Throw err -> err = UnknownOperation op.
Proof.
  unfold applyOperation. repeat case_bool_decide; congruence.
Qed.

Lemma applyAtEach_throws content op occs len t err :
  applyAtEach content op occs len t = Throw err -> err = UnknownOperation op.
Proof.
  revert content. induction occs as [|o occs IH]; intros content; simpl;
    [discriminate|].
  destruct (applyOperation content op o (o + len) t) eqn:E; simpl.
  - apply IH.
  - intros [= <-]. by apply applyOperation_throws in E.
Qed.

Lemma applyChanges_loop_app st before rest :
  applyChanges_loop st (before ++ rest) =
  let* st1 := applyChanges_loop st before in applyChanges_loop st1 rest.
Proof.
  revert st. induction before as [|c before IH]; intros st; simpl; [done|].
  destruct (applyChange st c); simpl; [apply IH|done].
Qed.

(** C2. A change without occurrence and context fields is applied at the
    range shifted by the cumulative offset, and the offset grows by the
    change in length of the whole text; the three changes of the
    specification's example give "The slow lazy brown fo". *)
Theorem positional_mode_cumulative_offset :
  (forall content offset op s e t,
     applyChange (content, offset) (positional op s e t) =
     let* updated := applyOperation content op (s + offset) (e + offset) t in
     Ok (updated, offset + (strlen updated - strlen content))) /\
  applyChanges (js "The quick brown fox")
    [positional (js "replace") 4 9 (js "slow");
     positional (js "insert") 10 10 (js "lazy ");
     positional (js "delete") 18 19 (js "")]
  = Ok (js "The slow lazy brown fo").
Proof.
  split; [reflexivity|]. vm_compute. reflexivity.
Qed.

(** C3, as amended. In matching mode the change fails with the
    no-matching-occurrences error exactly when no position qualifies, and
    with the invalid-occurrence error exactly when some position qualifies
    and the supplied occurrence is a number other than -1 outside
    [1, count]; a failing change ends the run with that error, whatever
    changes follow. *)
Theorem matching_mode_failures st change :
  (occurrence change <> OccUndefined \/ contextBefore change <> None \/
   contextAfter change <> None) ->
  let count := qualifyingCount st change in
  (applyChange st change = Throw NoMatchingOccurrences <-> count = 0%nat) /\
  (failsInvalidOccurrence (applyChange st change) <->
   (0 < count)%nat /\ occurrenceOutOfRange change count) /\
  (forall content before rest err,
     applyChanges_loop (content, 0) before = Ok st ->
     applyChange st change = Throw err ->
     applyChanges content (before ++ change :: rest) = Throw err).
Proof.
  intros Hmode count. destruct st as [content offset].
  assert (Hm : usesMatching change = true).
  { unfold usesMatching.
    destruct (occurrence change), (contextBefore change),
      (contextAfter change); try reflexivity.
    destruct Hmode as [H | [H | H]]; congruence. }
  assert (Hrun : forall content0 before rest err,
     applyChanges_loop (content0, 0) before = Ok (content, offset) ->
     applyChange (content, offset) change = Throw err ->
     applyChanges content0 (before ++ change :: rest) = Throw err).
  { intros content0 before rest err Hbefore Herr.
    unfold applyChanges. rewrite applyChanges_loop_app, Hbefore.
    cbn [bind applyChanges_loop]. by rewrite Herr. }
  split; [|split; [|exact Hrun]]; clear Hrun.
  all: unfold applyChange; rewrite Hm.
  all: unfold qualifyingCount in count.
  all: set (searchText := substring content _ _) in *.
  all: set (occurrences := findOccurrences content searchText _ _) in *.
  all: fold count.
  - destruct (Nat.eqb_spec count 0) as [H0|H0]; [done|].
    split; [|done]. intros H. exfalso.
    destruct (occurrence change) as [| |n]; simpl in H.
    1,2: destruct (applyAtEach _ _ _ _ _) eqn:E; simpl in H; try discriminate;
      apply applyAtEach_throws in E; congruence.
    destruct (n =? -1).
    + destruct (applyAtEach _ _ _ _ _) eqn:E; simpl in H; try discriminate.
      apply applyAtEach_throws in E; congruence.
    + destruct ((0 <? n) && (n <=? Z.of_nat count)); [|discriminate].
      destruct (applyOperation _ _ _ _ _) eqn:E; simpl in H; try discriminate.
      apply applyOperation_throws in E; congruence.
  - unfold failsInvalidOccurrence, occurrenceOutOfRange.
    destruct (Nat.eqb_spec count 0) as [H0|H0].
    { split; [intros (n & k & H); discriminate|lia]. }
    destruct (occurrence change) as [| |n]; simpl.
    1,2: split; [|intros (_ & n & H & _); discriminate];
      intros (n & k & H); exfalso;
      destruct (applyAtEach _ _ _ _ _) eqn:E; simpl in H; try discriminate;
      apply applyAtEach_throws in E; congruence.
    destruct (Z.eqb_spec n (-1)) as [Hn|Hn].
    + split; [|intros (_ & n' & [= <-] & Hne & _); lia].
      intros (n' & k & H); exfalso.
      destruct (applyAtEach _ _ _ _ _) eqn:E; simpl in H; try discriminate.
      apply applyAtEach_throws in E; congruence.
    + destruct (Z.ltb_spec 0 n) as [Hp|Hp];
        destruct (Z.leb_spec n (Z.of_nat count)) as [Hq|Hq]; simpl.
      * split; [|intros (_ & n' & [= <-] & _ & Hr); lia].
        intros (n' & k & H); exfalso.
        destruct (applyOperation _ _ _ _ _) eqn:E; simpl in H;
          try discriminate.
        apply applyOperation_throws in E; congruence.
      * split; [intros _|eauto]. split; [lia|]. exists n. split; [done|]. lia.
      * split; [intros _|eauto]. split; [lia|]. exists n. split; [done|]. lia.
      * split; [intros _|eauto]. split; [lia|]. exists n. split; [done|]. lia.
Qed.

(** C3, counterexample to the claim as stated: with no qualifying position
    (the context "zzz" precedes no "a" of "abc") and occurrence 5, the
    occurrence is not between 1 and the number of qualifying positions,
    yet the error is the no-matching-occurrences one. *)
Lemma invalid_occurrence_counterexample :
  let st := (js "abc", 0) in
  let change :=
    {| operation := js "replace"; range := {| start := 0; end_ := 1 |};
       text := js "x"; occurrence := OccNumber 5;
       contextBefore := Some (js "zzz"); contextAfter := None |} in
  occurrenceOutOfRange change (qualifyingCount st change) /\
  applyChange st change = Throw NoMatchingOccurrences /\
  ~ failsInvalidOccurrence (applyChange st change).
Proof.
  cbv zeta. split; [|split].
  - exists 5. vm_compute. repeat split; try congruence.
    intros [_ H]. by apply H.
  - vm_compute. reflexivity.
  - intros (n & k & H). vm_compute in H. discriminate.
Qed.


Lemma applyOperation_valid content op s e t :
  validOperation op -> exists updated, applyOperation content op s e t = Ok updated.
Proof.
  unfold applyOperation. intros [-> | [-> | ->]]; eexists; reflexivity.
Qed.

Lemma applyChange_positional content offset change :
  positionalChange change ->
  applyChange (content, offset) change =
  let* updated := applyOperation content (operation change)
                    (start (range change) + offset)
                    (end_ (range change) + offset) (text change) in
  Ok (updated, offset + (strlen updated - strlen content)).
Proof.
  intros (Ho & Hb & Ha). unfold applyChange, usesMatching.
  by rewrite Ho, Hb, Ha.
Qed.

Lemma applyChanges_loop_total st changes :
  Forall (fun c => positionalChange c /\ validOperation (operation c)) changes ->
  exists st', applyChanges_loop st changes = Ok st'.
Proof.
  intros H. revert st. induction H as [|c changes [Hp Hv] _ IH]; intros st.
  - by exists st.
  - destruct st as [content offset]. cbn [applyChanges_loop].
    rewrite applyChange_positional by done.
    destruct (applyOperation_valid content (operation c)
                (start (range c) + offset) (end_ (range c) + offset)
                (text c) Hv) as [updated ->].
    cbn [bind]. apply IH.
Qed.

(** C10. Positional application never raises, whatever integers the range
    holds: out-of-range indices are clamped by the string primitives. An
    insert at or beyond the end appends, a delete whose end is at or beyond
    the end removes everything from the start index on, and a start below
    0 acts as 0. *)
Theorem positional_application_never_raises content changes :
  Forall (fun c => positionalChange c /\ validOperation (operation c)) changes ->
  (exists updated, applyChanges content changes = Ok updated) /\
  (forall offset c,
     positionalChange c -> validOperation (operation c) ->
     let s := start (range c) + offset in
     let e := end_ (range c) + offset in
     exists updated,
       applyChange (content, offset) c =
         Ok (updated, offset + (strlen updated - strlen content)) /\
       (operation c = js "insert" -> strlen content <= s ->
        updated = content ++ text c) /\
       (operation c = js "delete" -> strlen content <= e ->
        updated = take (Z.to_nat (clampIndex content s)) content) /\
       (s <= 0 ->
        applyOperation content (operation c) s e (text c) =
        applyOperation content (operation c) 0 e (text c))).
Proof.
  intros Hall. split.
  - destruct (applyChanges_loop_total (content, 0) changes Hall) as [st' H].
    exists (fst st'). unfold applyChanges. by rewrite H.
  - intros offset c Hp Hv s e.
    destruct (applyOperation_valid content (operation c) s e (text c) Hv)
      as [updated Hu].
    exists updated. rewrite applyChange_positional by done.
    fold s e. rewrite Hu. cbn [bind]. split; [done|]. split; [|split].
    + intros Hop Hs. rewrite Hop in Hu. unfold applyOperation in Hu.
      simpl in Hu. injection Hu as <-.
      rewrite substring_0, substringFrom_drop, clampIndex_beyond by lia.
      unfold strlen. rewrite Nat2Z.id, drop_all, take_ge by lia.
      by rewrite app_nil_r.
    + intros Hop He. rewrite Hop in Hu. unfold applyOperation in Hu.
      simpl in Hu. injection Hu as <-.
      rewrite substring_0, substringFrom_drop.
      rewrite (clampIndex_beyond content e) by lia.
      unfold strlen. rewrite Nat2Z.id, drop_all.
      by rewrite app_nil_r.
    + intros Hs. rewrite <- Hu. unfold applyOperation.
      rewrite !substring_0, !substringFrom_drop.
      by rewrite !(clampIndex_neg content s), !(clampIndex_neg content 0) by lia.
Qed.

Lemma matching_mode_all_occurrences_witness :
  (occurrence replaceAll <> OccUndefined \/ contextBefore replaceAll <> None \/
   contextAfter replaceAll <> None) /\
  (occurrence replaceAll = OccUndefined \/ occurrence replaceAll = OccNull \/
   occurrence replaceAll = OccNumber (-1)) /\
  findOccurrences (js "foo bar foo baz foo") (js "foo") None None = [0; 8; 16] /\
  applyChange (js "foo bar foo baz foo", 0) replaceAll =
    Ok (js "qux bar qux baz qux", 0).
Proof.
  assert (H1 : occurrence replaceAll <> OccUndefined \/
               contextBefore replaceAll <> None \/
               contextAfter replaceAll <> None) by (left; discriminate).
  assert (H2 : occurrence replaceAll = OccUndefined \/
               occurrence replaceAll = OccNull \/
               occurrence replaceAll = OccNumber (-1))
    by (right; right; reflexivity).
  destruct (matching_mode_all_occurrences (js "foo bar foo baz foo") 0
              replaceAll H1 H2) as (_ & Hocc & _ & _ & Happly).
  split; [exact H1|]. split; [exact H2|]. split.
  - vm_compute. reflexivity.
  - rewrite Happly. vm_compute. reflexivity.
Defined.

Lemma matching_mode_failures_witness :
  (occurrence replaceFourth <> OccUndefined \/
   contextBefore replaceFourth <> None \/
   contextAfter replaceFourth <> None) /\
  qualifyingCount (js "foo bar foo baz foo", 0) replaceFourth = 3%nat /\
  failsInvalidOccurrence
    (applyChange (js "foo bar foo baz foo", 0) replaceFourth).
Proof.
  assert (H1 : occurrence replaceFourth <> OccUndefined \/
               contextBefore replaceFourth <> None \/
               contextAfter replaceFourth <> None) by (left; discriminate).
  split; [exact H1|]. split; [vm_compute; reflexivity|].
  apply (proj1 (proj2 (matching_mode_failures
                         (js "foo bar foo baz foo", 0) replaceFourth H1))).
  split; [vm_compute; lia|].
  exists 4. split; [reflexivity|]. split; [lia|]. vm_compute.
  intros [_ H]. by apply H.
Defined.

Lemma positional_application_never_raises_witness :
  Forall (fun c => positionalChange c /\ validOperation (operation c))
    [positional (js "insert") 99 99 (js "!");
     positional (js "delete") (-5) 99 (js "")] /\
  applyChanges (js "Hello")
    [positional (js "insert") 99 99 (js "!");
     positional (js "delete") (-5) 99 (js "")] = Ok (js "").
Proof.
  assert (H : Forall (fun c => positionalChange c /\ validOperation (operation c))
                [positional (js "insert") 99 99 (js "!");
                 positional (js "delete") (-5) 99 (js "")]).
  { constructor; [split; [repeat split|right; left; reflexivity]|].
    constructor; [split; [repeat split|right; right; reflexivity]|].
    constructor. }
  split; [exact H|].
  destruct (positional_application_never_raises (js "Hello") _ H)
    as [[updated Hu] _].
  rewrite Hu. f_equal. vm_compute in Hu. by injection Hu as <-.
Defined.

End ApplyChangesSpec.

Module ValidationSpec.
Import ApplyChanges Validation.

Lemma get_operation c : get (toValue c) "operation" = VString (operation c).
Proof. reflexivity. Qed.

Lemma get_range_start c :
  get (get (toValue c) "range") "start" = VNumber (start (range c)).
Proof. reflexivity. Qed.

Lemma get_range_end c :
  get (get (toValue c) "range") "end" = VNumber (end_ (range c)).
Proof. reflexivity. Qed.

Lemma get_text c : get (toValue c) "text" = VString (text c).
Proof. reflexivity. Qed.

Lemma get_occurrence c :
  get (toValue c) "occurrence" =
  match occurrence c with
  | OccUndefined => VUndefined
  | OccNull => VNull
  | OccNumber n => VNumber n
  end.
Proof.
  destruct c as [op r t o cb ca].
  destruct o, cb, ca; reflexivity.
Qed.

Lemma get_contextBefore c :
  get (toValue c) "contextBefore" =
  match contextBefore c with
  | Some s => VString s
  | None => VUndefined
  end.
Proof.
  destruct c as [op r t o cb ca].
  destruct o, cb, ca; reflexivity.
Qed.

Lemma get_contextAfter c :
  get (toValue c) "contextAfter" =
  match contextAfter c with
  | Some s => VString s
  | None => VUndefined
  end.
Proof.
  destruct c as [op r t o cb ca].
  destruct o, cb, ca; reflexivity.
Qed.

Lemma isOperationTag_valid op :
  isOperationTag (VString op) = true <-> validOperation op.
Proof.
  unfold isOperationTag, validOperation.
  rewrite !orb_true_iff, !bool_decide_eq_true. tauto.
Qed.

(** What validation checks of a change: its operation tag and its
    occurrence. The range takes no part. *)
Lemma isValidChange_toValue c :
  isValidChange (toValue c) = true <->
  validOperation (operation c) /\ occurrenceAccepted (occurrence c).
Proof.
  unfold isValidChange.
  rewrite get_operation, get_range_start, get_range_end, get_text,
    get_occurrence, get_contextBefore, get_contextAfter.
  rewrite <- isOperationTag_valid.
  change (truthy (toValue c)) with true.
  change (typeof (toValue c)) with TObject.
  change (truthy (get (toValue c) "range")) with true.
  destruct (isOperationTag (VString (operation c))); simpl;
    [|split; [discriminate|intros [? _]; discriminate]].
  destruct (contextBefore c), (contextAfter c), (occurrence c) as [| |n];
    simpl; try (split; [done|by intros [_ []]]); try (split; done).
  all: destruct (Z.eqb_spec n (-1)), (Z.ltb_spec n 1); simpl;
    (split; [intros Hv; first [discriminate|split; [done|lia]]
            |intros [_ Hacc]; first [reflexivity|lia]]).
Qed.



End ValidationSpec.

Module DocumentServiceSpec.
Import ApplyChanges Validation DocumentService.

Lemma validateAll_valid changes st :
  Forall (fun c => isValidChange (toValue c) = true) changes ->
  validateAll changes st = (st, Ok tt).
Proof.
  induction 1 as [|c changes Hc _ IH]; simpl; [done|].
  by rewrite Hc.
Qed.

Lemma validateAll_invalid changes st :
  Exists (fun c => isValidChange (toValue c) = false) changes ->
  validateAll changes st =
  (st, Throw (ThrownApp {| statusCode := 400;
                           message := InvalidChangeFormat |})).
Proof.
  induction changes as [|c changes IH]; intros H; [by inversion H|].
  simpl. destruct (isValidChange (toValue c)) eqn:E; simpl; [|done].
  apply IH. inversion H; subst; [congruence|done].
Qed.

Lemma storeChanges_run id changes st :
  storeChanges id changes st =
  ({| documents := documents st; versions := versions st;
      changes := DocumentService.changes st ++ (changeRow id <$> changes) |},
   Ok tt).
Proof.
  revert st. induction changes as [|c changes IH]; intros st; simpl.
  - rewrite app_nil_r. by destruct st.
  - unfold mbind, createChange. rewrite IH. simpl.
    by rewrite <- app_assoc.
Qed.

Lemma checkVersion_run ev d st :
  checkVersion ev d st =
  match ev with
  | Some v =>
      if decide (v = version d) then (st, Ok tt)
      else (st, Throw (conflict (VersionConflict v (version d))))
  | None => (st, Ok tt)
  end.
Proof.
  unfold checkVersion. destruct ev as [v|]; [|done].
  destruct (Z.eqb_spec (version d) v), (decide (v = version d));
    simpl; first [reflexivity|congruence].
Qed.

Lemma checkETag_run ee d st :
  checkETag ee d st =
  match ee with
  | Some e =>
      if decide (e = etag d) then (st, Ok tt)
      else (st, Throw (conflict ETagMismatch))
  | None => (st, Ok tt)
  end.
Proof.
  unfold checkETag. destruct ee as [e|]; [|done].
  case_bool_decide; destruct (decide (e = etag d)); simpl;
    first [reflexivity|congruence].
Qed.

Section Service.
Variable generateETag : jsstring -> Z -> Z -> jsstring.

(** The outcome of a patch on an existing document whose changes pass
    validation, check by check. *)
Lemma applyChangesToDocument_run st id doc changes ev ee now :
  documents st !! id = Some doc ->
  Forall (fun c => isValidChange (toValue c) = true) changes ->
  applyChangesToDocument generateETag id changes ev ee now st =
  if decide (versionDiffers ev doc) then
    (st, Throw (conflict (VersionConflict (default 0 ev) (version doc))))
  else if decide (etagDiffers ee doc) then
    (st, Throw (conflict ETagMismatch))
  else
    match applyChanges (content doc) changes with
    | Throw _ => (st, Throw (failed "Failed to apply changes to document"))
    | Ok updatedContent =>
        let d := updated doc updatedContent (version doc)
                   (generateETag updatedContent (version doc) now) in
        (written st id d (changeRow id <$> changes) [], Ok d)
    end.
Proof.
  intros Hdoc Hvalid.
  unfold applyChangesToDocument, withErrorHandling, mbind, findUnique.
  rewrite validateAll_valid, Hdoc by done.
  rewrite checkVersion_run.
  destruct (decide (versionDiffers ev doc)) as [(v & -> & Hv)|Hv].
  { rewrite decide_False by done. reflexivity. }
  assert (Hv' : match ev with
                | Some v => if decide (v = version doc) then (st, Ok tt)
                            else (st, Throw (conflict (VersionConflict v (version doc))))
                | None => (st, Ok tt)
                end = (st, @Ok Thrown unit tt)).
  { destruct ev as [v|]; [|done]. destruct (decide (v = version doc)); [done|].
    exfalso. apply Hv. by exists v. }
  rewrite Hv'. rewrite checkETag_run.
  destruct (decide (etagDiffers ee doc)) as [(e & -> & He)|He].
  { rewrite decide_False by done. reflexivity. }
  assert (He' : match ee with
                | Some e => if decide (e = etag doc) then (st, Ok tt)
                            else (st, Throw (conflict ETagMismatch))
                | None => (st, Ok tt)
                end = (st, @Ok Thrown unit tt)).
  { destruct ee as [e|]; [|done]. destruct (decide (e = etag doc)); [done|].
    exfalso. apply He. by exists e. }
  rewrite He'.
  destruct (applyChanges (content doc) changes) as [updatedContent|err];
    [|reflexivity].
  unfold transaction, mbind, update. rewrite storeChanges_run. simpl.
  rewrite Hdoc. unfold written. simpl. rewrite app_nil_r. reflexivity.
Qed.

Lemma updateDocument_run st id doc dataContent ev ee now :
  documents st !! id = Some doc ->
  updateDocument generateETag id dataContent ev ee now st =
  if decide (versionDiffers ev doc) then
    (st, Throw (conflict (VersionConflict (default 0 ev) (version doc))))
  else if decide (etagDiffers ee doc) then
    (st, Throw (conflict ETagMismatch))
  else
    let newContent := default (content doc) dataContent in
    let d := updated doc newContent (version doc)
               (generateETag newContent (version doc) now) in
    (written st id d [] [], Ok d).
Proof.
  intros Hdoc.
  unfold updateDocument, withErrorHandling, mbind, findUnique.
  rewrite Hdoc. rewrite checkVersion_run.
  destruct (decide (versionDiffers ev doc)) as [(v & -> & Hv)|Hv].
  { rewrite decide_False by done. reflexivity. }
  assert (Hv' : match ev with
                | Some v => if decide (v = version doc) then (st, Ok tt)
                            else (st, Throw (conflict (VersionConflict v (version doc))))
                | None => (st, Ok tt)
                end = (st, @Ok Thrown unit tt)).
  { destruct ev as [v|]; [|done]. destruct (decide (v = version doc)); [done|].
    exfalso. apply Hv. by exists v. }
  rewrite Hv'. rewrite checkETag_run.
  destruct (decide (etagDiffers ee doc)) as [(e & -> & He)|He].
  { rewrite decide_False by done. reflexivity. }
  assert (He' : match ee with
                | Some e => if decide (e = etag doc) then (st, Ok tt)
                            else (st, Throw (conflict ETagMismatch))
                | None => (st, Ok tt)
                end = (st, @Ok Thrown unit tt)).
  { destruct ee as [e|]; [|done]. destruct (decide (e = etag doc)); [done|].
    exfalso. apply He. by exists e. }
  rewrite He'. unfold update. rewrite Hdoc. unfold written. simpl.
  rewrite !app_nil_r. reflexivity.
Qed.

Lemma publishDocument_run st id doc now :
  documents st !! id = Some doc ->
  unpublished st id (version doc) ->
  let d := updated doc (content doc) (version doc + 1)
             (generateETag (content doc) (version doc + 1) now) in
  publishDocument generateETag id now st =
  (written st id d []
     [{| snapshotDocumentId := id; snapshotVersion := version doc;
         snapshotContent := content doc |}],
   Ok d).
Proof.
  intros Hdoc Hfree d.
  unfold publishDocument, withErrorHandling, mbind, findUnique.
  rewrite Hdoc. unfold transaction, mbind, createVersion.
  rewrite bool_decide_eq_false_2.
  2:{ intros Hex. apply Exists_exists in Hex as (v & Hv & Hsame).
      unfold unpublished in Hfree. rewrite Forall_forall in Hfree.
      by apply (Hfree v). }
  unfold update. simpl. rewrite Hdoc. unfold written. simpl.
  rewrite app_nil_r. reflexivity.
Qed.

Lemma applyChangesToDocument_Ok_valid st id changes ev ee now st' d :
  applyChangesToDocument generateETag id changes ev ee now st = (st', Ok d) ->
  Forall (fun c => isValidChange (toValue c) = true) changes.
Proof.
  intros H.
  destruct (decide (Forall (fun c => isValidChange (toValue c) = true) changes))
    as [|Hn]; [done|].
  apply not_Forall_Exists in Hn; [|apply _].
  assert (Hex : Exists (fun c => isValidChange (toValue c) = false) changes).
  { eapply Exists_impl; [exact Hn|]. simpl. intros c Hc.
    by destruct (isValidChange (toValue c)). }
  unfold applyChangesToDocument, withErrorHandling, mbind in H.
  rewrite (validateAll_invalid _ _ Hex) in H. discriminate.
Qed.

(** C4, as amended. On an existing document and with changes that pass
    validation, a supplied version that differs fails the request with the
    version conflict; a supplied etag that differs fails it with the etag
    mismatch once the version check has passed; the store is unchanged in
    both cases; a request succeeds only when neither differs; and with
    neither precondition supplied the outcome is that of the write alone.
    The full update does the same checks. *)
Theorem preconditions_checked_in_order st id doc changes dataContent ev ee now :
  documents st !! id = Some doc ->
  Forall (fun c => isValidChange (toValue c) = true) changes ->
  let patch := applyChangesToDocument generateETag id changes ev ee now st in
  let put := updateDocument generateETag id dataContent ev ee now st in
  (versionDiffers ev doc ->
   patch = (st, Throw (conflict (VersionConflict (default 0 ev) (version doc))))
   /\ put = (st, Throw (conflict (VersionConflict (default 0 ev) (version doc)))))
  /\
  (~ versionDiffers ev doc -> etagDiffers ee doc ->
   patch = (st, Throw (conflict ETagMismatch)) /\
   put = (st, Throw (conflict ETagMismatch)))
  /\
  (forall st' d, patch = (st', Ok d) \/ put = (st', Ok d) ->
   ~ versionDiffers ev doc /\ ~ etagDiffers ee doc)
  /\
  (ev = None -> ee = None ->
   put =
     (let newContent := default (content doc) dataContent in
      let d := updated doc newContent (version doc)
                 (generateETag newContent (version doc) now) in
      (written st id d [] [], Ok d)) /\
   patch =
     match applyChanges (content doc) changes with
     | Throw _ => (st, Throw (failed "Failed to apply changes to document"))
     | Ok updatedContent =>
         let d := updated doc updatedContent (version doc)
                    (generateETag updatedContent (version doc) now) in
         (written st id d (changeRow id <$> changes) [], Ok d)
     end).
Proof.
  intros Hdoc Hvalid patch put. unfold patch, put.
  rewrite (applyChangesToDocument_run _ _ _ _ _ _ _ Hdoc Hvalid).
  rewrite (updateDocument_run _ _ _ _ _ _ _ Hdoc).
  split; [|split; [|split]].
  - intros Hv. by rewrite !decide_True by done.
  - intros Hv He. rewrite !(decide_False (P := versionDiffers ev doc)) by done.
    by rewrite !decide_True by done.
  - intros st' d H.
    destruct (decide (versionDiffers ev doc));
      [destruct H as [H|H]; discriminate|].
    destruct (decide (etagDiffers ee doc));
      [destruct H as [H|H]; discriminate|done].
  - intros -> ->.
    rewrite !(decide_False (P := versionDiffers None doc))
      by (intros (? & ? & ?); discriminate).
    rewrite !(decide_False (P := etagDiffers None doc))
      by (intros (? & ? & ?); discriminate).
    done.
Qed.

(** C5. Publishing an existing document stores exactly one snapshot, with
    the version and content the document had, and leaves the document with
    the same content, the version increased by one and the etag computed
    for the new version. A patch or a full update that succeeds leaves the
    version as it was, computes the etag for that unchanged version and
    stores no snapshot. *)
Theorem publish_alone_increments_version st id doc now :
  documents st !! id = Some doc ->
  unpublished st id (version doc) ->
  (let d := updated doc (content doc) (version doc + 1)
              (generateETag (content doc) (version doc + 1) now) in
   publishDocument generateETag id now st =
   ({| documents := <[id := d]> (documents st);
       versions := versions st ++
         [{| snapshotDocumentId := id; snapshotVersion := version doc;
             snapshotContent := content doc |}];
       changes := DocumentService.changes st |},
    Ok d)) /\
  (forall changes dataContent ev ee n st' d,
     applyChangesToDocument generateETag id changes ev ee n st = (st', Ok d) \/
     updateDocument generateETag id dataContent ev ee n st = (st', Ok d) ->
     version d = version doc /\
     etag d = generateETag (content d) (version doc) n /\
     documents st' = <[id := d]> (documents st) /\
     versions st' = versions st).
Proof.
  intros Hdoc Hfree. split.
  - cbv zeta. rewrite (publishDocument_run _ _ _ _ Hdoc Hfree).
    unfold written. simpl. by rewrite app_nil_r.
  - intros changes dataContent ev ee n st' d [H|H].
    + pose proof (applyChangesToDocument_Ok_valid _ _ _ _ _ _ _ _ H) as Hvalid.
      rewrite (applyChangesToDocument_run _ _ _ _ _ _ _ Hdoc Hvalid) in H.
      repeat case_decide; try discriminate.
      destruct (applyChanges (content doc) changes); [|discriminate].
      injection H as <- <-. simpl. by rewrite app_nil_r.
    + rewrite (updateDocument_run _ _ _ _ _ _ _ Hdoc) in H.
      repeat case_decide; try discriminate.
      injection H as <- <-. simpl. by rewrite app_nil_r.
Qed.

(** In a store where every snapshot lies below its document's working
    version, the working version of a document has no snapshot yet, so
    publishing cannot hit the unique key. *)
Lemma snapshotsBelow_unpublished st id doc :
  snapshotsBelow st -> documents st !! id = Some doc ->
  unpublished st id (version doc).
Proof.
  intros Hinv Hdoc. apply Forall_forall. intros v Hv [Hid Hn].
  specialize (Hinv v doc Hv). rewrite Hid in Hinv.
  specialize (Hinv Hdoc). lia.
Qed.

Lemma snapshotsBelow_publish st id now st' d :
  snapshotsBelow st ->
  publishDocument generateETag id now st = (st', Ok d) ->
  snapshotsBelow st'.
Proof.
  intros Hinv H.
  destruct (documents st !! id) as [doc|] eqn:Hdoc.
  2:{ unfold publishDocument, withErrorHandling, mbind, findUnique in H.
      rewrite Hdoc in H. discriminate. }
  rewrite (publishDocument_run _ _ _ _ Hdoc
             (snapshotsBelow_unpublished _ _ _ Hinv Hdoc)) in H.
  injection H as <- <-. intros v d' Hv Hd'. simpl in *.
  apply elem_of_app in Hv as [Hv|Hv%list_elem_of_singleton].
  - destruct (decide (id = snapshotDocumentId v)) as [->|Hne].
    + rewrite lookup_insert_eq in Hd'. injection Hd' as <-. simpl.
      specialize (Hinv v doc Hv Hdoc). lia.
    + rewrite lookup_insert_ne in Hd' by done. by apply Hinv.
  - subst v. simpl in *. rewrite lookup_insert_eq in Hd'.
    injection Hd' as <-. simpl. lia.
Qed.

End Service.

(** C4, counterexample to the claim as stated. On the example document
    (version 1, etag "abc123"): a request whose etag differs fails with
    the version conflict, not the etag mismatch, when its version differs
    as well; and a request whose version differs fails with the format
    error, not the version conflict, when one of its changes is malformed. *)
Lemma etag_mismatch_counterexample :
  let stale :=
    applyChangesToDocument exampleETag (js "doc1") []
      (Some 0) (Some (js "stale")) 5 exampleStore in
  let malformed :=
    applyChangesToDocument exampleETag (js "doc1")
      [positional (js "move") 0 0 (js "")] (Some 0) None 5 exampleStore in
  etagDiffers (Some (js "stale")) exampleDocument /\
  stale.2 = Throw (conflict (VersionConflict 0 1)) /\
  stale.2 <> Throw (conflict ETagMismatch) /\
  versionDiffers (Some 0) exampleDocument /\
  malformed.2 = Throw (ThrownApp {| statusCode := 400;
                                    message := InvalidChangeFormat |}) /\
  malformed.2 <> Throw (conflict (VersionConflict 0 1)).
Proof.
  cbv zeta.
  assert (Hdoc : documents exampleStore !! js "doc1" = Some exampleDocument)
    by apply lookup_singleton_eq.
  rewrite (applyChangesToDocument_run exampleETag _ _ _ [] _ _ _ Hdoc)
    by constructor.
  unfold applyChangesToDocument, withErrorHandling, mbind.
  rewrite validateAll_invalid by (constructor; vm_compute; reflexivity).
  rewrite decide_True by (exists 0; split; [reflexivity|discriminate]).
  simpl. repeat split; try discriminate.
  - exists (js "stale"). split; [reflexivity|discriminate].
  - exists 0. split; [reflexivity|discriminate].
Qed.


Lemma preconditions_checked_in_order_witness :
  documents exampleStore !! js "doc1" = Some exampleDocument /\
  Forall (fun c => isValidChange (toValue c) = true)
    [positional (js "insert") 0 0 (js "x")] /\
  versionDiffers (Some 0) exampleDocument /\
  applyChangesToDocument exampleETag (js "doc1")
    [positional (js "insert") 0 0 (js "x")] (Some 0) None 5 exampleStore =
  (exampleStore, Throw (conflict (VersionConflict 0 1))).
Proof.
  assert (H1 : documents exampleStore !! js "doc1" = Some exampleDocument)
    by (vm_compute; reflexivity).
  assert (H2 : Forall (fun c => isValidChange (toValue c) = true)
                 [positional (js "insert") 0 0 (js "x")])
    by (repeat constructor).
  assert (H3 : versionDiffers (Some 0) exampleDocument)
    by (exists 0; split; [reflexivity|discriminate]).
  split; [exact H1|]. split; [exact H2|]. split; [exact H3|].
  exact (proj1 (proj1 (preconditions_checked_in_order exampleETag
                         exampleStore (js "doc1") exampleDocument
                         [positional (js "insert") 0 0 (js "x")] None
                         (Some 0) None 5 H1 H2) H3)).
Defined.

Lemma publish_alone_increments_version_witness :
  documents exampleStore !! js "doc1" = Some exampleDocument /\
  unpublished exampleStore (js "doc1") (version exampleDocument) /\
  (publishDocument exampleETag (js "doc1") 5 exampleStore).2 =
  Ok {| id := js "doc1"; content := js "Hello world"; version := 2;
        etag := js "Hello world:vv:ttttt" |}.
Proof.
  assert (H1 : documents exampleStore !! js "doc1" = Some exampleDocument)
    by (vm_compute; reflexivity).
  assert (H2 : unpublished exampleStore (js "doc1") (version exampleDocument)).
  { repeat constructor. simpl. intros [_ H]. discriminate. }
  split; [exact H1|]. split; [exact H2|].
  rewrite (proj1 (publish_alone_increments_version exampleETag exampleStore
                    (js "doc1") exampleDocument 5 H1 H2)).
  reflexivity.
Defined.

End DocumentServiceSpec.

Module ChangeStrategySpec.
Import ApplyChanges ChangeStrategy JsStringFacts ApplyChangesFacts.

Lemma strlen_zero s : (strlen s =? 0) = bool_decide (s = []).
Proof.
  unfold strlen. destruct s; [reflexivity|].
  rewrite bool_decide_eq_false_2 by discriminate.
  apply Z.eqb_neq. simpl. lia.
Qed.

Lemma truthyFlag_true b : truthyFlag b = bool_decide (b = Some true).
Proof. by destruct b as [[]|]. Qed.

(** [n && n >= threshold] is [n >= threshold] for a positive threshold. *)
Lemma atLeast_geq n threshold : 0 < threshold -> atLeast n threshold = geq n threshold.
Proof.
  intros Ht. unfold atLeast, geq, truthyNumber. destruct n as [n|]; [|done].
  simpl. destruct (Z.eqb_spec n 0) as [->|]; simpl; [|done].
  symmetry. apply Z.leb_gt. lia.
Qed.

(** The counting loop visits the positions the occurrence scan of
    [applyChanges] collects when no context is given. *)
Lemma countOccurrences_loop_findOccurrences fuel content pattern position count acc :
  countOccurrences_loop fuel content pattern position count =
  count +
  Z.of_nat (length (findOccurrences_loop fuel content pattern None None
                      position acc)) - Z.of_nat (length acc).
Proof.
  revert position count acc.
  induction fuel as [|fuel IH]; intros position count acc; simpl; [lia|].
  destruct (position <? strlen content); [|lia].
  destruct (indexOf content pattern position =? -1); [lia|].
  change (contextBeforeFails content _ None) with false.
  change (contextAfterFails content pattern _ None) with false.
  cbv iota. rewrite (IH _ _ (acc ++ [indexOf content pattern position])).
  rewrite length_app. simpl. lia.
Qed.

(** [countOccurrences] is the number of positions at which a non-empty
    pattern occurs, overlapping occurrences included. *)
Lemma countOccurrences_spec content pattern :
  pattern <> [] ->
  countOccurrences content pattern =
  Z.of_nat (length (filter (qualifies content pattern None None)
                      (seqZ 0 (strlen content)))).
Proof.
  intros Hne. unfold countOccurrences. rewrite strlen_zero.
  rewrite bool_decide_eq_false_2 by done.
  rewrite (countOccurrences_loop_findOccurrences _ _ _ _ _ []).
  fold (findOccurrences content pattern None None).
  rewrite findOccurrences_spec. simpl. lia.
Qed.

Lemma determineChangeStrategy_specSelect context :
  determineChangeStrategy context = specSelect context.
Proof.
  unfold determineChangeStrategy, specSelect, specRules, firstMatch.
  rewrite strlen_zero, !truthyFlag_true.
  rewrite !atLeast_geq by reflexivity.
  reflexivity.
Qed.

(** C7. The selector is the first-match evaluation of the ordered rules;
    an empty selected range gives the range-based strategy whatever the
    other fields are; and for a non-empty selection recent remote changes
    give the content-based strategy whatever the queue length, the time
    since the last sync, the multiplicity of the text and the
    collaborative flag are. *)
Theorem selector_first_match_wins context :
  determineChangeStrategy context = specSelect context /\
  (start (selection context) = end_ (selection context) ->
   determineChangeStrategy context = RangeBased) /\
  (selectedText context <> [] ->
   hasRecentRemoteChanges context = Some true ->
   determineChangeStrategy context = ContentBased) /\
  (0 <= start (selection context) <= strlen (documentContent context) ->
   0 <= end_ (selection context) <= strlen (documentContent context) ->
   start (selection context) <> end_ (selection context) ->
   selectedText context <> []).
Proof.
  split; [apply determineChangeStrategy_specSelect|].
  split; [|split].
  - intros Heq. unfold determineChangeStrategy.
    assert (selectedText context = []) as ->; [|reflexivity].
    unfold selectedText, substring. rewrite Heq.
    rewrite Z.min_id, Z.max_id, Z.sub_diag. apply take_0.
  - intros Hsel Hremote. unfold determineChangeStrategy.
    rewrite strlen_zero, bool_decide_eq_false_2 by done.
    by rewrite Hremote.
  - intros Hs He Hne Hnil.
    assert (Hlen : length (selectedText context) = 0%nat) by by rewrite Hnil.
    revert Hlen. unfold selectedText, substring.
    rewrite !clampIndex_id by done.
    rewrite length_take, length_drop. unfold strlen in *. lia.
Qed.

Lemma selector_first_match_wins_witness :
  selectedText remoteEdit <> [] /\
  hasRecentRemoteChanges remoteEdit = Some true /\
  determineChangeStrategy remoteEdit = ContentBased.
Proof.
  assert (H1 : selectedText remoteEdit <> []) by (vm_compute; discriminate).
  assert (H2 : hasRecentRemoteChanges remoteEdit = Some true) by reflexivity.
  split; [exact H1|]. split; [exact H2|].
  exact (proj1 (proj2 (proj2 (selector_first_match_wins remoteEdit))) H1 H2).
Defined.

End ChangeStrategySpec.

Module ChangeBufferSpec.
Import ApplyChanges ChangeBuffer.

(** Clearing timers and nulling the handles does not touch what a request
    is built from. *)
Lemma flush_dispatch w :
  hasUnflushedChanges (buffer w) = true ->
  dispatched (flush w) = dispatched w ++ [coalescedRequest (buffer w)] /\
  inFlight (flush w) = S (inFlight w) /\
  isFlushInProgress (buffer (flush w)) = true /\
  timers (flush w) =
    timers (clearIfSet (maxWaitTimeoutId (buffer w))
              (clearIfSet (idleTimeoutId (buffer w)) w)).
Proof.
  intros H. unfold flush.
  destruct w as [[idle maxw d l r e p c s u] ts n k ds cs]. simpl in *.
  subst u. destruct idle, maxw; simpl; repeat split.
Qed.

Lemma flush_nothing w :
  hasUnflushedChanges (buffer w) = false ->
  dispatched (flush w) = dispatched w /\ inFlight (flush w) = inFlight w.
Proof.
  intros H. unfold flush.
  destruct w as [[idle maxw d l r e p c s u] ts n k ds cs]. simpl in *.
  subst u. destruct idle, maxw; simpl; repeat split.
Qed.







Lemma flush_clears_timers w :
  (forall id, id ∈ (fst <$> timers w) ->
              idleTimeoutId (buffer w) = Some id \/
              maxWaitTimeoutId (buffer w) = Some id) ->
  timers (flush w) = [].
Proof.
  intros Hheld.
  assert (Hnone : forall ts : list (nat * Z),
            (forall t, t ∈ ts -> False) -> ts = []).
  { intros [|t ts] Hts; [done|]. exfalso. apply (Hts t). left. }
  destruct w as [[idle maxw d l r e p c0 s u] ts n k ds cs]. simpl in *.
  unfold flush. simpl.
  assert (Hts : timers
            (clearIfSet maxw
               (assign (set_idleTimeoutId None)
                  (clearIfSet idle
                     {| buffer := {| idleTimeoutId := idle;
                                     maxWaitTimeoutId := maxw;
                                     documentId := d; lastSyncTime := l;
                                     hasRecentRemoteChanges := r;
                                     currentETag := e;
                                     isFlushInProgress := p;
                                     currentEditorContent := c0;
                                     lastSavedContent := s;
                                     hasUnflushedChanges := u |};
                        timers := ts; nextTimerId := n; inFlight := k;
                        dispatched := ds; callbacks := cs |}))) = []).
  { apply Hnone. intros t Ht.
    assert (Hin : t ∈ ts /\ idle <> Some t.1 /\ maxw <> Some t.1).
    { destruct idle as [i|], maxw as [m|]; simpl in Ht;
        repeat (apply list_elem_of_filter in Ht as [? Ht]);
        repeat split; try done; congruence. }
    destruct Hin as (Hin & Hi & Hm).
    destruct (Hheld t.1); [|done|done].
    apply list_elem_of_fmap. by exists t. }
  destruct idle, maxw, u; simpl in *; exact Hts.
Qed.

(** One step keeps the requests serialized, unless it is an explicit
    flush made while a flush is in progress. *)
Lemma step_serialized w e :
  serialized w ->
  (timerDriven e \/ isFlushInProgress (buffer w) = false) ->
  serialized (step w e).
Proof.
  intros Hs He.
  assert (Hflush : forall w', inFlight w' = 0%nat ->
            isFlushInProgress (buffer w') = false ->
            (forall id, id ∈ (fst <$> timers w') ->
               idleTimeoutId (buffer w') = Some id \/
               maxWaitTimeoutId (buffer w') = Some id) ->
            serialized (flush w')).
  { intros w' H0 Hp Hheld.
    pose proof (flush_clears_timers w' Hheld) as Hts.
    destruct (hasUnflushedChanges (buffer w')) eqn:Hu.
    - right. destruct (flush_dispatch w' Hu) as (_ & Hk & Hq & _).
      repeat split; [lia|done|done].
    - left. destruct (flush_nothing w' Hu) as (_ & Hk).
      split; [lia|]. split.
      + revert Hp Hu. unfold flush.
        destruct w' as [[idle maxw d l r e0 p c0 s u] ts n k ds cs]. simpl.
        intros -> ->. by destruct idle, maxw.
      + rewrite Hts. intros id Hid. by apply elem_of_nil in Hid. }
  destruct e as [c| | |id|etag content now|message]; simpl.
  - (* addChange *)
    destruct Hs as [(H0 & Hp & Hheld)|(H1 & Hp & Hts)].
    + left. unfold addChange.
      destruct w as [[idle maxw d l r e0 p c0 s u] ts n k ds cs].
      simpl in *. subst p k.
      split; [by destruct idle, maxw|]. split; [by destruct idle, maxw|].
      intros id.
      destruct idle as [i|], maxw as [m|]; simpl;
        rewrite ?fmap_app; simpl; intros Hid;
        repeat (apply elem_of_app in Hid as [Hid|Hid]);
        try (apply list_elem_of_singleton in Hid; subst id; auto; fail).
      * apply list_elem_of_fmap in Hid as (t & -> & Ht).
        apply list_elem_of_filter in Ht as [Hne Ht].
        destruct (Hheld t.1) as [Hh|Hh];
          [apply list_elem_of_fmap; by exists t|congruence|auto].
      * apply list_elem_of_fmap in Hid as (t & -> & Ht).
        apply list_elem_of_filter in Ht as [Hne Ht].
        destruct (Hheld t.1) as [Hh|Hh];
          [apply list_elem_of_fmap; by exists t|congruence|discriminate].
      * destruct (Hheld id Hid) as [Hh|Hh]; [discriminate|auto].
      * destruct (Hheld id Hid) as [Hh|Hh]; discriminate.
    + right. unfold addChange.
      destruct w as [[idle maxw d l r e0 p c0 s u] ts n k ds cs].
      simpl in *. by subst p k ts.
  - (* flush *)
    destruct He as [[]|Hp].
    destruct Hs as [(H0 & _ & Hheld)|(_ & Hq & _)]; [|congruence].
    by apply Hflush.
  - destruct He as [[]|Hp].
    destruct Hs as [(H0 & _ & Hheld)|(_ & Hq & _)]; [|congruence].
    by apply Hflush.
  - (* a timer fires *)
    case_bool_decide as Hid; [|done].
    destruct Hs as [(H0 & Hp & Hheld)|(_ & _ & Hts)].
    2:{ rewrite Hts in Hid. by apply elem_of_nil in Hid. }
    apply Hflush; [done|done|].
    intros id' Hid'. apply Hheld. simpl in Hid'.
    apply list_elem_of_fmap in Hid' as (t & -> & Ht).
    apply list_elem_of_filter in Ht as [_ Ht].
    apply list_elem_of_fmap. by exists t.
  - (* the request resolves *)
    destruct (Nat.eqb_spec (inFlight w) 0) as [|Hk]; [done|].
    destruct Hs as [(H0 & _)|(H1 & Hp & Hts)]; [lia|].
    left. unfold flushResolved.
    destruct w as [[idle maxw d l r e0 p c0 s u] ts n k ds cs].
    simpl in *. subst k ts. case_bool_decide; simpl.
    + repeat split; try done. intros id Hid. by apply elem_of_nil in Hid.
    + repeat split; try done. intros id Hid%list_elem_of_singleton. auto.
  - (* the request is rejected *)
    destruct (Nat.eqb_spec (inFlight w) 0) as [|Hk]; [done|].
    destruct Hs as [(H0 & _)|(H1 & Hp & Hts)]; [lia|].
    left. unfold flushRejected.
    destruct w as [[idle maxw d l r e0 p c0 s u] ts n k ds cs].
    simpl in *. subst k ts.
    destruct (includes message _); simpl;
      (repeat split; try done; intros id Hid; by apply elem_of_nil in Hid).
Qed.

(** Driven by edits, timers and responses alone, the buffer never has two
    requests pending. *)
Lemma timer_driven_serialized w events :
  serialized w -> Forall timerDriven events ->
  serialized (run w events) /\ (inFlight (run w events) <= 1)%nat.
Proof.
  intros Hs Hev.
  assert (H : serialized (run w events)).
  { revert w Hs. induction Hev as [|e events He _ IH]; intros w Hs; [done|].
    apply IH, step_serialized; auto. }
  split; [done|]. destruct H as [(-> & _)|(-> & _)]; lia.
Qed.

(** C9, the failing run: after an edit the idle timer fires and the save
    is sent; a second edit arrives while it is pending; [forceFlush()]
    then sends a second request although the first has not settled. *)
Theorem force_flush_overlaps_pending_save :
  let saving := run openDocument [AddChange (js "Hello w"); TimerFires 2] in
  serialized openDocument /\
  isFlushInProgress (buffer saving) = true /\
  inFlight saving = 1%nat /\
  inFlight (run openDocument leaveWhileSaving) = 2%nat /\
  length (dispatched (run openDocument leaveWhileSaving)) = 2%nat.
Proof.
  cbv zeta. split; [|vm_compute; repeat split].
  left. repeat split. intros id Hid. by apply elem_of_nil in Hid.
Qed.



End ChangeBufferSpec.

Module BatchSpec.
Import ApplyChanges Batch JsStringFacts ApplyChangesFacts ApplyChangesSpec.

Lemma editOf_applyOperation content change a :
  validOperation (operation change) ->
  applyOperation content (operation change)
    (start (range change) + a) (end_ (range change) + a) (text change) =
  Ok (substring content 0 ((editOf change).1.1 + a) ++ (editOf change).2 ++
      substringFrom content ((editOf change).1.2 + a)).
Proof.
  unfold editOf, applyOperation.
  intros [-> | [-> | ->]]; reflexivity.
Qed.

Lemma ordered_le from len edits : ordered from len edits -> from <= len.
Proof.
  revert from. induction edits as [|c edits IH]; intros from; simpl; [done|].
  destruct (editOf c) as [[s e] t]. intros (H1 & H2 & H3).
  specialize (IH _ H3). lia.
Qed.

(** The loop, started on what has been rewritten so far followed by the
    untouched rest of the original, with the offset between the two. *)
Lemma batch_loop original processed from changes :
  Forall (fun c => positionalChange c /\ validOperation (operation c)) changes ->
  0 <= from ->
  ordered from (strlen original) changes ->
  exists offset,
    applyChanges_loop
      (processed ++ drop (Z.to_nat from) original, strlen processed - from)
      changes =
    Ok (processed ++ simultaneous original from changes, offset).
Proof.
  intros Hall. revert processed from.
  induction Hall as [|c changes [Hp Hv] _ IH]; intros processed from Hfrom Hord.
  - simpl. eauto.
  - cbn [applyChanges_loop simultaneous ordered] in *.
    rewrite applyChange_positional by done.
    rewrite (editOf_applyOperation _ c _ Hv).
    destruct (editOf c) as [[s e] t]. simpl.
    destruct Hord as (Hs & He & Hrest).
    pose proof (ordered_le _ _ _ Hrest) as Hlen.
    set (content := processed ++ drop (Z.to_nat from) original).
    assert (Hcontent : strlen content = strlen processed + strlen original - from).
    { unfold content. rewrite strlen_app. unfold strlen.
      rewrite length_drop. unfold strlen in *. lia. }
    pose proof (strlen_nonneg processed) as Hpn.
    rewrite substring_0, substringFrom_drop.
    rewrite !clampIndex_id by lia.
    assert (Htake : take (Z.to_nat (s + (strlen processed - from))) content =
              processed ++ take (Z.to_nat (s - from)) (drop (Z.to_nat from) original)).
    { unfold content. rewrite take_app.
      rewrite take_ge by (unfold strlen; lia).
      do 2 f_equal. unfold strlen. lia. }
    assert (Hdrop : drop (Z.to_nat (e + (strlen processed - from))) content =
              drop (Z.to_nat e) original).
    { unfold content. rewrite drop_app.
      rewrite drop_ge by (unfold strlen; lia). simpl.
      rewrite drop_drop. f_equal. unfold strlen. lia. }
    rewrite Htake, Hdrop.
    set (processed' :=
           processed ++
           take (Z.to_nat (s - from)) (drop (Z.to_nat from) original) ++ t).
    specialize (IH processed' e ltac:(lia) Hrest).
    destruct IH as [offset IH]. exists offset.
    cbn [bind].
    match goal with
    | |- applyChanges_loop ?st _ = _ =>
        replace st with (processed' ++ drop (Z.to_nat e) original,
                         strlen processed' - e)
    end.
    + rewrite IH. unfold processed'. by rewrite <- !app_assoc.
    + f_equal.
      * unfold processed'. by rewrite <- !app_assoc.
      * rewrite Hcontent. unfold processed'. rewrite !strlen_app.
        unfold strlen. rewrite length_take, !length_drop.
        unfold strlen in *. lia.
Qed.

(** X1. A batch of positional changes whose ranges are written against the
    original text, lie inside it and follow one another from left to right
    without overlapping is applied as if all the edits were made at once:
    the text between the ranges is kept and each range is replaced. *)
Theorem ordered_batch_is_simultaneous original changes :
  Forall (fun c => positionalChange c /\ validOperation (operation c)) changes ->
  ordered 0 (strlen original) changes ->
  applyChanges original changes = Ok (simultaneous original 0 changes).
Proof.
  intros Hall Hord.
  destruct (batch_loop original [] 0 changes Hall ltac:(lia) Hord)
    as [offset H].
  unfold applyChanges.
  change (original, 0)
    with ([] ++ drop (Z.to_nat 0) original, strlen [] - 0).
  rewrite H. reflexivity.
Qed.


Lemma ordered_batch_is_simultaneous_witness :
  Forall (fun c => positionalChange c /\ validOperation (operation c))
    [positional (js "replace") 4 9 (js "slow");
     positional (js "insert") 10 10 (js "lazy ");
     positional (js "delete") 18 19 (js "")] /\
  ordered 0 (strlen (js "The quick brown fox"))
    [positional (js "replace") 4 9 (js "slow");
     positional (js "insert") 10 10 (js "lazy ");
     positional (js "delete") 18 19 (js "")] /\
  applyChanges (js "The quick brown fox")
    [positional (js "replace") 4 9 (js "slow");
     positional (js "insert") 10 10 (js "lazy ");
     positional (js "delete") 18 19 (js "")] =
  Ok (simultaneous (js "The quick brown fox") 0
        [positional (js "replace") 4 9 (js "slow");
         positional (js "insert") 10 10 (js "lazy ");
         positional (js "delete") 18 19 (js "")]).
Proof.
  assert (H1 : Forall (fun c => positionalChange c /\ validOperation (operation c))
    [positional (js "replace") 4 9 (js "slow");
     positional (js "insert") 10 10 (js "lazy ");
     positional (js "delete") 18 19 (js "")]).
  { constructor; [split; [repeat split|left; reflexivity]|].
    constructor; [split; [repeat split|right; left; reflexivity]|].
    constructor; [split; [repeat split|right; right; reflexivity]|].
    constructor. }
  assert (H2 : ordered 0 (strlen (js "The quick brown fox"))
    [positional (js "replace") 4 9 (js "slow");
     positional (js "insert") 10 10 (js "lazy ");
     positional (js "delete") 18 19 (js "")]).
  { vm_compute. repeat split; discriminate. }
  split; [exact H1|]. split; [exact H2|].
  exact (ordered_batch_is_simultaneous _ _ H1 H2).
Defined.

Lemma usesMatching_true change :
  (occurrence change <> OccUndefined \/ contextBefore change <> None \/
   contextAfter change <> None) ->
  usesMatching change = true.
Proof.
  unfold usesMatching. intros H.
  destruct (occurrence change), (contextBefore change), (contextAfter change);
    try reflexivity.
  destruct H as [H | [H | H]]; congruence.
Qed.

(** A step in matching mode that succeeds leaves the offset at 0. *)
Lemma matching_step_resets_offset st change updated offset :
  usesMatching change = true ->
  applyChange st change = Ok (updated, offset) -> offset = 0.
Proof.
  intros Hm. destruct st as [content off]. unfold applyChange. rewrite Hm.
  destruct (length _ =? 0)%nat; [discriminate|].
  destruct (occurrence change) as [| |n].
  1,2: destruct (applyAtEach _ _ _ _ _); simpl; congruence.
  destruct (n =? -1).
  - destruct (applyAtEach _ _ _ _ _); simpl; congruence.
  - destruct (_ && _); [|discriminate].
    destruct (applyOperation _ _ _ _ _); simpl; congruence.
Qed.

(** X2. A change in matching mode cuts the batch in two: when the batch up
    to and including it gives the text [mid], the changes after it are
    applied to [mid] as a batch of their own, their ranges read against
    [mid] and not against the original text. *)
Theorem matching_change_restarts_batch content before change rest mid :
  (occurrence change <> OccUndefined \/ contextBefore change <> None \/
   contextAfter change <> None) ->
  applyChanges content (before ++ [change]) = Ok mid ->
  applyChanges content (before ++ change :: rest) = applyChanges mid rest.
Proof.
  intros Hm%usesMatching_true H. unfold applyChanges in *.
  rewrite applyChanges_loop_app in *.
  destruct (applyChanges_loop (content, 0) before) as [st|err];
    [|discriminate].
  cbn [bind applyChanges_loop] in *.
  destruct (applyChange st change) as [[updated offset]|err] eqn:E;
    [|discriminate].
  cbn [bind] in *. injection H as <-.
  by rewrite (matching_step_resets_offset _ _ _ _ Hm E).
Qed.

Lemma matching_change_restarts_batch_witness :
  (occurrence replaceAll <> OccUndefined \/ contextBefore replaceAll <> None \/
   contextAfter replaceAll <> None) /\
  applyChanges (js "foo bar")
    ([positional (js "insert") 0 0 (js ">> ")] ++ [replaceAll]) =
  Ok (js ">> qux bar") /\
  applyChanges (js "foo bar")
    ([positional (js "insert") 0 0 (js ">> ")] ++
     replaceAll :: [positional (js "delete") 0 4 (js "")]) =
  applyChanges (js ">> qux bar") [positional (js "delete") 0 4 (js "")].
Proof.
  assert (H1 : occurrence replaceAll <> OccUndefined \/
               contextBefore replaceAll <> None \/
               contextAfter replaceAll <> None) by (left; discriminate).
  assert (H2 : applyChanges (js "foo bar")
                 ([positional (js "insert") 0 0 (js ">> ")] ++ [replaceAll]) =
               Ok (js ">> qux bar")) by (vm_compute; reflexivity).
  split; [exact H1|]. split; [exact H2|].
  exact (matching_change_restarts_batch _ _ _ _ _ H1 H2).
Defined.

End BatchSpec.

Module EditSpec.
Import ApplyChanges Batch JsStringFacts ApplyChangesFacts ApplyChangesSpec BatchSpec.





(** X4. Validation lets a reversed range through, and the primitives give
    it a meaning: for a positional replace or delete whose end lies before
    its start (both inside the text), the text up to [start] is followed by
    the new text and by the text from [end] on, so the slice [end, start)
    appears twice and even a delete makes the text longer. *)
Theorem reversed_range_duplicates content offset change :
  positionalChange change ->
  operation change = js "replace" \/ operation change = js "delete" ->
  let s := start (range change) + offset in
  let e := end_ (range change) + offset in
  0 <= e <= s -> s <= strlen content ->
  exists updated,
    applyChange (content, offset) change =
      Ok (updated, offset + (strlen updated - strlen content)) /\
    updated =
      take (Z.to_nat s) content ++ (editOf change).2 ++
      drop (Z.to_nat e) content /\
    strlen updated = strlen content + strlen (editOf change).2 + (s - e).
Proof.
  intros Hp Hop s e He Hs.
  rewrite applyChange_positional by done. fold s e.
  assert (Hv : validOperation (operation change))
    by (destruct Hop as [-> | ->]; [left|right; right]; reflexivity).
  pose proof (editOf_applyOperation content change offset Hv) as Hedit.
  assert (Hse : (editOf change).1.1 = start (range change) /\
                (editOf change).1.2 = end_ (range change)).
  { unfold editOf. destruct Hop as [-> | ->]; by split. }
  destruct Hse as [Hs1 Hs2]. rewrite Hs1, Hs2 in Hedit. fold s e in Hedit.
  rewrite Hedit. cbn [bind]. eexists. split; [reflexivity|].
  rewrite substring_0, substringFrom_drop, !clampIndex_id by lia.
  split; [reflexivity|].
  rewrite !strlen_app. unfold strlen in *.
  rewrite length_take, length_drop. lia.
Qed.

Lemma reversed_range_duplicates_witness :
  positionalChange (positional (js "delete") 4 1 (js "")) /\
  (operation (positional (js "delete") 4 1 (js "")) = js "replace" \/
   operation (positional (js "delete") 4 1 (js "")) = js "delete") /\
  applyChange (js "abcdef", 0) (positional (js "delete") 4 1 (js "")) =
  Ok (js "abcdbcdef", 3).
Proof.
  assert (H1 : positionalChange (positional (js "delete") 4 1 (js "")))
    by (repeat split).
  assert (H2 : operation (positional (js "delete") 4 1 (js "")) = js "replace" \/
               operation (positional (js "delete") 4 1 (js "")) = js "delete")
    by (right; reflexivity).
  split; [exact H1|]. split; [exact H2|].
  destruct (reversed_range_duplicates (js "abcdef") 0 _ H1 H2
              ltac:(vm_compute; split; discriminate)
              ltac:(vm_compute; discriminate))
    as (updated & Hstep & -> & _).
  rewrite Hstep. vm_compute. reflexivity.
Defined.

(** X5. A positional change that takes nothing out and puts nothing in (an
    insert of the empty text, a delete or replace of an empty range by the
    empty text) leaves the text and the offset as they are, wherever its
    index lies, inside the text or not. *)
Theorem empty_edit_changes_nothing content offset change :
  positionalChange change ->
  validOperation (operation change) ->
  (editOf change).1.1 = (editOf change).1.2 ->
  (editOf change).2 = [] ->
  applyChange (content, offset) change = Ok (content, offset).
Proof.
  intros Hp Hv Hrange Htext.
  rewrite applyChange_positional by done.
  rewrite (editOf_applyOperation content change offset Hv).
  rewrite <- Hrange, Htext. cbn [bind].
  rewrite substring_0, substringFrom_drop. simpl.
  rewrite take_drop. do 2 f_equal. lia.
Qed.

Lemma empty_edit_changes_nothing_witness :
  positionalChange (positional (js "delete") 99 99 (js "ignored")) /\
  validOperation (operation (positional (js "delete") 99 99 (js "ignored"))) /\
  applyChange (js "abc", 7) (positional (js "delete") 99 99 (js "ignored")) =
  Ok (js "abc", 7).
Proof.
  assert (H1 : positionalChange (positional (js "delete") 99 99 (js "ignored")))
    by (repeat split).
  assert (H2 : validOperation
                 (operation (positional (js "delete") 99 99 (js "ignored"))))
    by (right; right; reflexivity).
  split; [exact H1|]. split; [exact H2|].
  exact (empty_edit_changes_nothing _ _ _ H1 H2 eq_refl eq_refl).
Defined.

End EditSpec.

Module SmartChangeSpec.
Import ApplyChanges ChangeStrategy SmartChange Validation Batch.
Import JsStringFacts ApplyChangesFacts ApplyChangesSpec ChangeStrategySpec.

Lemma sliceFrom_last s n :
  0 < n ->
  sliceFrom s (- n) = drop (length s - Z.to_nat n) s.
Proof.
  intros Hn. unfold sliceFrom, slice, sliceIndex.
  pose proof (strlen_nonneg s) as Hs.
  destruct (Z.ltb_spec (strlen s) 0); [lia|].
  rewrite Z.min_id.
  destruct (Z.ltb_spec (- n) 0) as [Hneg|Hzero]; [|lia].
  replace (Z.to_nat (Z.max (strlen s + - n) 0))
    with (length s - Z.to_nat n)%nat by (unfold strlen; lia).
  apply take_ge. rewrite length_drop. unfold strlen. lia.
Qed.

Lemma slice_first s n :
  0 <= n -> slice s 0 n = take (Z.to_nat n) s.
Proof.
  intros Hn. unfold slice, sliceIndex. pose proof (strlen_nonneg s) as Hs.
  destruct (Z.ltb_spec n 0); [lia|]. simpl.
  rewrite (Z.min_l 0) by lia. simpl. rewrite Z.sub_0_r.
  destruct (Z.min_spec n (strlen s)) as [[H1 ->]|[H1 ->]].
  - f_equal. lia.
  - unfold strlen. rewrite Z.max_l, Nat2Z.id by lia.
    rewrite !take_ge; [done| |done]. unfold strlen in *. lia.
Qed.

(** The context taken before a position is the text that ends there, at
    most ten characters of it. *)
Lemma extractContextBefore_suffix content position :
  0 <= position <= strlen content ->
  extractContextBefore content position `suffix_of`
    take (Z.to_nat position) content /\
  strlen (extractContextBefore content position) = Z.min 10 position.
Proof.
  intros Hpos. unfold extractContextBefore.
  unfold STRATEGY_CONFIG.CONTEXT_LENGTH, STRATEGY_CONFIG.CONTEXT_TRIM_LENGTH.
  rewrite sliceFrom_last by lia.
  rewrite substring_slice by lia.
  rewrite take_drop_commute.
  replace (Z.to_nat (Z.max 0 (position - 15)) +
           Z.to_nat (position - Z.max 0 (position - 15)))%nat
    with (Z.to_nat position) by lia.
  rewrite drop_drop. split; [apply suffix_drop|].
  unfold strlen in *. rewrite !length_drop, !length_take. lia.
Qed.

Lemma extractContextAfter_prefix content position :
  0 <= position <= strlen content ->
  extractContextAfter content position `prefix_of`
    drop (Z.to_nat position) content /\
  strlen (extractContextAfter content position) =
    Z.min 10 (strlen content - position).
Proof.
  intros Hpos. unfold extractContextAfter.
  unfold STRATEGY_CONFIG.CONTEXT_LENGTH, STRATEGY_CONFIG.CONTEXT_TRIM_LENGTH.
  rewrite slice_first by lia.
  rewrite substring_slice by lia.
  rewrite take_take. split; [apply prefix_take|].
  unfold strlen in *. rewrite length_take, length_drop. lia.
Qed.

Lemma orUndefined_default s : default [] (orUndefined s) = s.
Proof. by destruct s. Qed.

Lemma selection_context_facts content selection :
  0 <= start selection < end_ selection ->
  end_ selection <= strlen content ->
  qualifies content (substring content (start selection) (end_ selection))
    (orUndefined (extractContextBefore content (start selection)))
    (orUndefined (extractContextAfter content (end_ selection)))
    (start selection) /\
  strlen (extractContextBefore content (start selection)) <= 10 /\
  strlen (extractContextAfter content (end_ selection)) <= 10.
Proof.
  intros Hs He. split.
  - unfold qualifies. rewrite !orUndefined_default.
    split; [lia|]. split; [|split].
    + rewrite substring_slice by lia. apply prefix_take.
    + apply extractContextBefore_suffix. lia.
    + replace (Z.to_nat (start selection) +
               length (substring content (start selection) (end_ selection)))%nat
        with (Z.to_nat (end_ selection)).
      * apply extractContextAfter_prefix. lia.
      * pose proof (substring_length content (start selection)
                      (end_ selection) ltac:(lia) He) as Hlen.
        unfold strlen in Hlen. lia.
  - destruct (extractContextBefore_suffix content (start selection)
                ltac:(lia)) as [_ ->].
    destruct (extractContextAfter_prefix content (end_ selection)
                ltac:(lia)) as [_ ->].
    lia.
Qed.

(** X6. The contexts the client extracts around a selection are accepted by
    the server at that selection: with the selected text as pattern, the
    start of the selection is one of the qualifying positions. Each context
    has at most ten characters. *)
Theorem selection_qualifies_under_its_contexts content selection :
  0 <= start selection < end_ selection ->
  end_ selection <= strlen content ->
  let searchText := substring content (start selection) (end_ selection) in
  let contextBefore :=
    orUndefined (extractContextBefore content (start selection)) in
  let contextAfter :=
    orUndefined (extractContextAfter content (end_ selection)) in
  qualifies content searchText contextBefore contextAfter (start selection) /\
  start selection ∈
    findOccurrences content searchText contextBefore contextAfter /\
  strlen (default [] contextBefore) <= 10 /\
  strlen (default [] contextAfter) <= 10.
Proof.
  intros Hs He searchText contextBefore contextAfter.
  destruct (selection_context_facts content selection Hs He)
    as (Hq & Hb & Ha).
  split; [exact Hq|]. split.
  - rewrite findOccurrences_spec. apply list_elem_of_filter.
    split; [exact Hq|]. apply elem_of_seqZ. lia.
  - unfold contextBefore, contextAfter. by rewrite !orUndefined_default.
Qed.

Lemma selection_qualifies_under_its_contexts_witness :
  0 <= 6 < 8 /\ 8 <= strlen (js "ab cb ab") /\
  (6 ∈ findOccurrences (js "ab cb ab") (js "ab")
         (Some (js "ab cb ")) None).
Proof.
  assert (Hs : 0 <= start {| start := 6; end_ := 8 |}
               < end_ {| start := 6; end_ := 8 |}) by (simpl; lia).
  assert (He : end_ {| start := 6; end_ := 8 |} <= strlen (js "ab cb ab"))
    by (vm_compute; discriminate).
  split; [exact Hs|]. split; [exact He|].
  exact (proj1 (proj2 (selection_qualifies_under_its_contexts
                         (js "ab cb ab") {| start := 6; end_ := 8 |} Hs He))).
Defined.


Lemma qualifies_no_context content pat i :
  qualifies content pat None None i <->
  0 <= i < strlen content /\ pat `prefix_of` drop (Z.to_nat i) content.
Proof.
  unfold qualifies. simpl. split; [tauto|].
  intros [H1 H2]. repeat split; try tauto; [apply suffix_nil|apply prefix_nil].
Qed.

(** The qualifying positions of a text, cut at one of them. *)
Lemma filter_seqZ_split (Q : Z -> Prop) `{!forall i, Decision (Q i)} len p :
  0 <= p < len -> Q p ->
  filter Q (seqZ 0 len) =
  filter Q (seqZ 0 p) ++ p :: filter Q (seqZ (p + 1) (len - (p + 1))).
Proof.
  intros Hp Hq.
  replace len with (p + (len - p)) at 1 by lia.
  rewrite seqZ_app by lia. rewrite filter_app. f_equal.
  rewrite Z.add_0_l.
  rewrite seqZ_cons by lia. rewrite filter_cons_True by done.
  replace (Z.succ p) with (p + 1) by lia.
  by replace (Z.pred (len - p)) with (len - (p + 1)) by lia.
Qed.

Lemma findOccurrenceNumber_loop_spec fuel content pat selStart position num :
  qualifies content pat None None selStart ->
  0 <= position <= selStart ->
  (Z.to_nat (selStart - position) < fuel)%nat ->
  findOccurrenceNumber_loop fuel content pat selStart position num =
  Some (num + 1 +
        Z.of_nat (length (filter (qualifies content pat None None)
                            (seqZ position (selStart - position))))).
Proof.
  intros Hsel. pose proof (proj1 (qualifies_no_context _ _ _) Hsel) as [Hs Hm].
  revert position num.
  induction fuel as [|fuel IH]; intros position num Hpos Hfuel; [lia|].
  simpl. destruct (Z.leb_spec position selStart); [|lia].
  destruct (indexOf_spec content pat position ltac:(lia))
    as [[_ Hno]|(Hr & Hpre & Hmin)].
  { exfalso. apply (Hno selStart); [lia|done]. }
  set (j := indexOf content pat position) in *.
  assert (Hj : j <= selStart).
  { destruct (Z.le_gt_cases j selStart); [done|].
    exfalso. apply (Hmin selStart); [lia|done]. }
  destruct (Z.eqb_spec j (-1)); [lia|].
  assert (Hnone : filter (qualifies content pat None None)
                    (seqZ position (j - position)) = []).
  { apply filter_none, Forall_forall.
    intros i Hi%elem_of_seqZ [_ Hq]%qualifies_no_context.
    apply (Hmin i); [lia|done]. }
  destruct (Z.eqb_spec j selStart) as [Heq|Hne].
  - rewrite <- Heq, Hnone. simpl. f_equal. lia.
  - rewrite IH by lia.
    replace (selStart - position)
      with ((j - position) + (selStart - j)) by lia.
    rewrite seqZ_app, filter_app, Hnone by lia.
    replace (position + (j - position)) with j by lia.
    rewrite (seqZ_cons j) by lia.
    rewrite filter_cons_True
      by (apply qualifies_no_context; split; [lia|done]).
    simpl. f_equal.
    replace (Z.succ j) with (j + 1) by lia.
    replace (Z.pred (selStart - j)) with (selStart - (j + 1)) by lia.
    lia.
Qed.

(** X7. For a selection inside the text, the occurrence number the client
    computes is the rank of the selection among all the places where the
    selected text occurs, overlapping ones included: the search returns
    within [selection.start + 1] iterations, and the server's scan without
    contexts has the selection start at that rank. *)
Theorem occurrence_number_is_rank fuel content selection :
  0 <= start selection < end_ selection ->
  end_ selection <= strlen content ->
  (Z.to_nat (start selection) < fuel)%nat ->
  let searchText := substring content (start selection) (end_ selection) in
  exists k,
    findOccurrenceNumber fuel content selection = Some k /\
    1 <= k /\
    findOccurrences content searchText None None !! Z.to_nat (k - 1) =
      Some (start selection).
Proof.
  intros Hs He Hfuel searchText.
  assert (Hq : qualifies content searchText None None (start selection)).
  { apply qualifies_no_context. split; [lia|].
    unfold searchText. rewrite substring_slice by lia. apply prefix_take. }
  eexists. split; [|split].
  - unfold findOccurrenceNumber. fold searchText.
    apply findOccurrenceNumber_loop_spec; [done|lia|lia].
  - lia.
  - rewrite findOccurrences_spec.
    rewrite (filter_seqZ_split (qualifies content searchText None None)
               (strlen content) (start selection) ltac:(lia) Hq).
    rewrite !Z.sub_0_r. apply list_lookup_middle. lia.
Qed.

Lemma occurrence_number_is_rank_witness :
  0 <= start (selection secondOccurrence) < end_ (selection secondOccurrence) /\
  end_ (selection secondOccurrence) <=
    strlen (documentContent secondOccurrence) /\
  findOccurrenceNumber 7 (documentContent secondOccurrence)
    (selection secondOccurrence) = Some 2.
Proof.
  assert (H1 : 0 <= start (selection secondOccurrence)
               < end_ (selection secondOccurrence))
    by (vm_compute; split; [discriminate|reflexivity]).
  assert (H2 : end_ (selection secondOccurrence) <=
               strlen (documentContent secondOccurrence))
    by (vm_compute; discriminate).
  split; [exact H1|]. split; [exact H2|].
  destruct (occurrence_number_is_rank 7 _ _ H1 H2 ltac:(vm_compute; lia))
    as (k & Hk & _ & _).
  rewrite Hk. vm_compute in Hk. by injection Hk as <-.
Defined.


Lemma findOccurrenceNumber_loop_returns fuel content pat selStart position num :
  pat <> [] ->
  0 <= position <= strlen content -> 0 <= num ->
  (Z.to_nat (strlen content - position) < fuel)%nat ->
  exists k,
    findOccurrenceNumber_loop fuel content pat selStart position num = Some k /\
    1 <= k.
Proof.
  intros Hpat. revert position num.
  induction fuel as [|fuel IH]; intros position num Hpos Hnum Hfuel; [lia|].
  simpl. destruct (position <=? selStart); [|by exists 1].
  destruct (indexOf_spec content pat position Hpos)
    as [[-> _]|(Hr & Hpre & Hmin)]; [by exists 1|].
  set (j := indexOf content pat position) in *.
  destruct (Z.eqb_spec j (-1)); [lia|].
  assert (Hj : j < strlen content).
  { destruct (decide (j = strlen content)) as [Heq|]; [|lia].
    exfalso. rewrite Heq in Hpre. unfold strlen in Hpre.
    rewrite Nat2Z.id, drop_all in Hpre.
    by apply prefix_nil_inv in Hpre. }
  destruct (j =? selStart); [exists (num + 1); split; [done|lia]|].
  apply IH; lia.
Qed.

Lemma contentBased_selectedText context :
  determineChangeStrategy context = ContentBased ->
  selectedText context <> [].
Proof.
  unfold determineChangeStrategy. rewrite strlen_zero.
  case_bool_decide; [discriminate|done].
Qed.

(** X8. [createSmartChange] returns for every context, within
    [content.length + 1] iterations of the occurrence search, and the
    change it builds carries the selection as range and the new text, and
    passes the server's validation whenever its operation is one of the
    three tags. *)
Theorem smart_change_is_built_and_valid fuel operation context newText :
  validOperation operation ->
  (length (documentContent context) < fuel)%nat ->
  exists change,
    createSmartChange fuel operation context newText = Some change /\
    ApplyChanges.operation change = operation /\
    range change = selection context /\
    text change = newText /\
    isValidChange (toValue change) = true.
Proof.
  intros Hv Hfuel. unfold createSmartChange.
  destruct (determineChangeStrategy context) eqn:Hstrategy.
  - eexists. split; [reflexivity|]. repeat split.
    apply ValidationSpec.isValidChange_toValue. by split.
  - pose proof (contentBased_selectedText _ Hstrategy) as Hsel.
    destruct (findOccurrenceNumber_loop_returns fuel
                (documentContent context) (selectedText context)
                (start (selection context)) 0 0 Hsel)
      as (k & Hk & Hk1).
    { pose proof (strlen_nonneg (documentContent context)). lia. }
    { lia. }
    { unfold strlen. lia. }
    unfold findOccurrenceNumber. fold (selectedText context). rewrite Hk.
    eexists. split; [reflexivity|]. repeat split.
    apply ValidationSpec.isValidChange_toValue. split; [done|].
    simpl. by right.
Qed.

Lemma smart_change_is_built_and_valid_witness :
  validOperation (js "replace") /\
  (length (documentContent secondOccurrence) < 9)%nat /\
  exists change,
    createSmartChange 9 (js "replace") secondOccurrence (js "X") = Some change /\
    ApplyChanges.operation change = js "replace" /\
    range change = selection secondOccurrence /\
    text change = js "X" /\
    isValidChange (toValue change) = true.
Proof.
  assert (H1 : validOperation (js "replace")) by (left; reflexivity).
  assert (H2 : (length (documentContent secondOccurrence) < 9)%nat)
    by (vm_compute; lia).
  split; [exact H1|]. split; [exact H2|].
  exact (smart_change_is_built_and_valid 9 _ secondOccurrence (js "X") H1 H2).
Defined.

Lemma indexOf_empty content position :
  indexOf content [] position = clampIndex content position.
Proof.
  pose proof (clampIndex_range content position) as Hc.
  unfold indexOf.
  destruct (drop (Z.to_nat (clampIndex content position)) content);
    simpl; lia.
Qed.

(** X9. On its own, the occurrence search does not return for an empty
    selection that starts beyond the end of the text: the scan position
    stops advancing at [content.length + 1] and never passes
    [selection.start], so no number of iterations is enough.
    [createSmartChange] searches only when the selected text is not empty. *)
Theorem occurrence_search_loops_beyond_end fuel content selection :
  strlen content < start selection ->
  strlen content <= end_ selection ->
  findOccurrenceNumber fuel content selection = None.
Proof.
  intros Hs He. unfold findOccurrenceNumber.
  assert (Hempty : substring content (start selection) (end_ selection) = []).
  { unfold substring. rewrite !clampIndex_beyond by lia.
    rewrite Z.min_id, Z.max_id, Z.sub_diag. apply take_0. }
  rewrite Hempty.
  assert (Hloop : forall position num,
            0 <= position <= strlen content + 1 ->
            findOccurrenceNumber_loop fuel content [] (start selection)
              position num = None).
  { induction fuel as [|fuel IH]; intros position num Hpos; [done|].
    simpl. destruct (Z.leb_spec position (start selection)); [|lia].
    rewrite indexOf_empty.
    pose proof (clampIndex_range content position) as Hc.
    destruct (Z.eqb_spec (clampIndex content position) (-1)); [lia|].
    destruct (Z.eqb_spec (clampIndex content position) (start selection));
      [lia|].
    apply IH. lia. }
  apply Hloop. pose proof (strlen_nonneg content). lia.
Qed.

Lemma occurrence_search_loops_beyond_end_witness :
  strlen (js "abc") < 10 /\ strlen (js "abc") <= 10 /\
  findOccurrenceNumber 1000 (js "abc") {| start := 10; end_ := 10 |} = None.
Proof.
  assert (H1 : strlen (js "abc") < 10) by (vm_compute; reflexivity).
  assert (H2 : strlen (js "abc") <= 10) by (vm_compute; discriminate).
  split; [exact H1|]. split; [exact H2|].
  exact (occurrence_search_loops_beyond_end 1000 (js "abc")
           {| start := 10; end_ := 10 |} H1 H2).
Defined.


Lemma filter_agree {A} (P Q : A -> Prop) `{!forall x, Decision (P x)}
    `{!forall x, Decision (Q x)} (l : list A) :
  (forall x, x ∈ l -> (P x <-> Q x)) -> filter P l = filter Q l.
Proof.
  induction l as [|x l IH]; intros Hiff; [done|].
  rewrite !filter_cons.
  rewrite IH by (intros y Hy; apply Hiff; by right).
  assert (Hx : P x <-> Q x) by (apply Hiff; left).
  destruct (decide (P x)) as [Hp|Hp], (decide (Q x)) as [Hq|Hq];
    try done; tauto.
Qed.

Lemma filter_length_le {A} (P Q : A -> Prop) `{!forall x, Decision (P x)}
    `{!forall x, Decision (Q x)} (l : list A) :
  (forall x, P x -> Q x) -> (length (filter P l) <= length (filter Q l))%nat.
Proof.
  intros Himp. induction l as [|x l IH]; [done|].
  rewrite !filter_cons.
  destruct (decide (P x)) as [Hp|Hp], (decide (Q x)) as [Hq|Hq]; simpl;
    try lia.
  exfalso. by apply Hq, Himp.
Qed.

Lemma filter_length_lt {A} (P Q : A -> Prop) `{!forall x, Decision (P x)}
    `{!forall x, Decision (Q x)} (l : list A) x :
  (forall x, P x -> Q x) -> x ∈ l -> Q x -> ~ P x ->
  (length (filter P l) < length (filter Q l))%nat.
Proof.
  intros Himp Hx Hq Hp.
  induction l as [|y l IH]; [by apply elem_of_nil in Hx|].
  rewrite !filter_cons.
  apply elem_of_cons in Hx as [<-|Hx].
  - rewrite decide_False, decide_True by done. simpl.
    pose proof (filter_length_le P Q l Himp). lia.
  - specialize (IH Hx).
    destruct (decide (P y)) as [Hpy|Hpy], (decide (Q y)) as [Hqy|Hqy]; simpl;
      try lia.
    exfalso. by apply Hqy, Himp.
Qed.

(** The step in matching mode when the occurrence number points into the
    list of occurrences. *)
Lemma applyChange_at_occurrence content offset change n p :
  occurrence change = OccNumber n ->
  1 <= n ->
  findOccurrences content
    (substring content (start (range change) + offset)
       (end_ (range change) + offset))
    (contextBefore change) (contextAfter change) !! Z.to_nat (n - 1) = Some p ->
  applyChange (content, offset) change =
  let* updated :=
    applyOperation content (operation change) p
      (p + strlen (substring content (start (range change) + offset)
                     (end_ (range change) + offset))) (text change) in
  Ok (updated, 0).
Proof.
  intros Hocc Hn Hp. unfold applyChange.
  rewrite BatchSpec.usesMatching_true by (left; rewrite Hocc; discriminate).
  set (occurrences := findOccurrences _ _ _ _) in *.
  pose proof (lookup_lt_Some _ _ _ Hp) as Hlt.
  rewrite Hocc.
  destruct (Nat.eqb_spec (length occurrences) 0) as [H0|_]; [lia|].
  destruct (Z.eqb_spec n (-1)) as [|_]; [lia|].
  destruct (Z.ltb_spec 0 n); [|lia].
  destruct (Z.leb_spec n (Z.of_nat (length occurrences))); [|lia].
  simpl. by rewrite (nth_lookup_Some _ _ _ _ Hp).
Qed.

(** What [createSmartChange] builds in the content-based case, for a
    selection inside the text. *)
Lemma createSmartChange_contentBased fuel operation context newText :
  determineChangeStrategy context = ContentBased ->
  0 <= start (selection context) < end_ (selection context) ->
  end_ (selection context) <= strlen (documentContent context) ->
  (length (documentContent context) < fuel)%nat ->
  createSmartChange fuel operation context newText =
  Some {| operation := operation;
          range := selection context;
          text := newText;
          occurrence :=
            OccNumber
              (1 + Z.of_nat
                     (length
                        (filter (qualifies (documentContent context)
                                   (selectedText context) None None)
                           (seqZ 0 (start (selection context))))));
          contextBefore :=
            orUndefined (extractContextBefore (documentContent context)
                           (start (selection context)));
          contextAfter :=
            orUndefined (extractContextAfter (documentContent context)
                           (end_ (selection context))) |}.
Proof.
  intros Hstrategy Hs He Hfuel. unfold createSmartChange. rewrite Hstrategy.
  unfold findOccurrenceNumber. fold (selectedText context).
  rewrite findOccurrenceNumber_loop_spec.
  - rewrite Z.sub_0_r. do 3 f_equal.
  - apply qualifies_no_context. split; [lia|].
    unfold selectedText. rewrite substring_slice by lia. apply prefix_take.
  - lia.
  - unfold strlen in *. lia.
Qed.

(** X10. When every earlier occurrence of the selected text also has the
    extracted contexts around it (in particular when there is no earlier
    occurrence), the content-based change the client builds for a selection
    is applied by the server, on the same text, exactly where a positional
    change for that selection would be. *)
Theorem smart_change_hits_selection fuel operation context newText :
  determineChangeStrategy context = ContentBased ->
  0 <= start (selection context) < end_ (selection context) ->
  end_ (selection context) <= strlen (documentContent context) ->
  (length (documentContent context) < fuel)%nat ->
  (forall i,
     0 <= i < start (selection context) ->
     selectedText context `prefix_of`
       drop (Z.to_nat i) (documentContent context) ->
     qualifies (documentContent context) (selectedText context)
       (orUndefined (extractContextBefore (documentContent context)
                       (start (selection context))))
       (orUndefined (extractContextAfter (documentContent context)
                       (end_ (selection context)))) i) ->
  exists change,
    createSmartChange fuel operation context newText = Some change /\
    applyChanges (documentContent context) [change] =
    applyChanges (documentContent context)
      [positional operation (start (selection context))
         (end_ (selection context)) newText].
Proof.
  intros Hstrategy Hs He Hfuel Hearlier.
  rewrite (createSmartChange_contentBased _ _ _ _ Hstrategy Hs He Hfuel).
  eexists. split; [reflexivity|].
  destruct (selection_context_facts _ _ Hs He) as (Hq & _).
  assert (Hlen : strlen (selectedText context) =
                 end_ (selection context) - start (selection context))
    by (apply substring_length; lia).
  fold (selectedText context) in Hq.
  set (content := documentContent context) in *.
  set (sel := selection context) in *.
  set (cb := orUndefined (extractContextBefore content (start sel))) in *.
  set (ca := orUndefined (extractContextAfter content (end_ sel))) in *.
  set (pat := selectedText context) in *.
  unfold applyChanges. cbn [applyChanges_loop bind].
  erewrite (applyChange_at_occurrence content 0 _ _ (start sel)); cycle 1.
  { reflexivity. }
  { lia. }
  { cbn [range contextBefore contextAfter]. rewrite !Z.add_0_r.
    fold sel. fold (selectedText context). fold pat.
    rewrite findOccurrences_spec.
    rewrite (filter_seqZ_split (qualifies content pat cb ca)
               (strlen content) (start sel) ltac:(lia) Hq).
    apply list_lookup_middle.
    rewrite (filter_agree (qualifies content pat cb ca)
               (qualifies content pat None None)
               (seqZ 0 (start sel))).
    - lia.
    - intros i Hi%elem_of_seqZ. split.
      + intros (H1 & H2 & _). by apply qualifies_no_context.
      + intros [H1 H2]%qualifies_no_context. apply Hearlier; [lia|done]. }
  rewrite applyChange_positional by (repeat split).
  cbn [range ApplyChanges.operation text start end_ positional].
  rewrite !Z.add_0_r.
  change (substring content (start sel) (end_ sel)) with pat. rewrite Hlen.
  replace (start sel + (end_ sel - start sel)) with (end_ sel) by lia.
  by destruct (applyOperation content operation (start sel) (end_ sel) newText).
Qed.


Lemma smart_change_hits_selection_witness :
  determineChangeStrategy remoteEdit = ContentBased /\
  0 <= start (selection remoteEdit) < end_ (selection remoteEdit) /\
  end_ (selection remoteEdit) <= strlen (documentContent remoteEdit) /\
  (length (documentContent remoteEdit) < 12)%nat /\
  exists change,
    createSmartChange 12 (js "replace") remoteEdit (js "Howdy") = Some change /\
    applyChanges (documentContent remoteEdit) [change] =
    applyChanges (documentContent remoteEdit)
      [positional (js "replace") (start (selection remoteEdit))
         (end_ (selection remoteEdit)) (js "Howdy")].
Proof.
  assert (H1 : determineChangeStrategy remoteEdit = ContentBased)
    by (vm_compute; reflexivity).
  assert (H2 : 0 <= start (selection remoteEdit) < end_ (selection remoteEdit))
    by (vm_compute; split; [discriminate|reflexivity]).
  assert (H3 : end_ (selection remoteEdit) <=
               strlen (documentContent remoteEdit))
    by (vm_compute; discriminate).
  assert (H4 : (length (documentContent remoteEdit) < 12)%nat)
    by (vm_compute; lia).
  split; [exact H1|]. split; [exact H2|]. split; [exact H3|].
  split; [exact H4|].
  apply (smart_change_hits_selection 12 (js "replace") remoteEdit (js "Howdy")
           H1 H2 H3 H4).
  intros i Hi. simpl in Hi. lia.
Defined.

(** The step in matching mode when the occurrence number lies beyond the
    occurrences found. *)
Lemma applyChange_beyond_occurrences content offset change n :
  occurrence change = OccNumber n ->
  let occurrences :=
    findOccurrences content
      (substring content (start (range change) + offset)
         (end_ (range change) + offset))
      (contextBefore change) (contextAfter change) in
  (0 < length occurrences)%nat ->
  Z.of_nat (length occurrences) < n ->
  applyChange (content, offset) change =
  Throw (InvalidOccurrence n (length occurrences)).
Proof.
  intros Hocc occurrences H0 Hn. unfold applyChange.
  rewrite BatchSpec.usesMatching_true by (left; rewrite Hocc; discriminate).
  fold occurrences. rewrite Hocc.
  destruct (Nat.eqb_spec (length occurrences) 0); [lia|].
  destruct (Z.eqb_spec n (-1)); [lia|].
  destruct (Z.ltb_spec 0 n); [|lia].
  destruct (Z.leb_spec n (Z.of_nat (length occurrences))); [lia|].
  reflexivity.
Qed.

(** X11. When some earlier occurrence of the selected text does not have
    the extracted contexts around it, the content-based change the client
    builds does not reach the selection: the client counts every
    occurrence, the server only those that pass the contexts, so on the
    same text the server either rejects the change for its occurrence
    number or applies it at a later occurrence. *)
Theorem smart_change_misses_selection fuel operation context newText i :
  determineChangeStrategy context = ContentBased ->
  0 <= start (selection context) < end_ (selection context) ->
  end_ (selection context) <= strlen (documentContent context) ->
  (length (documentContent context) < fuel)%nat ->
  0 <= i < start (selection context) ->
  selectedText context `prefix_of`
    drop (Z.to_nat i) (documentContent context) ->
  ~ qualifies (documentContent context) (selectedText context)
      (orUndefined (extractContextBefore (documentContent context)
                      (start (selection context))))
      (orUndefined (extractContextAfter (documentContent context)
                      (end_ (selection context)))) i ->
  exists change k,
    createSmartChange fuel operation context newText = Some change /\
    occurrence change = OccNumber k /\
    (applyChange (documentContent context, 0) change =
       Throw (InvalidOccurrence k
                (qualifyingCount (documentContent context, 0) change)) \/
     exists p,
       start (selection context) < p /\
       applyChange (documentContent context, 0) change =
       let* updated :=
         applyOperation (documentContent context) operation p
           (p + strlen (selectedText context)) newText in
       Ok (updated, 0)).
Proof.
  intros Hstrategy Hs He Hfuel Hi Hmatch Hfail.
  rewrite (createSmartChange_contentBased _ _ _ _ Hstrategy Hs He Hfuel).
  eexists. eexists. split; [reflexivity|]. split; [reflexivity|].
  destruct (selection_context_facts _ _ Hs He) as (Hq & _).
  fold (selectedText context) in Hq.
  set (content := documentContent context) in *.
  set (sel := selection context) in *.
  set (cb := orUndefined (extractContextBefore content (start sel))) in *.
  set (ca := orUndefined (extractContextAfter content (end_ sel))) in *.
  set (pat := selectedText context) in *.
  set (m := length (filter (qualifies content pat None None)
                      (seqZ 0 (start sel)))).
  set (change := {| operation := operation; range := sel; text := newText;
                    occurrence := OccNumber (1 + Z.of_nat m);
                    contextBefore := cb; contextAfter := ca |}).
  assert (Hpat : substring content (start (range change) + 0)
                   (end_ (range change) + 0) = pat).
  { cbn [range change]. by rewrite !Z.add_0_r. }
  set (q := findOccurrences content pat cb ca).
  assert (Hsplit : q = filter (qualifies content pat cb ca) (seqZ 0 (start sel))
                       ++ start sel ::
                       filter (qualifies content pat cb ca)
                         (seqZ (start sel + 1)
                            (strlen content - (start sel + 1)))).
  { unfold q. rewrite findOccurrences_spec.
    apply filter_seqZ_split; [lia|done]. }
  assert (Hlt : (length (filter (qualifies content pat cb ca)
                           (seqZ 0 (start sel))) < m)%nat).
  { apply (filter_length_lt _ _ _ i).
    - intros x (H1 & H2 & _). by apply qualifies_no_context.
    - apply elem_of_seqZ. lia.
    - apply qualifies_no_context. split; [lia|done].
    - done. }
  destruct (q !! m) as [p|] eqn:Hqm.
  - right. exists p. split.
    + rewrite Hsplit in Hqm. rewrite lookup_app_r in Hqm by lia.
      destruct (m - _)%nat as [|d] eqn:Hd; [lia|]. simpl in Hqm.
      apply list_elem_of_lookup_2, list_elem_of_filter in Hqm as [_ Hin].
      apply elem_of_seqZ in Hin. lia.
    + rewrite <- Hpat.
      apply (applyChange_at_occurrence content 0 change (1 + Z.of_nat m) p);
        [reflexivity|lia|].
      rewrite Hpat. fold q.
      by replace (Z.to_nat (1 + Z.of_nat m - 1)) with m by lia.
  - left. apply lookup_ge_None in Hqm.
    unfold qualifyingCount. rewrite Hpat. fold q.
    pose proof (applyChange_beyond_occurrences content 0 change
                  (1 + Z.of_nat m) eq_refl) as Hthrow.
    cbv zeta in Hthrow. rewrite Hpat in Hthrow.
    change (findOccurrences content pat (contextBefore change)
              (contextAfter change)) with q in Hthrow.
    assert (Hpos : (0 < length q)%nat).
    { rewrite Hsplit, length_app. simpl. lia. }
    change (findOccurrences content pat (contextBefore change)
              (contextAfter change)) with q.
    apply Hthrow; lia.
Qed.

Lemma smart_change_misses_selection_witness :
  determineChangeStrategy secondOccurrence = ContentBased /\
  0 <= start (selection secondOccurrence) < end_ (selection secondOccurrence) /\
  end_ (selection secondOccurrence) <=
    strlen (documentContent secondOccurrence) /\
  (length (documentContent secondOccurrence) < 9)%nat /\
  0 <= 0 < start (selection secondOccurrence) /\
  selectedText secondOccurrence `prefix_of`
    drop (Z.to_nat 0) (documentContent secondOccurrence) /\
  exists change,
    createSmartChange 9 (js "replace") secondOccurrence (js "X") = Some change /\
    applyChange (documentContent secondOccurrence, 0) change =
    Throw (InvalidOccurrence 2 1).
Proof.
  assert (H1 : determineChangeStrategy secondOccurrence = ContentBased)
    by (vm_compute; reflexivity).
  assert (H2 : 0 <= start (selection secondOccurrence)
               < end_ (selection secondOccurrence))
    by (vm_compute; split; [discriminate|reflexivity]).
  assert (H3 : end_ (selection secondOccurrence) <=
               strlen (documentContent secondOccurrence))
    by (vm_compute; discriminate).
  assert (H4 : (length (documentContent secondOccurrence) < 9)%nat)
    by (vm_compute; lia).
  assert (H5 : 0 <= 0 < start (selection secondOccurrence))
    by (vm_compute; split; [discriminate|reflexivity]).
  assert (H6 : selectedText secondOccurrence `prefix_of`
                 drop (Z.to_nat 0) (documentContent secondOccurrence))
    by (exists (js " cb ab"); reflexivity).
  assert (H7 : ~ qualifies (documentContent secondOccurrence)
      (selectedText secondOccurrence)
      (orUndefined (extractContextBefore (documentContent secondOccurrence)
                      (start (selection secondOccurrence))))
      (orUndefined (extractContextAfter (documentContent secondOccurrence)
                      (end_ (selection secondOccurrence)))) 0).
  { intros (_ & _ & Hsuffix & _). apply suffix_length in Hsuffix.
    vm_compute in Hsuffix. lia. }
  split; [exact H1|]. split; [exact H2|]. split; [exact H3|].
  split; [exact H4|]. split; [exact H5|]. split; [exact H6|].
  destruct (smart_change_misses_selection 9 (js "replace") secondOccurrence
              (js "X") 0 H1 H2 H3 H4 H5 H6 H7)
    as (change & k & Hchange & Hk & _).
  exists change. split; [exact Hchange|].
  vm_compute in Hchange. injection Hchange as <-. vm_compute. reflexivity.
Defined.

End SmartChangeSpec.

(** ** Find and replace, and the explanation of the strategy *)

Module FindReplaceSpec.
Import ApplyChanges ChangeStrategy SmartChange Batch.
Import JsStringFacts ApplyChangesFacts ApplyChangesSpec ChangeStrategySpec.

(** A search from index 0 that finds the pattern: the index is the
    leftmost position where the pattern occurs. *)
Lemma indexOf_first content pat :
  indexOf content pat 0 <> -1 ->
  let p := indexOf content pat 0 in
  0 <= p <= strlen content /\
  pat `prefix_of` drop (Z.to_nat p) content /\
  forall i, 0 <= i < p -> ~ pat `prefix_of` drop (Z.to_nat i) content.
Proof.
  intros Hfound p. pose proof (strlen_nonneg content).
  destruct (indexOf_spec content pat 0 ltac:(lia)) as [[Hn _]|H1]; [done|].
  exact H1.
Qed.

(** The sample range of an occurrence at [p] reads the pattern back. *)
Lemma substring_occurrence content pat p :
  0 <= p <= strlen content ->
  pat `prefix_of` drop (Z.to_nat p) content ->
  substring content p (p + strlen pat) = pat.
Proof.
  intros Hp [rest Hrest].
  assert (Hlen : p + strlen pat <= strlen content).
  { apply (f_equal length) in Hrest.
    rewrite length_drop, length_app in Hrest. unfold strlen in *. lia. }
  pose proof (strlen_nonneg pat).
  rewrite substring_slice by lia.
  rewrite Hrest. replace (p + strlen pat - p) with (strlen pat) by lia.
  unfold strlen. rewrite Nat2Z.id. by rewrite take_app_length.
Qed.

Lemma substring_occurrence_inside content pat p :
  0 <= p < strlen content ->
  pat `prefix_of` drop (Z.to_nat p) content ->
  p + strlen pat <= strlen content.
Proof.
  intros Hp [rest Hrest].
  apply (f_equal length) in Hrest.
  rewrite length_drop, length_app in Hrest. unfold strlen in *. lia.
Qed.

(** X12. For a non-empty text, [createFindReplaceChange] in mode 'first'
    throws exactly when the search text does not occur; otherwise the
    change it builds, applied by the server to the same text, replaces the
    leftmost occurrence and nothing else. *)
Theorem find_replace_first_replaces_leftmost content searchText replaceText :
  content <> [] ->
  match createFindReplaceChange content searchText replaceText First with
  | Throw e =>
      e = TextNotFound searchText /\
      forall i, 0 <= i <= strlen content ->
                ~ searchText `prefix_of` drop (Z.to_nat i) content
  | Ok change =>
      exists p,
        0 <= p < strlen content /\
        searchText `prefix_of` drop (Z.to_nat p) content /\
        (forall i, 0 <= i < p ->
                   ~ searchText `prefix_of` drop (Z.to_nat i) content) /\
        applyChanges content [change] =
        Ok (take (Z.to_nat p) content ++ replaceText ++
            drop (Z.to_nat p + length searchText) content)
  end.
Proof.
  intros Hne. unfold createFindReplaceChange.
  pose proof (strlen_nonneg content) as Hlen0.
  assert (Hpos : 0 < strlen content).
  { unfold strlen. destruct content; [done|simpl; lia]. }
  destruct (Z.eqb_spec (indexOf content searchText 0) (-1)) as [Hm|Hm].
  - split; [done|].
    destruct (indexOf_spec content searchText 0 ltac:(lia)) as [[_ Hn]|[Hr _]];
      [exact Hn|lia].
  - destruct (indexOf_first content searchText Hm) as (Hr & Hp & Hmin).
    pose proof (indexOf_inside content searchText 0 ltac:(lia) Hm) as Hin.
    set (p := indexOf content searchText 0) in *.
    exists p. split; [lia|]. split; [exact Hp|]. split; [exact Hmin|].
    pose proof (substring_occurrence content searchText p ltac:(lia) Hp) as Hs.
    pose proof (substring_occurrence_inside content searchText p
                  ltac:(lia) Hp) as Hfit.
    pose proof (strlen_nonneg searchText) as Hsn.
    unfold applyChanges. cbn [applyChanges_loop].
    erewrite (SmartChangeSpec.applyChange_at_occurrence content 0 _ 1 p);
      [|reflexivity|lia|].
    + cbn [operation range text start end_].
      rewrite !Z.add_0_r, Hs.
      unfold applyOperation. rewrite bool_decide_eq_true_2 by reflexivity.
      cbn [bind fst]. rewrite substring_0, substringFrom_drop.
      rewrite !clampIndex_id by lia.
      replace (Z.to_nat (p + strlen searchText))
        with (Z.to_nat p + length searchText)%nat by (unfold strlen; lia).
      reflexivity.
    + cbn [range contextBefore contextAfter start end_].
      rewrite !Z.add_0_r, Hs. rewrite findOccurrences_spec.
      rewrite (SmartChangeSpec.filter_seqZ_split _ (strlen content) p);
        [|lia|apply SmartChangeSpec.qualifies_no_context; split; [lia|done]].
      rewrite filter_none; [reflexivity|].
      apply Forall_forall. intros i Hi%elem_of_seqZ Hq.
      apply SmartChangeSpec.qualifies_no_context in Hq as [_ Hq].
      apply (Hmin i); [lia|done].
Qed.

Lemma find_replace_first_replaces_leftmost_witness :
  js "foo bar foo" <> [] /\
  exists p,
    0 <= p < strlen (js "foo bar foo") /\
    js "foo" `prefix_of` drop (Z.to_nat p) (js "foo bar foo") /\
    (forall i, 0 <= i < p ->
               ~ js "foo" `prefix_of` drop (Z.to_nat i) (js "foo bar foo")) /\
    applyChanges (js "foo bar foo")
      [ {| operation := js "replace"; range := {| start := 0; end_ := 3 |};
           text := js "qux"; occurrence := OccNumber 1;
           contextBefore := None; contextAfter := None |} ] =
    Ok (take (Z.to_nat p) (js "foo bar foo") ++ js "qux" ++
        drop (Z.to_nat p + length (js "foo")) (js "foo bar foo")).
Proof.
  assert (Hne : js "foo bar foo" <> []) by discriminate.
  split; [exact Hne|].
  exact (find_replace_first_replaces_leftmost (js "foo bar foo") (js "foo")
           (js "qux") Hne).
Defined.

(** Applying at the positions of two lists, one list after the other. *)
Lemma applyAtEach_app content operation l1 l2 len text :
  applyAtEach content operation (l1 ++ l2) len text =
  let* updated := applyAtEach content operation l1 len text in
  applyAtEach updated operation l2 len text.
Proof.
  revert content. induction l1 as [|p l1 IH]; intros content; [done|].
  simpl. destruct (applyOperation content operation p (p + len) text);
    [apply IH|done].
Qed.

Lemma ordered_replacements from len content text l :
  0 <= len ->
  StronglySorted Z.lt l ->
  Forall (fun p => from <= p /\ p + len <= strlen content) l ->
  (forall i j, i ∈ l -> j ∈ l -> i < j -> i + len <= j) ->
  from <= strlen content ->
  ordered from (strlen content)
    (map (fun p => positional (js "replace") p (p + len) text) l).
Proof.
  intros Hlen Hs. revert from.
  induction Hs as [|p l Hl IH Hp]; intros from Hall Hgap Hfrom; [done|].
  rewrite Forall_cons in Hall. destruct Hall as [[H1 H2] Hall].
  cbn [map ordered].
  change (editOf (positional (js "replace") p (p + len) text))
    with (p, p + len, text).
  cbv beta iota.
  split; [done|]. split; [lia|].
  apply IH;
    [|intros i j Hi Hj Hij; apply Hgap; [by constructor|by constructor|done]
     |lia].
  apply Forall_forall. intros j Hj.
  pose proof (proj1 (Forall_forall _ _) Hp j Hj) as Hpj.
  pose proof (proj1 (Forall_forall _ _) Hall j Hj) as Hallj.
  cbv beta in Hpj, Hallj.
  split; [|lia]. apply Hgap; [by constructor|by constructor|lia].
Qed.

Lemma applyAtEach_descending content len text l from :
  0 <= len -> 0 <= from ->
  ordered from (strlen content)
    (map (fun p => positional (js "replace") p (p + len) text) l) ->
  applyAtEach content (js "replace") (rev l) len text =
  Ok (take (Z.to_nat from) content ++
      simultaneous content from
        (map (fun p => positional (js "replace") p (p + len) text) l)).
Proof.
  intros Hlen. revert from.
  induction l as [|p l IH]; intros from Hfrom Hord.
  - simpl. by rewrite take_drop.
  - cbn [map ordered simultaneous rev] in *.
    change (editOf (positional (js "replace") p (p + len) text))
      with (p, p + len, text) in *.
    cbv beta iota in Hord |- *.
    destruct Hord as (H1 & H2 & Hrest).
    pose proof (BatchSpec.ordered_le _ _ _ Hrest) as Hfit.
    rewrite applyAtEach_app, (IH (p + len)) by (done || lia).
    cbn [bind applyAtEach]. unfold applyOperation.
    rewrite bool_decide_eq_true_2 by reflexivity. cbn [bind].
    set (rest := simultaneous _ _ _).
    set (mid := take (Z.to_nat (p + len)) content ++ rest).
    assert (Hmid : p + len <= strlen mid).
    { unfold mid. rewrite strlen_app. unfold strlen in *.
      rewrite length_take. lia. }
    rewrite substring_0, substringFrom_drop.
    rewrite !clampIndex_id by lia.
    f_equal. unfold mid.
    rewrite take_app, drop_app.
    rewrite take_take, length_take.
    rewrite (drop_ge (take _ _)) by (rewrite length_take; unfold strlen in *; lia).
    replace (Z.to_nat p `min` Z.to_nat (p + len))%nat with (Z.to_nat p) by lia.
    replace (Z.to_nat p - _)%nat with 0%nat by (unfold strlen in *; lia).
    replace (Z.to_nat (p + len) - _)%nat with 0%nat by (unfold strlen in *; lia).
    simpl. rewrite app_nil_r.
    rewrite <- (take_drop (Z.to_nat from) (take (Z.to_nat p) content)) at 1.
    rewrite take_take, <- app_assoc. 
    replace (Z.to_nat from `min` Z.to_nat p)%nat with (Z.to_nat from) by lia.
    f_equal. rewrite take_drop_commute.
    replace (Z.to_nat from + Z.to_nat (p - from))%nat with (Z.to_nat p) by lia.
    reflexivity.
Qed.

(** X13. When the occurrences of the search text do not overlap, the
    'all' change of [createFindReplaceChange] is applied by the server as
    the batch of positional replacements at every occurrence, written
    against the original text: the text between the occurrences is kept
    and each occurrence is replaced. *)
Theorem replace_all_is_simultaneous content searchText replaceText change :
  content <> [] ->
  createFindReplaceChange content searchText replaceText All = Ok change ->
  (forall i j,
     0 <= i < j -> j < i + strlen searchText ->
     searchText `prefix_of` drop (Z.to_nat i) content ->
     ~ searchText `prefix_of` drop (Z.to_nat j) content) ->
  let occurrences := findOccurrences content searchText None None in
  let replacements :=
    map (fun p => positional (js "replace") p (p + strlen searchText)
                    replaceText) occurrences in
  occurrences <> [] /\
  applyChanges content [change] = Ok (simultaneous content 0 replacements) /\
  applyChanges content replacements =
    Ok (simultaneous content 0 replacements).
Proof.
  intros Hne Hcreate Hgap occurrences replacements.
  unfold createFindReplaceChange in Hcreate.
  pose proof (strlen_nonneg content) as Hlen0.
  pose proof (strlen_nonneg searchText) as Hsn.
  assert (Hpos : 0 < strlen content).
  { unfold strlen. destruct content; [done|simpl; lia]. }
  destruct (Z.eqb_spec (indexOf content searchText 0) (-1)) as [Hm|Hm];
    [done|].
  injection Hcreate as <-.
  destruct (indexOf_first content searchText Hm) as (Hr & Hp & Hmin).
  pose proof (indexOf_inside content searchText 0 ltac:(lia) Hm) as Hin.
  set (p := indexOf content searchText 0) in *.
  pose proof (substring_occurrence content searchText p ltac:(lia) Hp) as Hs.
  assert (Hocc : p ∈ occurrences).
  { unfold occurrences. rewrite findOccurrences_spec.
    apply list_elem_of_filter. split.
    - apply SmartChangeSpec.qualifies_no_context. split; [lia|done].
    - apply elem_of_seqZ. lia. }
  assert (Hnonempty : occurrences <> []).
  { intros E. rewrite E in Hocc. by apply elem_of_nil in Hocc. }
  assert (Hord : ordered 0 (strlen content) replacements).
  { apply ordered_replacements; [lia| | | |lia].
    - apply findOccurrences_sorted.
    - apply Forall_forall. intros i Hi.
      unfold occurrences in Hi. rewrite findOccurrences_spec in Hi.
      apply list_elem_of_filter in Hi as [Hq Hi].
      apply SmartChangeSpec.qualifies_no_context in Hq as [Hq1 Hq2].
      split; [lia|]. by apply substring_occurrence_inside.
    - intros i j Hi Hj Hij.
      unfold occurrences in Hi, Hj. rewrite findOccurrences_spec in Hi, Hj.
      apply list_elem_of_filter in Hi as [Hqi _].
      apply list_elem_of_filter in Hj as [Hqj _].
      apply SmartChangeSpec.qualifies_no_context in Hqi as [Hi1 Hi2].
      apply SmartChangeSpec.qualifies_no_context in Hqj as [Hj1 Hj2].
      destruct (Z.le_gt_cases (i + strlen searchText) j) as [|Hlt]; [done|].
      exfalso. apply (Hgap i j); [lia|lia|done|done]. }
  split; [exact Hnonempty|]. split.
  - unfold applyChanges. cbn [applyChanges_loop]. unfold applyChange.
    rewrite BatchSpec.usesMatching_true by (left; discriminate).
    cbn [range contextBefore contextAfter start end_ occurrence operation
         text].
    rewrite !Z.add_0_r, Hs. fold occurrences.
    destruct (Nat.eqb_spec (length occurrences) 0) as [E|_].
    { destruct occurrences; [done|discriminate]. }
    rewrite Z.eqb_refl.
    match goal with
    | |- context [applyAtEach content ?op _ _ _] =>
        change op with (js "replace")
    end.
    rewrite (applyAtEach_descending content (strlen searchText) replaceText
               occurrences 0) by (lia || exact Hord).
    reflexivity.
  - destruct (BatchSpec.batch_loop content [] 0 replacements) as [offset H];
      [|lia|exact Hord|].
    + apply Forall_forall. intros c Hc.
      apply list_elem_of_fmap in Hc as (q & -> & _).
      split; [done|]. by left.
    + unfold applyChanges.
      change (content, 0)
        with ([] ++ drop (Z.to_nat 0) content, strlen [] - 0).
      rewrite H. reflexivity.
Qed.

Lemma replace_all_is_simultaneous_witness :
  js "one two one" <> [] /\
  applyChanges (js "one two one")
    [ {| operation := js "replace"; range := {| start := 0; end_ := 3 |};
         text := js "1"; occurrence := OccNumber (-1);
         contextBefore := None; contextAfter := None |} ] =
  Ok (js "1 two 1").
Proof.
  assert (Hne : js "one two one" <> []) by discriminate.
  split; [exact Hne|].
  refine (proj1 (proj2 (replace_all_is_simultaneous (js "one two one")
                          (js "one") (js "1") _ Hne eq_refl _))).
  intros i j Hij Hj Hpi Hpj.
  assert (Hi : i = 0 \/ i = 1 \/ i = 2 \/ i = 3 \/ i = 4 \/ i = 5 \/ i = 6 \/
               i = 7 \/ i = 8 \/ 9 <= i) by lia.
  change (strlen (js "one")) with 3 in Hj.
  assert (Hj' : j = i + 1 \/ j = i + 2) by lia.
  destruct Hi as [->|[->|[->|[->|[->|[->|[->|[->|[->|Hi]]]]]]]]];
    try (destruct Hj' as [-> | ->]; destruct Hpj as [r Hr];
         vm_compute in Hr; discriminate);
    try (destruct Hpi as [r Hr]; vm_compute in Hr; discriminate).
  destruct Hpi as [r Hr]. apply (f_equal length) in Hr.
  rewrite length_drop, length_app in Hr. simpl in Hr. lia.
Defined.

(** X14. [explainStrategy] and [determineChangeStrategy] agree: the
    explanation is the range-based one exactly when the strategy is
    range-based, so a content-based decision is always explained by one of
    its five reasons. *)
Theorem explanation_agrees_with_strategy context :
  explainStrategy context = DirectPositionEdit <->
  determineChangeStrategy context = RangeBased.
Proof.
  unfold explainStrategy.
  destruct (determineChangeStrategy context) eqn:Hs; [done|].
  split; [|done]. intros He. exfalso. revert Hs He.
  unfold determineChangeStrategy.
  destruct (strlen (selectedText context) =? 0); [done|].
  destruct (truthyFlag (hasRecentRemoteChanges context)); [done|].
  destruct (atLeast (queueLength context) _); [done|].
  destruct (atLeast (timeSinceLastSync context) _); [done|].
  change STRATEGY_CONFIG.DUPLICATE_THRESHOLD with 1.
  destruct (1 <? countOccurrences _ _); [done|].
  destruct (truthyFlag (isCollaborative context)); done.
Qed.

End FindReplaceSpec.

(** ** Sequences of service calls *)

Module ServiceCallsSpec.
Import ApplyChanges Validation DocumentService ServiceCalls.
Import DocumentServiceSpec.

Section Calls.

Variable generateETag : jsstring -> Z -> Z -> jsstring.

Lemma applyChangesToDocument_missing st id changes ev ee now :
  documents st !! id = None ->
  Forall (fun c => isValidChange (toValue c) = true) changes ->
  applyChangesToDocument generateETag id changes ev ee now st =
  (st, Throw notFound).
Proof.
  intros Hdoc Hvalid.
  unfold applyChangesToDocument, withErrorHandling, mbind, findUnique.
  rewrite validateAll_valid by done. by rewrite Hdoc.
Qed.

Lemma applyChangesToDocument_invalid st id changes ev ee now :
  ~ Forall (fun c => isValidChange (toValue c) = true) changes ->
  applyChangesToDocument generateETag id changes ev ee now st =
  (st, Throw (ThrownApp {| statusCode := 400;
                           message := InvalidChangeFormat |})).
Proof.
  intros Hinvalid.
  unfold applyChangesToDocument, withErrorHandling, mbind.
  rewrite validateAll_invalid; [done|].
  apply not_Forall_Exists in Hinvalid; [|intros c; apply _].
  eapply Exists_impl; [exact Hinvalid|].
  intros c Hc. simpl in Hc. by destruct (isValidChange (toValue c)).
Qed.

Lemma updateDocument_missing st id dataContent ev ee now :
  documents st !! id = None ->
  updateDocument generateETag id dataContent ev ee now st =
  (st, Throw notFound).
Proof.
  intros Hdoc. unfold updateDocument, withErrorHandling, mbind, findUnique.
  by rewrite Hdoc.
Qed.

Lemma publishDocument_missing st id now :
  documents st !! id = None ->
  publishDocument generateETag id now st = (st, Throw notFound).
Proof.
  intros Hdoc. unfold publishDocument, withErrorHandling, mbind, findUnique.
  by rewrite Hdoc.
Qed.

Lemma publishDocument_taken st id doc now :
  documents st !! id = Some doc ->
  ~ unpublished st id (version doc) ->
  publishDocument generateETag id now st =
  (st, Throw (failed "Failed to publish document")).
Proof.
  intros Hdoc Htaken.
  unfold publishDocument, withErrorHandling, mbind, findUnique.
  rewrite Hdoc. unfold transaction, mbind, createVersion.
  rewrite bool_decide_eq_true_2; [reflexivity|].
  unfold unpublished in Htaken.
  apply not_Forall_Exists in Htaken; [|intros v; apply _].
  eapply Exists_impl; [exact Htaken|].
  intros v Hv. simpl in *.
  destruct (decide (snapshotDocumentId v = id /\
                    snapshotVersion v = version doc)); [done|].
  by exfalso.
Qed.

Lemma serve_outcome call st : outcome call st (serve generateETag call st).
Proof.
  destruct call as [id changes ev ee now|id dataContent ev ee now|id now];
    cbn [serve].
  - destruct (decide (Forall (fun c => isValidChange (toValue c) = true)
                        changes)) as [Hvalid|Hinvalid].
    2:{ rewrite applyChangesToDocument_invalid by done.
        constructor. by left. }
    destruct (documents st !! id) as [doc|] eqn:Hdoc.
    2:{ rewrite applyChangesToDocument_missing by done.
        constructor. right. by left. }
    rewrite (applyChangesToDocument_run _ _ _ _ _ _ _ _ Hdoc Hvalid).
    destruct (decide (versionDiffers ev doc));
      [constructor; right; right; by left|].
    destruct (decide (etagDiffers ee doc));
      [constructor; right; right; by left|].
    destruct (applyChanges (content doc) changes) as [updatedContent|err].
    + cbv zeta.
      eapply (Served (Patch id changes ev ee now) st doc); [done|done|].
      by left.
    + constructor. by do 3 right.
  - destruct (documents st !! id) as [doc|] eqn:Hdoc.
    2:{ rewrite updateDocument_missing by done.
        constructor. right. by left. }
    rewrite (updateDocument_run _ _ _ _ _ _ _ _ Hdoc).
    destruct (decide (versionDiffers ev doc));
      [constructor; right; right; by left|].
    destruct (decide (etagDiffers ee doc));
      [constructor; right; right; by left|].
    cbv zeta.
    eapply (Served (Put id dataContent ev ee now) st doc); [done|done|].
    by left.
  - destruct (documents st !! id) as [doc|] eqn:Hdoc.
    2:{ rewrite publishDocument_missing by done.
        constructor. right. by left. }
    destruct (decide (unpublished st id (version doc))) as [Hfree|Htaken].
    + rewrite (publishDocument_run _ _ _ _ _ Hdoc Hfree).
      eapply (Served (Publish id now) st doc); [done|done|].
      right. exists now. done.
    + rewrite (publishDocument_taken _ _ _ _ Hdoc Htaken).
      constructor. by do 3 right.
Qed.

(** X15. A call of the patch, the full update or the publication that
    fails leaves the store exactly as it was, and what it throws is an
    [AppError] with status 400, 404, 409 or 500; a call that succeeds
    replaces the one document it addresses by the record it returns and
    only appends to the change and snapshot tables. *)
Theorem failed_call_changes_nothing call st :
  match serve generateETag call st with
  | (st', Throw e) =>
      st' = st /\
      exists code message,
        e = ThrownApp {| statusCode := code; message := message |} /\
        (code = 400 \/ code = 404 \/ code = 409 \/ code = 500)
  | (st', Ok d) =>
      documents st' = <[target call := d]> (documents st) /\
      versions st `prefix_of` versions st' /\
      changes st `prefix_of` changes st'
  end.
Proof.
  destruct (serve_outcome call st) as [code message Hcode|doc d rows snaps _ _ _].
  - split; [done|]. by exists code, message.
  - split; [done|]. split; by eexists.
Qed.

(** A call that succeeds leaves its record under its key; only a
    publication changes the version. *)
Lemma serve_Ok call st st1 d1 :
  serve generateETag call st = (st1, Ok d1) ->
  exists doc,
    documents st !! target call = Some doc /\
    documents st1 = <[target call := d1]> (documents st) /\
    documents st1 !! target call = Some d1 /\
    version d1 = (if publishes call then version doc + 1 else version doc).
Proof.
  intros Hserve. pose proof (serve_outcome call st) as Hout.
  rewrite Hserve in Hout.
  inversion Hout as [|doc d rows snaps Hdoc Hid Hcase Hst]; subst.
  exists doc. split; [done|]. split; [done|].
  split; [simpl; by rewrite lookup_insert_eq|].
  destruct Hcase as [(-> & _ & Hv)|(now & -> & _ & _ & Hv & _)]; done.
Qed.

(** X16. A request that carries the etag a document had before another
    request was served is refused: once a patch, a full update or a
    publication has succeeded and given the document a different etag, a
    patch or a full update with the old etag as precondition (and a
    version precondition that passes, or none) fails with the etag
    mismatch, status 409, and writes nothing. *)
Theorem stale_etag_is_refused call st st1 doc d1 changes dataContent
    expectedVersion now :
  documents st !! target call = Some doc ->
  serve generateETag call st = (st1, Ok d1) ->
  etag d1 <> etag doc ->
  Forall (fun c => isValidChange (toValue c) = true) changes ->
  ~ versionDiffers expectedVersion d1 ->
  applyChangesToDocument generateETag (target call) changes expectedVersion
    (Some (etag doc)) now st1 = (st1, Throw (conflict ETagMismatch)) /\
  updateDocument generateETag (target call) dataContent expectedVersion
    (Some (etag doc)) now st1 = (st1, Throw (conflict ETagMismatch)).
Proof.
  intros Hdoc Hserve Hetag Hvalid Hversion.
  destruct (serve_Ok _ _ _ _ Hserve) as (doc' & _ & _ & Hd1 & _).
  assert (Hdiff : etagDiffers (Some (etag doc)) d1).
  { exists (etag doc). split; [done|]. congruence. }
  split.
  - rewrite (applyChangesToDocument_run _ _ _ _ _ _ _ _ Hd1 Hvalid).
    rewrite decide_False by done. by rewrite decide_True.
  - rewrite (updateDocument_run _ _ _ _ _ _ _ _ Hd1).
    rewrite decide_False by done. by rewrite decide_True.
Qed.

(** X17. The version precondition sees publications only. After a patch
    or a full update has succeeded, a patch that expects the version the
    document had before is served as if nothing had happened in between:
    the version is unchanged and the outcome is that of the write alone,
    on the content the first request left. After a publication the same
    patch fails with the version conflict. *)
Theorem version_guard_sees_publications_only call st st1 doc d1 changes now :
  documents st !! target call = Some doc ->
  serve generateETag call st = (st1, Ok d1) ->
  Forall (fun c => isValidChange (toValue c) = true) changes ->
  let second :=
    applyChangesToDocument generateETag (target call) changes
      (Some (version doc)) None now st1 in
  match call with
  | Publish _ _ =>
      second =
      (st1, Throw (conflict (VersionConflict (version doc) (version doc + 1))))
  | _ =>
      version d1 = version doc /\
      second =
      match applyChanges (content d1) changes with
      | Throw _ => (st1, Throw (failed "Failed to apply changes to document"))
      | Ok updatedContent =>
          let d := updated d1 updatedContent (version doc)
                     (generateETag updatedContent (version doc) now) in
          (written st1 (target call) d (changeRow (target call) <$> changes) [],
           Ok d)
      end
  end.
Proof.
  intros Hdoc Hserve Hvalid second.
  destruct (serve_Ok _ _ _ _ Hserve) as (doc' & Hdoc' & _ & Hd1 & Hv).
  rewrite Hdoc in Hdoc'. injection Hdoc' as <-.
  unfold second.
  rewrite (applyChangesToDocument_run _ _ _ _ _ _ _ _ Hd1 Hvalid).
  assert (Hsame : version d1 = version doc ->
                  ~ versionDiffers (Some (version doc)) d1).
  { intros E (v & [= <-] & Hne). congruence. }
  assert (Hnone : ~ etagDiffers None d1) by (intros (e & ? & _); done).
  destruct call as [id cs ev ee n|id dc ev ee n|id n]; cbn [publishes] in Hv.
  - split; [done|].
    rewrite decide_False by auto. rewrite decide_False by done.
    by rewrite Hv.
  - split; [done|].
    rewrite decide_False by auto. rewrite decide_False by done.
    by rewrite Hv.
  - rewrite decide_True; [by rewrite Hv|].
    exists (version doc). split; [done|]. lia.
Qed.

(** The snapshot table grows at its end only, so a key that is found
    stays found, with the same row. *)
Lemma findUniqueVersion_app id version st st' snapshot :
  versions st `prefix_of` versions st' ->
  findUniqueVersion id version st = Some snapshot ->
  findUniqueVersion id version st' = Some snapshot.
Proof.
  intros [more Hmore]. unfold findUniqueVersion. rewrite Hmore, filter_app.
  destruct (filter _ (versions st)); [done|]. done.
Qed.

Lemma serve_versions call st :
  versions st `prefix_of` versions (serve generateETag call st).1.
Proof.
  destruct (serve_outcome call st); simpl; [done|]. by eexists.
Qed.

Lemma serveAll_versions calls st :
  versions st `prefix_of` versions (serveAll generateETag calls st).
Proof.
  revert st. induction calls as [|call calls IH]; intros st; [done|].
  simpl. etrans; [apply (serve_versions call)|apply IH].
Qed.

(** X18. A published snapshot can be read back and is never changed:
    after a publication that succeeds, [getDocumentVersion] returns, for
    the version published, the content the document had at that moment,
    and it still does after any further sequence of patches, updates and
    publications, of this or of other documents. *)
Theorem published_snapshot_is_kept st id doc now calls :
  documents st !! id = Some doc ->
  unpublished st id (version doc) ->
  let published := (publishDocument generateETag id now st).1 in
  getDocumentVersion id (version doc) (serveAll generateETag calls published) =
  Ok {| snapshotDocumentId := id; snapshotVersion := version doc;
        snapshotContent := content doc |}.
Proof.
  intros Hdoc Hfree published. unfold getDocumentVersion.
  erewrite findUniqueVersion_app; [reflexivity|apply serveAll_versions|].
  unfold published. rewrite (publishDocument_run _ _ _ _ _ Hdoc Hfree).
  unfold findUniqueVersion. simpl. rewrite filter_app.
  rewrite ApplyChangesFacts.filter_none.
  2:{ unfold unpublished in Hfree. done. }
  simpl. rewrite filter_cons_True by done. reflexivity.
Qed.

(** Every call keeps the snapshots below the working versions. *)
Lemma serve_snapshotsBelow call st :
  snapshotsBelow st -> snapshotsBelow (serve generateETag call st).1.
Proof.
  intros Hinv.
  destruct (serve_outcome call st) as [|doc d rows snaps Hdoc Hid Hcase];
    [done|].
  simpl. intros v d' Hv Hd'. simpl in *.
  destruct Hcase as [(_ & -> & Hver)|(now & _ & _ & -> & Hver & _)].
  - rewrite app_nil_r in Hv.
    destruct (decide (target call = snapshotDocumentId v)) as [E|Hne].
    + rewrite E, lookup_insert_eq in Hd'. injection Hd' as <-.
      rewrite E in Hdoc. specialize (Hinv v doc Hv Hdoc). lia.
    + rewrite lookup_insert_ne in Hd' by done. by apply Hinv.
  - apply elem_of_app in Hv as [Hv|Hv%list_elem_of_singleton].
    + destruct (decide (target call = snapshotDocumentId v)) as [E|Hne].
      * rewrite E, lookup_insert_eq in Hd'. injection Hd' as <-.
        rewrite E in Hdoc. specialize (Hinv v doc Hv Hdoc). lia.
      * rewrite lookup_insert_ne in Hd' by done. by apply Hinv.
    + subst v. simpl in *. rewrite lookup_insert_eq in Hd'.
      injection Hd' as <-. lia.
Qed.

Lemma serveAll_snapshotsBelow calls st :
  snapshotsBelow st -> snapshotsBelow (serveAll generateETag calls st).
Proof.
  revert st. induction calls as [|call calls IH]; intros st Hinv; [done|].
  simpl. apply IH. by apply serve_snapshotsBelow.
Qed.

(** X19. Publication never runs into the unique key of the snapshot
    table: from a store in which every snapshot lies below the working
    version of its document, that stays so after any sequence of calls,
    and publishing then succeeds for every document that exists, with one
    new snapshot and the version increased by one, and fails with status
    404 for one that does not. *)
Theorem publication_never_collides st calls id now :
  snapshotsBelow st ->
  let st' := serveAll generateETag calls st in
  snapshotsBelow st' /\
  publishDocument generateETag id now st' =
  match documents st' !! id with
  | Some doc =>
      let d := updated doc (content doc) (version doc + 1)
                 (generateETag (content doc) (version doc + 1) now) in
      (written st' id d []
         [{| snapshotDocumentId := id; snapshotVersion := version doc;
             snapshotContent := content doc |}], Ok d)
  | None => (st', Throw notFound)
  end.
Proof.
  intros Hinv st'.
  assert (Hinv' : snapshotsBelow st') by by apply serveAll_snapshotsBelow.
  split; [done|].
  destruct (documents st' !! id) as [doc|] eqn:Hdoc.
  - apply publishDocument_run; [done|].
    by apply snapshotsBelow_unpublished.
  - by apply publishDocument_missing.
Qed.

(** The working version after one call. *)
Lemma serve_version call st id doc :
  snapshotsBelow st ->
  documents st !! id = Some doc ->
  exists doc',
    documents (serve generateETag call st).1 !! id = Some doc' /\
    version doc' =
    version doc +
    (if bool_decide (publishes call = true /\ target call = id) then 1 else 0).
Proof.
  intros Hinv Hdoc.
  destruct (decide (publishes call = true /\ target call = id)) as [[Hp Ht]|Hn].
  - rewrite bool_decide_eq_true_2 by done.
    destruct call as [| |id' now]; [done|done|]. simpl in Ht. subst id'.
    cbn [serve].
    rewrite (publishDocument_run _ _ _ _ _ Hdoc
               (snapshotsBelow_unpublished _ _ _ Hinv Hdoc)).
    eexists. split; [simpl; by rewrite lookup_insert_eq|]. reflexivity.
  - rewrite bool_decide_eq_false_2 by done. rewrite Z.add_0_r.
    destruct (serve_outcome call st) as [|doc0 d rows snaps Hdoc0 Hid Hcase].
    + by exists doc.
    + simpl. destruct (decide (target call = id)) as [E|Hne].
      * rewrite E, lookup_insert_eq. exists d. split; [done|].
        rewrite E, Hdoc in Hdoc0. injection Hdoc0 as <-.
        destruct Hcase as [(_ & _ & Hv)|(now & Hc & _)]; [done|].
        exfalso. apply Hn. split; [|done]. by rewrite Hc.
      * rewrite lookup_insert_ne by done. by exists doc.
Qed.

(** X20. Only publications move the working version, and each moves it
    by one: from a store in which every snapshot lies below the working
    version of its document, after any sequence of calls a document is
    still there and its version is the one it had plus the number of
    publications of it in the sequence, however many patches and updates
    were served or refused in between. *)
Theorem version_counts_publications st calls id doc :
  snapshotsBelow st ->
  documents st !! id = Some doc ->
  exists doc',
    documents (serveAll generateETag calls st) !! id = Some doc' /\
    version doc' =
    version doc +
    Z.of_nat (length (filter (fun call => publishes call = true /\
                                          target call = id) calls)).
Proof.
  revert st doc. induction calls as [|call calls IH]; intros st doc Hinv Hdoc.
  - exists doc. split; [done|]. simpl. lia.
  - destruct (serve_version call st id doc Hinv Hdoc) as (doc1 & Hdoc1 & Hv1).
    destruct (IH _ doc1 (serve_snapshotsBelow call st Hinv) Hdoc1)
      as (doc' & Hdoc' & Hv').
    exists doc'. split; [exact Hdoc'|].
    rewrite Hv', Hv1. rewrite filter_cons.
    destruct (decide (publishes call = true /\ target call = id)).
    + rewrite bool_decide_eq_true_2 by done. simpl length. lia.
    + rewrite bool_decide_eq_false_2 by done. lia.
Qed.

End Calls.

Lemma exampleStore_doc1 :
  documents exampleStore !! js "doc1" = Some exampleDocument.
Proof. vm_compute. reflexivity. Qed.

Lemma exampleStore_snapshotsBelow : snapshotsBelow exampleStore.
Proof.
  intros v d Hv Hd. apply list_elem_of_singleton in Hv. subst v.
  change (documents exampleStore !! js "doc1" = Some d) in Hd.
  rewrite exampleStore_doc1 in Hd. injection Hd as <-.
  simpl. lia.
Qed.

Lemma exampleStore_unpublished :
  unpublished exampleStore (js "doc1") (version exampleDocument).
Proof. repeat constructor. simpl. intros [_ H]. discriminate. Qed.

Lemma stale_etag_is_refused_witness :
  let first := Put (js "doc1") (Some (js "Hi")) None None 7 in
  let st1 := (serve exampleETag first exampleStore).1 in
  applyChangesToDocument exampleETag (js "doc1")
    [positional (js "insert") 0 0 (js "x")] None (Some (js "abc123")) 9 st1 =
  (st1, Throw (conflict ETagMismatch)).
Proof.
  intros first st1.
  set (d1 := updated exampleDocument (js "Hi") 1 (exampleETag (js "Hi") 1 7)).
  assert (H1 : documents exampleStore !! target first = Some exampleDocument)
    by exact exampleStore_doc1.
  assert (H2 : serve exampleETag first exampleStore = (st1, Ok d1)).
  { unfold st1. cbn [serve first].
    rewrite (updateDocument_run exampleETag _ _ _ _ _ _ _ exampleStore_doc1).
    reflexivity. }
  assert (H3 : etag d1 <> etag exampleDocument) by (vm_compute; discriminate).
  assert (H4 : Forall (fun c => isValidChange (toValue c) = true)
                 [positional (js "insert") 0 0 (js "x")])
    by (repeat constructor).
  assert (H5 : ~ versionDiffers None d1) by (intros (v & ? & _); done).
  exact (proj1 (stale_etag_is_refused exampleETag first exampleStore st1
                  exampleDocument d1 _ None None 9 H1 H2 H3 H4 H5)).
Defined.

Lemma version_guard_sees_publications_only_witness :
  let first := Put (js "doc1") (Some (js "Hi")) None None 7 in
  let st1 := (serve exampleETag first exampleStore).1 in
  (applyChangesToDocument exampleETag (js "doc1")
     [positional (js "insert") 0 0 (js "x")] (Some 1) None 9 st1).2 =
  Ok (updated exampleDocument (js "xHi") 1 (exampleETag (js "xHi") 1 9)).
Proof.
  intros first st1.
  set (d1 := updated exampleDocument (js "Hi") 1 (exampleETag (js "Hi") 1 7)).
  assert (H1 : documents exampleStore !! target first = Some exampleDocument)
    by exact exampleStore_doc1.
  assert (H2 : serve exampleETag first exampleStore = (st1, Ok d1)).
  { unfold st1. cbn [serve first].
    rewrite (updateDocument_run exampleETag _ _ _ _ _ _ _ exampleStore_doc1).
    reflexivity. }
  assert (H3 : Forall (fun c => isValidChange (toValue c) = true)
                 [positional (js "insert") 0 0 (js "x")])
    by (repeat constructor).
  pose proof (version_guard_sees_publications_only exampleETag first
                exampleStore st1 exampleDocument d1 _ 9 H1 H2 H3) as [_ H].
  cbn [target first] in H.
  change (version exampleDocument) with 1 in H.
  rewrite H. reflexivity.
Defined.

Lemma published_snapshot_is_kept_witness :
  documents exampleStore !! js "doc1" = Some exampleDocument /\
  unpublished exampleStore (js "doc1") (version exampleDocument) /\
  getDocumentVersion (js "doc1") 1
    (serveAll exampleETag
       [Put (js "doc1") (Some (js "Hi")) None None 7; Publish (js "doc1") 8]
       (publishDocument exampleETag (js "doc1") 5 exampleStore).1) =
  Ok {| snapshotDocumentId := js "doc1"; snapshotVersion := 1;
        snapshotContent := js "Hello world" |}.
Proof.
  split; [exact exampleStore_doc1|]. split; [exact exampleStore_unpublished|].
  exact (published_snapshot_is_kept exampleETag exampleStore (js "doc1")
           exampleDocument 5 _ exampleStore_doc1 exampleStore_unpublished).
Defined.

Lemma publication_never_collides_witness :
  snapshotsBelow exampleStore /\
  snapshotsBelow
    (serveAll exampleETag [Publish (js "doc1") 5; Publish (js "doc1") 6]
       exampleStore).
Proof.
  split; [exact exampleStore_snapshotsBelow|].
  exact (proj1 (publication_never_collides exampleETag exampleStore
                  [Publish (js "doc1") 5; Publish (js "doc1") 6]
                  (js "doc1") 7 exampleStore_snapshotsBelow)).
Defined.

Lemma version_counts_publications_witness :
  snapshotsBelow exampleStore /\
  documents exampleStore !! js "doc1" = Some exampleDocument /\
  exists doc',
    documents
      (serveAll exampleETag
         [Publish (js "doc1") 5; Put (js "doc1") (Some (js "Hi")) None None 6;
          Publish (js "doc1") 7] exampleStore) !! js "doc1" = Some doc' /\
    version doc' = 1 + 2.
Proof.
  split; [exact exampleStore_snapshotsBelow|].
  split; [exact exampleStore_doc1|].
  exact (version_counts_publications exampleETag exampleStore
           [Publish (js "doc1") 5; Put (js "doc1") (Some (js "Hi")) None None 6;
            Publish (js "doc1") 7] (js "doc1") exampleDocument
           exampleStore_snapshotsBelow exampleStore_doc1).
Defined.

End ServiceCallsSpec.

(** ** The save round trip *)

Module ApiSpec.
Import ApplyChanges Validation DocumentService ChangeBuffer ServiceCalls Api.
Import JsStringFacts ApplyChangesSpec DocumentServiceSpec ChangeBufferSpec.

Lemma coalescedChange_applied b serverContent :
  applyChanges serverContent [coalescedChange b] =
  Ok (currentEditorContent b ++
      drop (length (lastSavedContent b)) serverContent).
Proof.
  unfold applyChanges. cbn [applyChanges_loop].
  rewrite applyChange_positional by done.
  unfold applyOperation, coalescedChange. cbn [operation range text start end_].
  rewrite bool_decide_eq_true_2 by reflexivity. cbn [bind fst].
  rewrite substring_0, substringFrom_drop.
  rewrite clampIndex_neg by lia. simpl take. simpl app.
  f_equal. f_equal. rewrite Z.add_0_r.
  pose proof (strlen_nonneg (lastSavedContent b)) as Hs.
  destruct (Z.le_gt_cases (strlen (lastSavedContent b)) (strlen serverContent)).
  - rewrite clampIndex_id by lia. unfold strlen. by rewrite Nat2Z.id.
  - rewrite clampIndex_beyond by lia.
    rewrite !drop_ge; [done| |]; unfold strlen in *; lia.
Qed.

Lemma coalescedChange_valid b :
  isValidChange (toValue (coalescedChange b)) = true.
Proof.
  apply ValidationSpec.isValidChange_toValue. split; [by left|]. done.
Qed.

(** X21. What the server makes of the one change a flush sends: the
    editor content, followed by whatever the server's text has beyond the
    length of the content last saved. The saved text is the editor
    content whenever the server's text is no longer than that baseline,
    whatever it contains. *)
Theorem coalesced_change_on_server b serverContent :
  applyChanges serverContent (requestChanges (coalescedRequest b)) =
    Ok (currentEditorContent b ++
        drop (length (lastSavedContent b)) serverContent) /\
  (strlen serverContent <= strlen (lastSavedContent b) ->
   applyChanges serverContent (requestChanges (coalescedRequest b)) =
     Ok (currentEditorContent b)) /\
  (strlen (lastSavedContent b) < strlen serverContent ->
   applyChanges serverContent (requestChanges (coalescedRequest b)) <>
     Ok (currentEditorContent b)).
Proof.
  cbn [coalescedRequest requestChanges]. rewrite coalescedChange_applied.
  split; [done|]. split.
  - intros Hle. rewrite drop_ge by (unfold strlen in *; lia).
    by rewrite app_nil_r.
  - intros Hlt [= Heq].
    apply (f_equal length) in Heq. rewrite length_app, length_drop in Heq.
    unfold strlen in *. lia.
Qed.

Lemma coalesced_change_on_server_witness :
  strlen (lastSavedContent (buffer openDocument)) < strlen (js "Hello, all") /\
  applyChanges (js "Hello, all")
    (requestChanges (coalescedRequest (buffer openDocument))) <>
  Ok (currentEditorContent (buffer openDocument)).
Proof.
  assert (H : strlen (lastSavedContent (buffer openDocument))
              < strlen (js "Hello, all")) by (vm_compute; reflexivity).
  split; [exact H|].
  exact (proj2 (proj2 (coalesced_change_on_server (buffer openDocument)
                         (js "Hello, all"))) H).
Defined.

Section Server.

Variable generateETag : jsstring -> Z -> Z -> jsstring.
Variable production : bool.
Variable messageOf : Thrown -> jsstring.
Variable reason : Z -> jsstring.

(** What a patch without version precondition can throw. *)
Lemma patch_refusals id changes ee now st st' e :
  applyChangesToDocument generateETag id changes None ee now st =
    (st', Throw e) ->
  st' = st /\
  exists code message,
    e = ThrownApp {| statusCode := code; message := message |} /\
    (code = 400 /\ message = InvalidChangeFormat \/
     code = 404 /\ message = DocumentNotFound \/
     code = 409 /\ message = ETagMismatch \/
     code = 500 /\ message = Failed "Failed to apply changes to document").
Proof.
  intros H.
  destruct (decide (Forall (fun c => isValidChange (toValue c) = true)
                      changes)) as [Hvalid|Hinvalid].
  2:{ rewrite ServiceCallsSpec.applyChangesToDocument_invalid in H by done.
      injection H as <- <-. split; [done|]. eexists _, _. split; [done|].
      by left. }
  destruct (documents st !! id) as [doc|] eqn:Hdoc.
  2:{ rewrite ServiceCallsSpec.applyChangesToDocument_missing in H by done.
      injection H as <- <-. split; [done|]. eexists _, _. split; [done|].
      right. by left. }
  rewrite (applyChangesToDocument_run _ _ _ _ _ _ _ _ Hdoc Hvalid) in H.
  destruct (decide (versionDiffers None doc)) as [(v & ? & _)|_]; [done|].
  destruct (decide (etagDiffers ee doc)).
  { injection H as <- <-. split; [done|]. eexists _, _. split; [done|].
    right. right. by left. }
  destruct (applyChanges (content doc) changes); [done|].
  injection H as <- <-. split; [done|]. eexists _, _. split; [done|].
  by do 3 right.
Qed.

Lemma orElse_undefined b : orElse None b = b.
Proof. done. Qed.

Lemma etagOrUndefined_idem e :
  etagOrUndefined (etagOrUndefined e) = etagOrUndefined e.
Proof. by destruct e as [[|]|]. Qed.

(** X22. No failed save is reported as a conflict. When the document's
    etag differs from the one the buffer sends, the server answers with
    status 409; but for every response that is not [ok] the message
    [handleApiError] throws is the server's own error text, which never
    contains "409", so the buffer takes the branch for other errors: it
    calls [onFlush(false)] only, never [onConflict], and marks the changes
    as unflushed. The store is as it was. *)
Theorem failed_save_is_never_reported_as_conflict request served now st w :
  let result :=
    applyChangesRoute generateETag production messageOf reason
      (saveDocumentChanges request) served st in
  (forall doc,
     documents st !! requestDocumentId request = Some doc ->
     Forall (fun c => isValidChange (toValue c) = true)
       (requestChanges request) ->
     etagDiffers (etagOrUndefined (requestETag request)) doc ->
     status result.2 = 409) /\
  (ok result.2 = false ->
   result.1 = st /\
   exists message,
     settles result.2 now = Some (Rejected message) /\
     includes message (js "409") = false /\
     (inFlight w <> 0%nat ->
      callbacks (step w (Rejected message)) =
        callbacks w ++ [OnFlush false None] /\
      hasUnflushedChanges (buffer (step w (Rejected message))) = true)).
Proof.
  intros result. unfold result, applyChangesRoute.
  cbn [saveDocumentChanges paramsId bodyChanges bodyExpectedVersion
       bodyExpectedETag ifMatch].
  rewrite orElse_undefined.
  split.
  - intros doc Hdoc Hvalid Hdiff.
    rewrite (applyChangesToDocument_run _ _ _ _ _ _ _ _ Hdoc Hvalid).
    destruct (decide (versionDiffers None doc)) as [(v & ? & _)|_]; [done|].
    by rewrite decide_True.
  - destruct (applyChangesToDocument _ _ _ _ _ _ _) as [st' [d|e]] eqn:Hpatch.
    { cbn [snd ok status]. done. }
    destruct (patch_refusals _ _ _ _ _ _ _ Hpatch)
      as (-> & code & message & -> & Hcases).
    cbn [fst snd errorHandler]. intros Hok. split; [done|].
    unfold settles. rewrite Hok. eexists. split; [reflexivity|].
    unfold handleApiError. cbn [json error status statusCode DocumentService.message].
    assert (Hmsg : includes (render message) (js "409") = false /\
                   render message <> []).
    { destruct Hcases as [[_ ->]|[[_ ->]|[[_ ->]|[_ ->]]]];
        split; (vm_compute; reflexivity) || discriminate. }
    destruct Hmsg as [Hinc Hne].
    destruct (render message) as [|c0 m0] eqn:Hr; [done|].
    split; [exact Hinc|]. intros Hflight.
    cbn [step]. destruct (Nat.eqb_spec (inFlight w) 0) as [|_]; [done|].
    unfold flushRejected. rewrite Hinc.
    destruct w as [[idle maxw d l r e p c s u] ts n k ds cs]. done.
Qed.

(** X23. A save from the synced state ends in the synced state. When the
    buffer is idle and holds the content and the etag of the document on
    the server, an edit followed by either of its two timers firing sends
    one request; the server accepts it and stores the editor content; and
    when the response arrives the buffer is idle again, with that content
    as saved content, the new etag, no timer set and no changes left, and
    [onFlush(true, content)] has been called once. *)
Theorem save_round_trip st w c id served now :
  synced st w ->
  id ∈ (fst <$> timers (addChange c w)) ->
  let w1 := addChange c w in
  let w2 := step w1 (TimerFires id) in
  let request := coalescedRequest (buffer w1) in
  dispatched w2 = dispatched w ++ [request] /\
  exists st' w3 doc',
    roundTrip generateETag production messageOf reason request served now
      st w2 = Some (st', w3) /\
    synced st' w3 /\
    documents st' !! documentId (buffer w) = Some doc' /\
    content doc' = c /\
    callbacks w3 = callbacks w ++ [OnFlush true (Some c)].
Proof.
  intros (doc & Hdoc & Hsaved & Hcur & Hetag & Hu & Hp & Hidle & Hmax & Hts & Hk).
  intros Hid w1 w2 request.
  destruct w as [[idle maxw d l r e p c0 s u] ts n k ds cs]. simpl in *.
  subst.
  unfold addChange in Hid, w1. simpl in Hid, w1.
  assert (Hw2 : w2 =
    {| buffer := {| idleTimeoutId := None; maxWaitTimeoutId := None;
                    documentId := d; lastSyncTime := l;
                    hasRecentRemoteChanges := r; currentETag := e;
                    isFlushInProgress := true; currentEditorContent := c;
                    lastSavedContent := content doc;
                    hasUnflushedChanges := false |};
       timers := []; nextTimerId := S (S n); inFlight := 1;
       dispatched := ds ++ [request]; callbacks := cs |}).
  { unfold w2, w1. cbn [step timers].
    rewrite bool_decide_eq_true_2 by exact Hid.
    unfold flush, clearTimeout. simpl.
    unfold send, assign, clearTimeout. simpl.
    f_equal.
    assert (Hnone : forall ts : list (nat * Z),
              (forall t, t ∈ ts -> False) -> ts = []).
    { intros [|t ts] Hts; [done|]. exfalso. apply (Hts t). left. }
    apply Hnone. intros t Ht.
    apply list_elem_of_filter in Ht as [H1 Ht].
    apply list_elem_of_filter in Ht as [H2 Ht].
    apply list_elem_of_filter in Ht as [_ Ht].
    apply elem_of_cons in Ht as [->|Ht]; [done|].
    apply list_elem_of_singleton in Ht as ->. done. }
  clearbody w2. subst w2. split; [done|].
  set (doc' := updated doc c (version doc)
                 (generateETag c (version doc) served)).
  assert (Hvalid : Forall (fun c => isValidChange (toValue c) = true)
                     (requestChanges request)).
  { constructor; [apply coalescedChange_valid|constructor]. }
  assert (Hsame : ~ etagDiffers (etagOrUndefined (requestETag request)) doc).
  { intros (e' & He' & Hne). unfold request in He'.
    cbn [coalescedRequest requestETag] in He'.
    rewrite etagOrUndefined_idem in He'.
    change (currentETag (buffer w1)) with e in He'.
    destruct Hetag as [Hcur|Hnone]; [|by rewrite Hnone in He'].
    rewrite Hcur in He'. simpl in He'.
    destruct (etag doc) as [|a t]; [done|]. by injection He' as <-. }
  assert (Hroute :
    applyChangesRoute generateETag production messageOf reason
      (saveDocumentChanges request) served st =
    (written st d doc' (changeRow d <$> requestChanges request) [],
     {| status := 200; statusText := reason 200;
        json := DocumentJson doc' |})).
  { unfold applyChangesRoute.
    cbn [saveDocumentChanges paramsId bodyChanges bodyExpectedVersion
         bodyExpectedETag ifMatch].
    rewrite orElse_undefined.
    change (requestDocumentId request) with d.
    rewrite (applyChangesToDocument_run _ _ _ _ _ _ _ _ Hdoc Hvalid).
    destruct (decide (versionDiffers None doc)) as [(v & ? & _)|_]; [done|].
    rewrite decide_False by exact Hsame.
    change (requestChanges request) with [coalescedChange (buffer w1)].
    rewrite coalescedChange_applied.
    change (currentEditorContent (buffer w1)) with c.
    change (lastSavedContent (buffer w1)) with (content doc).
    rewrite drop_all, app_nil_r. reflexivity. }
  eexists _, _, doc'. split.
  { unfold roundTrip. rewrite Hroute. unfold settles.
    cbn [ok status json]. simpl andb. cbv iota. reflexivity. }
  cbn [step inFlight]. simpl Nat.eqb. cbv iota.
  unfold flushResolved. simpl.
  rewrite bool_decide_eq_true_2 by reflexivity. simpl.
  split; [|split; [by rewrite lookup_insert_eq|done]].
  exists doc'. simpl. rewrite lookup_insert_eq.
  repeat split; try done. by left.
Qed.

(** X24. A save that fails is not tried again by the buffer itself. When
    the pending request is rejected, no timer is set afterwards, so no
    timer event sends anything: for an error that is not taken for a
    conflict the changes are marked as unflushed, but they stay unsent
    until the next edit or an explicit flush. *)
Theorem failed_save_is_not_retried w message :
  serialized w ->
  inFlight w = 1%nat ->
  let w' := step w (Rejected message) in
  timers w' = [] /\
  inFlight w' = 0%nat /\
  isFlushInProgress (buffer w') = false /\
  dispatched w' = dispatched w /\
  currentEditorContent (buffer w') = currentEditorContent (buffer w) /\
  lastSavedContent (buffer w') = lastSavedContent (buffer w) /\
  (includes message (js "409") = false ->
   hasUnflushedChanges (buffer w') = true) /\
  (forall id, step w' (TimerFires id) = w').
Proof.
  intros [(Hk & _)|(_ & Hp & Hts)] Hflight w'; [congruence|].
  subst w'. cbn [step]. rewrite Hflight. simpl Nat.eqb. cbv iota.
  destruct w as [[idle maxw d l r e p c s u] ts n k ds cs]. simpl in *.
  subst. unfold flushRejected.
  assert (Hnone : forall id : nat, bool_decide (id ∈ @nil nat) = false).
  { intros id. apply bool_decide_eq_false_2. apply not_elem_of_nil. }
  destruct (includes message _); simpl;
    repeat split; try done; intros id; by rewrite Hnone.
Qed.

(** X25. Edits made while a save is pending are sent after it. When the
    response arrives and the editor content differs from the content the
    server returned, exactly one timer of 100 ms is set, and when it fires
    one request is sent: the replace of the whole returned content by the
    editor content, with the returned etag as precondition. *)
Theorem edits_during_a_save_are_sent_after_it w etag content now :
  serialized w ->
  inFlight w = 1%nat ->
  currentEditorContent (buffer w) <> content ->
  let w' := step w (Resolved etag content now) in
  exists id,
    timers w' = [(id, 100)] /\
    idleTimeoutId (buffer w') = Some id /\
    inFlight w' = 0%nat /\
    dispatched w' = dispatched w /\
    dispatched (step w' (TimerFires id)) =
      dispatched w ++
      [{| requestDocumentId := documentId (buffer w);
          requestChanges :=
            [positional (js "replace") 0 (strlen content)
               (currentEditorContent (buffer w))];
          requestETag := etagOrUndefined (Some etag) |}].
Proof.
  intros [(Hk & _)|(_ & Hp & Hts)] Hflight Hdiff w'; [congruence|].
  subst w'. cbn [step]. rewrite Hflight. simpl Nat.eqb. cbv iota.
  destruct w as [[idle maxw d l r e p c s u] ts n k ds cs]. simpl in *.
  subst. unfold flushResolved. simpl.
  rewrite bool_decide_eq_false_2 by done. simpl.
  exists n. repeat split.
  rewrite bool_decide_eq_true_2 by (simpl; left).
  unfold flush, clearTimeout. destruct maxw; reflexivity.
Qed.

End Server.

Lemma openedStore_doc1 :
  documents openedStore !! js "doc1" = Some openedDocument.
Proof. vm_compute. reflexivity. Qed.

Lemma openDocument_synced : synced openedStore openDocument.
Proof.
  exists openedDocument. split; [exact openedStore_doc1|].
  repeat split; try reflexivity. by left.
Qed.

Lemma failed_save_is_never_reported_as_conflict_witness :
  let response :=
    (applyChangesRoute exampleETag true exampleMessageOf exampleReason
       (saveDocumentChanges staleRequest) 9 openedStore).2 in
  status response = 409 /\ ok response = false /\
  exists message,
    settles response 10 = Some (Rejected message) /\
    includes message (js "409") = false.
Proof.
  intros response.
  pose proof (failed_save_is_never_reported_as_conflict exampleETag true
                exampleMessageOf exampleReason staleRequest 9 10 openedStore
                openDocument) as [H409 Hfail].
  assert (H1 : documents openedStore !! requestDocumentId staleRequest =
               Some openedDocument) by exact openedStore_doc1.
  assert (H2 : Forall (fun c => isValidChange (toValue c) = true)
                 (requestChanges staleRequest))
    by (constructor; [reflexivity|constructor]).
  assert (H3 : etagDiffers (etagOrUndefined (requestETag staleRequest))
                 openedDocument)
    by (exists (js "stale"); split; [reflexivity|discriminate]).
  assert (H4 : ok response = false) by (vm_compute; reflexivity).
  split; [exact (H409 openedDocument H1 H2 H3)|]. split; [exact H4|].
  destruct (Hfail H4) as (_ & message & Hs & Hi & _).
  exists message. split; [exact Hs|exact Hi].
Defined.

Lemma save_round_trip_witness :
  synced openedStore openDocument /\
  (2%nat ∈ (fst <$> timers (addChange (js "Hello w") openDocument))) /\
  exists st' w3 doc',
    roundTrip exampleETag true exampleMessageOf exampleReason
      (coalescedRequest (buffer (addChange (js "Hello w") openDocument)))
      9 10 openedStore
      (step (addChange (js "Hello w") openDocument) (TimerFires 2)) =
      Some (st', w3) /\
    synced st' w3 /\
    documents st' !! js "doc1" = Some doc' /\
    content doc' = js "Hello w".
Proof.
  assert (H1 : synced openedStore openDocument) by exact openDocument_synced.
  assert (H2 : 2%nat ∈ (fst <$> timers (addChange (js "Hello w") openDocument)))
    by (vm_compute; right; left).
  split; [exact H1|]. split; [exact H2|].
  destruct (save_round_trip exampleETag true exampleMessageOf exampleReason
              openedStore openDocument (js "Hello w") 2%nat 9 10 H1 H2)
    as (_ & st' & w3 & doc' & Htrip & Hsync & Hdoc & Hc & _).
  exists st', w3, doc'. repeat split; assumption.
Defined.

Lemma failed_save_is_not_retried_witness :
  let saving := run openDocument [AddChange (js "Hello w"); TimerFires 2] in
  serialized saving /\ inFlight saving = 1%nat /\
  timers (step saving (Rejected (js "Document not found"))) = [] /\
  hasUnflushedChanges
    (buffer (step saving (Rejected (js "Document not found")))) = true.
Proof.
  intros saving.
  assert (H1 : serialized saving).
  { right. repeat split; vm_compute; reflexivity. }
  assert (H2 : inFlight saving = 1%nat) by (vm_compute; reflexivity).
  split; [exact H1|]. split; [exact H2|].
  destruct (failed_save_is_not_retried saving (js "Document not found") H1 H2)
    as (Ht & _ & _ & _ & _ & _ & Hu & _).
  split; [exact Ht|]. apply Hu. vm_compute. reflexivity.
Defined.

Lemma edits_during_a_save_are_sent_after_it_witness :
  let saving :=
    run openDocument
      [AddChange (js "Hello w"); TimerFires 2; AddChange (js "Hello wo")] in
  serialized saving /\ inFlight saving = 1%nat /\
  currentEditorContent (buffer saving) <> js "Hello w" /\
  exists id,
    timers (step saving (Resolved (js "def456") (js "Hello w") 10)) =
      [(id, 100)].
Proof.
  intros saving.
  assert (H1 : serialized saving).
  { right. repeat split; vm_compute; reflexivity. }
  assert (H2 : inFlight saving = 1%nat) by (vm_compute; reflexivity).
  assert (H3 : currentEditorContent (buffer saving) <> js "Hello w")
    by (vm_compute; discriminate).
  split; [exact H1|]. split; [exact H2|]. split; [exact H3|].
  destruct (edits_during_a_save_are_sent_after_it saving (js "def456")
              (js "Hello w") 10 H1 H2 H3) as (id & Ht & _).
  exists id. exact Ht.
Defined.

End ApiSpec.

(** ** The detected edit *)

Module DiffDetectionSpec.
Import ApplyChanges DiffDetection.
Import JsStringFacts ApplyChangesSpec.






Section Diff.

Variable fastDiff : jsstring -> jsstring -> list Diff.


End Diff.


End DiffDetectionSpec.

(** ** The timers while typing, and [destroy] *)

Module BufferTimersSpec.
Import ApplyChanges ChangeBuffer BufferTimers.
Import ChangeBufferSpec.

Lemma first_edit_typing c w :
  idle w ->
  let w' := addChange c w in
  typing (nextTimerId w) w' /\
  currentEditorContent (buffer w') = c /\
  lastSavedContent (buffer w') = lastSavedContent (buffer w) /\
  currentETag (buffer w') = currentETag (buffer w) /\
  documentId (buffer w') = documentId (buffer w) /\
  dispatched w' = dispatched w.
Proof.
  intros (Hp & Hidle & Hmax & Hts) w'. subst w'.
  destruct w as [[idle maxw d l r e p c0 s u] ts n k ds cs]. simpl in *.
  subst. unfold addChange, typing. simpl.
  repeat split. exists (S n). repeat split; lia.
Qed.

Lemma next_edit_typing c m w :
  typing m w ->
  let w' := addChange c w in
  typing m w' /\
  currentEditorContent (buffer w') = c /\
  lastSavedContent (buffer w') = lastSavedContent (buffer w) /\
  currentETag (buffer w') = currentETag (buffer w) /\
  documentId (buffer w') = documentId (buffer w) /\
  dispatched w' = dispatched w.
Proof.
  intros (Hp & Hu & Hmax & i & Hidle & Hts & Hmi & Hin) w'. subst w'.
  destruct w as [[idle maxw d l r e p c0 s u] ts n k ds cs]. simpl in *.
  subst. unfold addChange, typing. simpl.
  rewrite filter_cons_True by (simpl; lia).
  rewrite filter_cons_False by (simpl; intros H; by apply H).
  rewrite filter_nil. simpl.
  repeat split. exists n. repeat split; lia.
Qed.

Lemma edits_typing w cs c :
  idle w ->
  let w' := run w (AddChange <$> (cs ++ [c])) in
  typing (nextTimerId w) w' /\
  currentEditorContent (buffer w') = c /\
  lastSavedContent (buffer w') = lastSavedContent (buffer w) /\
  currentETag (buffer w') = currentETag (buffer w) /\
  documentId (buffer w') = documentId (buffer w) /\
  dispatched w' = dispatched w.
Proof.
  intros Hidle. revert c.
  induction cs as [|c' cs IH] using rev_ind; intros c w'; subst w'.
  - simpl. by apply first_edit_typing.
  - destruct (IH c') as (Ht & _ & Hs & He & Hd & Hds).
    set (w1 := run w (AddChange <$> (cs ++ [c']))) in *.
    assert (Hrun : run w (AddChange <$> ((cs ++ [c']) ++ [c])) =
                   addChange c w1).
    { unfold w1, run. by rewrite fmap_app, foldl_app. }
    rewrite Hrun.
    destruct (next_edit_typing c _ _ Ht) as (Ht' & Hc' & Hs' & He' & Hd' & Hds').
    split; [exact Ht'|]. repeat split; congruence.
Qed.

(** X27. Typing never postpones the max-wait timer. From an idle buffer,
    after any burst of edits exactly two timers are set: the max-wait
    timer of 2000 ms that the first edit started, still the same one, and
    one idle timer of 500 ms, restarted by the last edit. Nothing has
    been sent; when the max-wait timer fires, one request is sent, for
    the last content of the burst, and no timer is left. *)
Theorem typing_keeps_the_max_wait_timer w cs c :
  idle w ->
  let w' := run w (AddChange <$> (cs ++ [c])) in
  let maxWait := nextTimerId w in
  (exists idleTimer,
     timers w' = [(maxWait, 2000); (idleTimer, 500)] /\
     maxWaitTimeoutId (buffer w') = Some maxWait /\
     idleTimeoutId (buffer w') = Some idleTimer) /\
  dispatched w' = dispatched w /\
  dispatched (step w' (TimerFires maxWait)) =
    dispatched w ++
    [{| requestDocumentId := documentId (buffer w);
        requestChanges :=
          [positional (js "replace") 0 (strlen (lastSavedContent (buffer w)))
             c];
        requestETag := etagOrUndefined (currentETag (buffer w)) |}] /\
  timers (step w' (TimerFires maxWait)) = [].
Proof.
  intros Hidle w' maxWait.
  destruct (edits_typing w cs c Hidle)
    as ((Hp & Hu & Hmax & i & Hi & Hts & Hmi & Hin) & Hc & Hs & He & Hd & Hds).
  fold w' in Hp, Hu, Hmax, Hi, Hts, Hin, Hc, Hs, He, Hd, Hds.
  fold maxWait in Hmax, Hts, Hmi.
  split; [exists i; by repeat split|]. split; [exact Hds|].
  cbn [step]. rewrite bool_decide_eq_true_2 by (rewrite Hts; simpl; left).
  assert (Hflush : hasUnflushedChanges (buffer (clearTimeout maxWait w')) = true)
    by exact Hu.
  destruct (flush_dispatch _ Hflush) as (Hd1 & _ & _ & _).
  split.
  - rewrite Hd1. cbn [clearTimeout dispatched buffer]. rewrite Hds.
    f_equal. f_equal. unfold coalescedRequest, coalescedChange.
    by rewrite Hd, Hs, Hc, He.
  - apply flush_clears_timers. intros id Hid.
    cbn [clearTimeout timers buffer] in *. rewrite Hts in Hid.
    rewrite Hi, Hmax.
    apply list_elem_of_fmap in Hid as ([id' delay] & -> & Hin').
    apply list_elem_of_filter in Hin' as [_ Hin'].
    apply elem_of_cons in Hin' as [[= -> ->]|Hin']; [by right|].
    apply list_elem_of_singleton in Hin' as [= -> ->]. by left.
Qed.

Lemma typing_keeps_the_max_wait_timer_witness :
  idle openDocument /\
  exists idleTimer,
    timers (run openDocument
              (AddChange <$> ([js "Hello w"; js "Hello wo"] ++ [js "Hello wor"]))) =
    [(nextTimerId openDocument, 2000); (idleTimer, 500)].
Proof.
  assert (H : idle openDocument) by (repeat split).
  split; [exact H|].
  destruct (typing_keeps_the_max_wait_timer openDocument
              [js "Hello w"; js "Hello wo"] (js "Hello wor") H)
    as ((idleTimer & Ht & _) & _).
  exists idleTimer. exact Ht.
Defined.

(** X28. [destroy] cancels and does not save. When every timer that is
    set is held in one of the two handles, [destroy] leaves no timer set
    and sends nothing; the fields of the buffer are as they were, so
    changes that were not flushed stay unflushed, and no timer event
    sends them afterwards. *)
Theorem destroy_drops_pending_changes w :
  (forall id, id ∈ (fst <$> timers w) ->
              idleTimeoutId (buffer w) = Some id \/
              maxWaitTimeoutId (buffer w) = Some id) ->
  timers (destroy w) = [] /\
  buffer (destroy w) = buffer w /\
  dispatched (destroy w) = dispatched w /\
  inFlight (destroy w) = inFlight w /\
  (forall id, step (destroy w) (TimerFires id) = destroy w).
Proof.
  intros Hheld.
  assert (Hnone : forall ts : list (nat * Z),
            (forall t, t ∈ ts -> False) -> ts = []).
  { intros [|t ts] Hts; [done|]. exfalso. apply (Hts t). left. }
  assert (Hts : timers (destroy w) = []).
  { apply Hnone. intros t Ht.
    destruct w as [[idle maxw d l r e p c0 s u] ts n k ds cs]. simpl in *.
    assert (Hin : t ∈ ts /\ idle <> Some t.1 /\ maxw <> Some t.1).
    { unfold destroy in Ht.
      destruct idle as [i|], maxw as [m|]; simpl in Ht;
        repeat (apply list_elem_of_filter in Ht as [? Ht]);
        repeat split; try done; congruence. }
    destruct Hin as (Hin & Hi & Hm).
    destruct (Hheld t.1); [|done|done].
    apply list_elem_of_fmap. by exists t. }
  split; [exact Hts|].
  assert (Hrest : buffer (destroy w) = buffer w /\
                  dispatched (destroy w) = dispatched w /\
                  inFlight (destroy w) = inFlight w).
  { destruct w as [[idle maxw d l r e p c0 s u] ts n k ds cs].
    unfold destroy. by destruct idle, maxw. }
  destruct Hrest as (Hb & Hd & Hk). repeat split; try done.
  intros id. cbn [step]. rewrite Hts.
  by rewrite bool_decide_eq_false_2 by apply not_elem_of_nil.
Qed.

Lemma destroy_drops_pending_changes_witness :
  let typed := run openDocument [AddChange (js "Hello w")] in
  hasUnflushedChanges (buffer typed) = true /\
  timers (destroy typed) = [] /\
  dispatched (destroy typed) = [] /\
  hasUnflushedChanges (buffer (destroy typed)) = true.
Proof.
  intros typed.
  assert (H : forall id, id ∈ (fst <$> timers typed) ->
                idleTimeoutId (buffer typed) = Some id \/
                maxWaitTimeoutId (buffer typed) = Some id).
  { intros id Hid. vm_compute in Hid.
    apply elem_of_cons in Hid as [->|Hid]; [by right|].
    apply list_elem_of_singleton in Hid as ->. by left. }
  destruct (destroy_drops_pending_changes typed H) as (Ht & Hb & Hd & _).
  split; [reflexivity|]. split; [exact Ht|].
  split; [by rewrite Hd|]. by rewrite Hb.
Defined.

End BufferTimersSpec.
